(** * Felix calculation graph: event sequencer, policy order, hostname filter

    A shallow embedding of the parts of Felix that the specification makes
    claims about:

    - [calc/event_sequencer.go]: the [EventSequencer], its input callbacks
      and [Flush];
    - [go/felix/calc/calc_graph.go]: [endpointHostnameFilter.OnUpdate] and
      [PolicyByOrder.Less];
    - [logutils]: the level computation of [ConfigureLogging].

    Go maps and sets are finite maps and sets of stdpp; a callback that can
    panic returns a [Result]; [Flush] returns the new state, the messages it
    handed to [Callback] in order, and the fault that stopped it, if any. *)

From Stdlib Require Import Ascii String QArith Lqa.
From Stdlib Require OrderedTypeEx.
From stdpp Require Import base decidable option list countable strings gmap fin_maps fin_sets sorting.

Local Open Scope string_scope.
Local Open Scope list_scope.

#[local] Set Warnings "-clear-no-such-hyp".

(* ===================================================================== *)
(** * Definitions *)
(* ===================================================================== *)

(** ** logutils: log levels *)

(** logrus' [Level], in the order of its numeric values:
    [PanicLevel = 0] up to [DebugLevel = 5]. *)
Inductive Level : Type :=
  | PanicLevel
  | FatalLevel
  | ErrorLevel
  | WarnLevel
  | InfoLevel
  | DebugLevel.

Definition Level_num (l : Level) : nat :=
  match l with
  | PanicLevel => 0
  | FatalLevel => 1
  | ErrorLevel => 2
  | WarnLevel => 3
  | InfoLevel => 4
  | DebugLevel => 5
  end.

(** Go's [l1 > l2] on levels. *)
Definition Level_gt (l1 l2 : Level) : bool := Nat.ltb (Level_num l2) (Level_num l1).

(** The three severity settings of [config.Config] that [ConfigureLogging] reads. *)
Record LogConfig : Type := mkLogConfig {
  LogSeverityScreen : string;
  LogSeverityFile : string;
  LogSeveritySys : string;
}.

(** A parser to run the level computation on: it knows the level names
    in lower case.  [log.ParseLevel] itself belongs to the imported
    logging package and is a variable of the section below. *)
Definition testParseLevel (lvl : string) : option Level :=
  if String.eqb lvl "panic" then Some PanicLevel
  else if String.eqb lvl "fatal" then Some FatalLevel
  else if String.eqb lvl "error" then Some ErrorLevel
  else if String.eqb lvl "warn" then Some WarnLevel
  else if String.eqb lvl "warning" then Some WarnLevel
  else if String.eqb lvl "info" then Some InfoLevel
  else if String.eqb lvl "debug" then Some DebugLevel
  else None.

Section Logging.
(** [log.ParseLevel] belongs to the imported logging package; the level
    computation below is the same for any parser. *)
Variable ParseLevel : string -> option Level.

(** [safeParseLogLevel]: defaults to [PanicLevel] on the empty string and
    on a parse failure. *)
Definition safeParseLogLevel (logLevel : string) : Level :=
  if String.eqb logLevel "" then PanicLevel
  else match ParseLevel logLevel with
       | Some parsedLevel => parsedLevel
       | None => PanicLevel
       end.

(** The first statements of [ConfigureLogging], up to [log.SetLevel]:
    the result is the level handed to [log.SetLevel]. *)
Definition mostVerboseLevel_of (logLevelScreen logLevelFile logLevelSyslog : Level) : Level :=
  let mostVerboseLevel := logLevelScreen in
  let mostVerboseLevel :=
    if Level_gt logLevelFile mostVerboseLevel then logLevelFile else mostVerboseLevel in
  let mostVerboseLevel :=
    if Level_gt logLevelSyslog mostVerboseLevel then logLevelScreen else mostVerboseLevel in
  mostVerboseLevel.

Definition ConfigureLogging_SetLevel (configParams : LogConfig) : Level :=
  let logLevelScreen := safeParseLogLevel (LogSeverityScreen configParams) in
  let logLevelFile := safeParseLogLevel (LogSeverityFile configParams) in
  let logLevelSyslog := safeParseLogLevel (LogSeveritySys configParams) in
  mostVerboseLevel_of logLevelScreen logLevelFile logLevelSyslog.
End Logging.

(** ** Datastore keys *)

(** [model.Key] is an interface; the calculation graph switches on the
    dynamic type of a key.  [OtherKey] stands for every key type other
    than the two endpoint keys (policy, profile, host IP, ... keys). *)
Inductive Key : Type :=
  | WorkloadEndpointKey (Hostname OrchestratorID WorkloadID EndpointID : string)
  | HostEndpointKey (Hostname EndpointID : string)
  | OtherKey (kind path : string).

#[global] Instance Key_eq_dec : EqDecision Key.
Proof. solve_decision. Defined.

Definition Key_encode (k : Key) : (string * string * string * string) + (string * string) + (string * string) :=
  match k with
  | WorkloadEndpointKey h o w e => inl (inl (h, o, w, e))
  | HostEndpointKey h e => inl (inr (h, e))
  | OtherKey a b => inr (a, b)
  end.

Definition Key_decode (x : (string * string * string * string) + (string * string) + (string * string)) : Key :=
  match x with
  | inl (inl (h, o, w, e)) => WorkloadEndpointKey h o w e
  | inl (inr (h, e)) => HostEndpointKey h e
  | inr (a, b) => OtherKey a b
  end.

#[global] Instance Key_countable : Countable Key.
Proof. apply (inj_countable' Key_encode Key_decode). by intros []. Defined.

Record PolicyKey : Type := mkPolicyKey { PolicyKey_Name : string }.

#[global] Instance PolicyKey_eq_dec : EqDecision PolicyKey.
Proof. solve_decision. Defined.

#[global] Instance PolicyKey_countable : Countable PolicyKey.
Proof. apply (inj_countable' PolicyKey_Name mkPolicyKey). by intros []. Defined.

Record ProfileRulesKey : Type := mkProfileRulesKey { ProfileRulesKey_Name : string }.

#[global] Instance ProfileRulesKey_eq_dec : EqDecision ProfileRulesKey.
Proof. solve_decision. Defined.

#[global] Instance ProfileRulesKey_countable : Countable ProfileRulesKey.
Proof. apply (inj_countable' ProfileRulesKey_Name mkProfileRulesKey). by intros []. Defined.

(** ** calc_graph.go: the hostname filter *)

(** [api.Update] as the filter reads it: the key, and whether the value is
    nil (a deletion). *)
Record Update : Type := mkUpdate {
  Update_Key : Key;
  Update_ValueIsNil : bool;
}.

Record endpointHostnameFilter : Type := mkEndpointHostnameFilter {
  hostname : string;
}.

(** [endpointHostnameFilter.OnUpdate]; the log lines are dropped. *)
Definition endpointHostnameFilter_OnUpdate (f : endpointHostnameFilter) (update : Update) : bool :=
  let filterOut := false in
  let filterOut :=
    match Update_Key update with
    | WorkloadEndpointKey h _ _ _ =>
        if negb (String.eqb h (hostname f)) then true else filterOut
    | HostEndpointKey h _ =>
        if negb (String.eqb h (hostname f)) then true else filterOut
    | OtherKey _ _ => filterOut
    end in
  filterOut.

(** ** calc_graph.go: policy order *)

(** Go's [float64] as [==] and [<] see it: NaN, or a point of the extended
    real line (every finite float is a rational; the two zeros are the one
    rational 0). *)
Inductive float64 : Type :=
  | F64NaN
  | F64NegInf
  | F64Finite (q : Q)
  | F64PosInf.

(** Go's [x == y] on [float64]. *)
Definition float64_eq (x y : float64) : bool :=
  match x, y with
  | F64NegInf, F64NegInf => true
  | F64PosInf, F64PosInf => true
  | F64Finite p, F64Finite q => Qeq_bool p q
  | _, _ => false
  end.

(** Go's [x < y] on [float64]. *)
Definition float64_lt (x y : float64) : bool :=
  match x, y with
  | F64NaN, _ | _, F64NaN => false
  | F64NegInf, F64NegInf => false
  | F64NegInf, _ => true
  | F64Finite p, F64Finite q => negb (Qle_bool q p)
  | F64Finite _, F64PosInf => true
  | _, _ => false
  end.

(** [model.Policy], the fields the calculation graph reads. *)
Record Policy : Type := mkPolicy {
  Policy_Order : option float64;
  Policy_Selector : string;
  Policy_DoNotTrack : bool;
}.

Record PolKV : Type := mkPolKV {
  PolKV_Key : PolicyKey;
  PolKV_Value : Policy;
}.

(** The body of [PolicyByOrder.Less] on the two elements [a[i]], [a[j]]. *)
Definition PolKV_less (ai aj : PolKV) : bool :=
  let oi := Policy_Order (PolKV_Value ai) in
  let oj := Policy_Order (PolKV_Value aj) in
  let bothNil := (bool_decide (oi = None) && bool_decide (oj = None))%bool in
  let bothSet := (negb (bool_decide (oi = None)) && negb (bool_decide (oj = None)))%bool in
  let ordersEqual :=
    (bothNil || bothSet &&
       match oi, oj with
       | Some x, Some y => float64_eq x y
       | _, _ => false
       end)%bool in
  if ordersEqual then
    String.ltb (PolicyKey_Name (PolKV_Key ai)) (PolicyKey_Name (PolKV_Key aj))
  else
    match oi, oj with
    | None, _ => false
    | _, None => true
    | Some x, Some y => float64_lt x y
    end.

(** [PolicyByOrder.Less(i, j)]: [None] is the index-out-of-range panic. *)
Definition PolicyByOrder_Less (a : list PolKV) (i j : nat) : option bool :=
  match a !! i, a !! j with
  | Some ai, Some aj => Some (PolKV_less ai aj)
  | _, _ => None
  end.

(** The order and the name that [Less] reads off an element. *)
Definition orderOf (a : PolKV) : option float64 := Policy_Order (PolKV_Value a).

Definition nameOf (a : PolKV) : string := PolicyKey_Name (PolKV_Key a).

(** The test [ordersEqual] of [Less]: both orders nil, or both set and [==]. *)
Definition sameOrder (a b : PolKV) : Prop :=
  match orderOf a, orderOf b with
  | None, None => True
  | Some x, Some y => float64_eq x y = true
  | _, _ => False
  end.

Definition orderNotNaN (a : PolKV) : Prop := orderOf a <> Some F64NaN.

(** [Less] is total on the policies that satisfy [P]: it orders any two
    of them, one way or the other, unless they agree in order and name. *)
Definition LessTotalOn (P : PolKV -> Prop) : Prop :=
  forall a b, P a -> P b ->
    PolKV_less a b = true \/ PolKV_less b a = true \/
    (sameOrder a b /\ nameOf a = nameOf b).

(** [==] and [<] of [float64], read as propositions. *)
Definition f64_eqP (x y : float64) : Prop :=
  match x, y with
  | F64NegInf, F64NegInf | F64PosInf, F64PosInf => True
  | F64Finite p, F64Finite q => (p == q)%Q
  | _, _ => False
  end.

Definition f64_ltP (x y : float64) : Prop :=
  match x, y with
  | F64NaN, _ | _, F64NaN => False
  | F64NegInf, F64NegInf => False
  | F64NegInf, _ => True
  | F64Finite p, F64Finite q => (p < q)%Q
  | F64Finite _, F64PosInf => True
  | _, _ => False
  end.

(** Two kinds of policies to try [Less] on: with a NaN order, and with a
    rational or nil order. *)
Definition polNaN (name : string) : PolKV :=
  {| PolKV_Key := {| PolicyKey_Name := name |};
     PolKV_Value := {| Policy_Order := Some F64NaN; Policy_Selector := "";
                       Policy_DoNotTrack := false |} |}.

Definition polOrder (name : string) (order : option Q) : PolKV :=
  {| PolKV_Key := {| PolicyKey_Name := name |};
     PolKV_Value := {| Policy_Order := F64Finite <$> order; Policy_Selector := "";
                       Policy_DoNotTrack := false |} |}.

(** ** event_sequencer.go: faults *)

Inductive Fault : Type :=
  | LogPanic (msg : string)
  | LogFatal (msg : string)
  | NilDereference
  | TypeAssertion
  | UnhashableKey.

(** The result of an input callback: the new state, or the fault that
    ended the process. *)
Inductive Result (A : Type) : Type :=
  | Ok (a : A)
  | Failed (f : Fault).
Arguments Ok {A} a.
Arguments Failed {A} f.

(** An input callback that ends in [log.Panic]. *)
Definition panics {A : Type} (r : Result A) : Prop :=
  exists msg, r = Failed (LogPanic msg).

(** ** event_sequencer.go: collaborators from other packages *)

(** [config.Source], the two sources the sequencer passes to [UpdateFrom]. *)
Inductive Source : Type :=
  | DatastoreGlobal
  | DatastorePerHost.

(** What the sequencer uses of the packages it imports ([ip], [net],
    [model], [config], the rule conversion of its own package that is not
    among the sources): opaque value types with their [String] methods, the
    rule conversion, and the [configInterface].  A Go map argument that may
    be nil is an [option]. *)
Class Externals : Type := {
  Addr : Type;
  Addr_eq_dec :: EqDecision Addr;
  Addr_countable :: Countable Addr;
  Addr_String : Addr -> string;
  CIDR : Type;
  CIDR_eq_dec :: EqDecision CIDR;
  CIDR_countable :: Countable CIDR;
  CIDR_String : CIDR -> string;
  IPNet : Type;
  IPNet_eq_dec :: EqDecision IPNet;
  IPNet_countable :: Countable IPNet;
  IPNet_String : IPNet -> string;
  CIDRFromCalicoNet : IPNet -> CIDR;
  NetIP : Type;
  NetIP_String : NetIP -> string;
  MAC : Type;
  MAC_String : MAC -> string;
  ParsedRule : Type;
  ProtoRule : Type;
  parsedRulesToProtoRules : list ParsedRule -> string -> list ProtoRule;
  Config : Type;
  Config_UpdateFrom :
    Config -> option (gmap string string) -> Source -> Config * bool * option string;
  Config_RawValues : Config -> gmap string string;
}.

Section Sequencer.
Context `{Ext : Externals}.

(** *** Values handed to the sequencer *)

Record ParsedRules : Type := mkParsedRules {
  InboundRules : list ParsedRule;
  OutboundRules : list ParsedRule;
  Untracked : bool;
}.

Record IPNAT : Type := mkIPNAT {
  IntIP : NetIP;
  ExtIP : NetIP;
}.

Record WorkloadEndpoint : Type := mkWorkloadEndpoint {
  wep_State : string;
  wep_Name : string;
  wep_Mac : option MAC;
  wep_ProfileIDs : list string;
  wep_IPv4Nets : list IPNet;
  wep_IPv6Nets : list IPNet;
  wep_IPv4NAT : list IPNAT;
  wep_IPv6NAT : list IPNAT;
}.

Record HostEndpoint : Type := mkHostEndpoint {
  hep_Name : string;
  hep_ExpectedIPv4Addrs : list NetIP;
  hep_ExpectedIPv6Addrs : list NetIP;
  hep_ProfileIDs : list string;
}.

(** The non-nil [interface{}] values an endpoint update carries: a pointer
    to a workload or to a host endpoint, where the pointer itself may be
    nil ([None]). *)
Inductive EndpointValue : Type :=
  | WorkloadEndpointPtr (p : option WorkloadEndpoint)
  | HostEndpointPtr (p : option HostEndpoint).

Record IPPool : Type := mkIPPool {
  IPPool_CIDR : IPNet;
  IPPool_Masquerade : bool;
}.

Record IPPoolKey : Type := mkIPPoolKey { IPPoolKey_CIDR : IPNet }.

#[global] Instance IPPoolKey_eq_dec : EqDecision IPPoolKey.
Proof. solve_decision. Defined.

#[global] Instance IPPoolKey_countable : Countable IPPoolKey.
Proof. apply (inj_countable' IPPoolKey_CIDR mkIPPoolKey). by intros []. Defined.

(** The items of the [pendingIPPoolDeletes] set, which holds [interface{}]
    values: an [ip.CIDR], which is what [OnIPPoolRemove] adds, or a value
    of the type that [OnIPPoolUpdate] hands to [Discard], on which the
    type assertion of [flushIPPoolDeletes] fails.  A [model.IPPoolKey]
    holds the byte slices of a [net.IPNet] and cannot be hashed, so none
    is ever in the set. *)
Inductive IPPoolItem : Type :=
  | ItemIPPoolKey (key : IPPoolKey)
  | ItemCIDR (cidr : CIDR).

#[global] Instance IPPoolItem_eq_dec : EqDecision IPPoolItem.
Proof. solve_decision. Defined.

Definition IPPoolItem_encode (i : IPPoolItem) : IPPoolKey + CIDR :=
  match i with
  | ItemIPPoolKey k => inl k
  | ItemCIDR c => inr c
  end.

Definition IPPoolItem_decode (x : IPPoolKey + CIDR) : IPPoolItem :=
  match x with
  | inl k => ItemIPPoolKey k
  | inr c => ItemCIDR c
  end.

#[global] Instance IPPoolItem_countable : Countable IPPoolItem.
Proof. apply (inj_countable' IPPoolItem_encode IPPoolItem_decode). by intros []. Defined.

(** [tierInfo] of calc_graph.go. *)
Record tierInfo : Type := mkTierInfo {
  tierInfo_Name : string;
  tierInfo_Valid : bool;
  tierInfo_Order : option float64;
  tierInfo_Policies : gmap PolicyKey Policy;
  tierInfo_OrderedPolicies : list PolKV;
}.

(** *** Messages handed to [Callback] *)

Record PolicyID : Type := mkPolicyID {
  PolicyID_Tier : string;
  PolicyID_Name : string;
}.

Record ProtoPolicy : Type := mkProtoPolicy {
  ProtoPolicy_InboundRules : list ProtoRule;
  ProtoPolicy_OutboundRules : list ProtoRule;
  ProtoPolicy_Untracked : bool;
}.

Record ProtoProfile : Type := mkProtoProfile {
  ProtoProfile_InboundRules : list ProtoRule;
  ProtoProfile_OutboundRules : list ProtoRule;
}.

Record ProtoTierInfo : Type := mkProtoTierInfo {
  ProtoTierInfo_Name : string;
  ProtoTierInfo_Policies : list string;
}.

Record NatInfo : Type := mkNatInfo {
  NatInfo_ExtIp : string;
  NatInfo_IntIp : string;
}.

Record WorkloadEndpointID : Type := mkWorkloadEndpointID {
  wid_OrchestratorId : string;
  wid_WorkloadId : string;
  wid_EndpointId : string;
}.

Record HostEndpointID : Type := mkHostEndpointID {
  hid_EndpointId : string;
}.

(** [proto.WorkloadEndpoint] as [ModelWorkloadEndpointToProto] fills it. *)
Record ProtoWorkloadEndpoint : Type := mkProtoWorkloadEndpoint {
  pwep_State : string;
  pwep_Name : string;
  pwep_Mac : string;
  pwep_ProfileIds : list string;
  pwep_Ipv4Nets : list string;
  pwep_Ipv6Nets : list string;
  pwep_Tiers : list ProtoTierInfo;
  pwep_Ipv4Nat : list NatInfo;
  pwep_Ipv6Nat : list NatInfo;
}.

(** [proto.HostEndpoint] as [ModelHostEndpointToProto] fills it. *)
Record ProtoHostEndpoint : Type := mkProtoHostEndpoint {
  phep_Name : string;
  phep_ExpectedIpv4Addrs : list string;
  phep_ExpectedIpv6Addrs : list string;
  phep_ProfileIds : list string;
  phep_Tiers : list ProtoTierInfo;
  phep_UntrackedTiers : list ProtoTierInfo;
}.

Record IPAMPool : Type := mkIPAMPool {
  IPAMPool_Cidr : string;
  IPAMPool_Masquerade : bool;
}.

Inductive Message : Type :=
  | DatastoreNotReady
  | ConfigUpdate (Config : gmap string string)
  | IPSetUpdate (Id : string) (Members : list string)
  | IPSetDeltaUpdate (Id : string) (AddedMembers RemovedMembers : list string)
  | IPSetRemove (Id : string)
  | ActivePolicyUpdate (Id : PolicyID) (Policy : ProtoPolicy)
  | ActivePolicyRemove (Id : PolicyID)
  | ActiveProfileUpdate (Id : string) (Profile : ProtoProfile)
  | ActiveProfileRemove (Id : string)
  | WorkloadEndpointUpdate (Id : WorkloadEndpointID) (Endpoint : ProtoWorkloadEndpoint)
  | WorkloadEndpointRemove (Id : WorkloadEndpointID)
  | HostEndpointUpdate (Id : HostEndpointID) (Endpoint : ProtoHostEndpoint)
  | HostEndpointRemove (Id : HostEndpointID)
  | HostMetadataUpdate (Hostname Ipv4Addr : string)
  | HostMetadataRemove (Hostname : string)
  | IPAMPoolUpdate (Id : string) (Pool : IPAMPool)
  | IPAMPoolRemove (Id : string).

(** *** The sequencer state *)

(** The fields of the Go struct, without [Callback]: the messages handed to
    it are returned by [Flush].  A [set.Set] is a [gset] of the items the
    code adds to it, a Go map a [gmap]; a pointer value that the code
    stores and later dereferences is an [option]. *)
Record EventSequencer : Type := mkEventSequencer {
  config : Config;
  pendingAddedIPSets : gset string;
  pendingRemovedIPSets : gset string;
  pendingAddedIPs : gmap string (gset Addr);
  pendingRemovedIPs : gmap string (gset Addr);
  pendingPolicyUpdates : gmap PolicyKey (option ParsedRules);
  pendingPolicyDeletes : gset PolicyKey;
  pendingProfileUpdates : gmap ProfileRulesKey (option ParsedRules);
  pendingProfileDeletes : gset ProfileRulesKey;
  pendingEndpointUpdates : gmap Key EndpointValue;
  pendingEndpointTierUpdates : gmap Key (list tierInfo);
  pendingEndpointDeletes : gset Key;
  pendingHostIPUpdates : gmap string (option NetIP);
  pendingHostIPDeletes : gset string;
  pendingIPPoolUpdates : gmap CIDR (option IPPool);
  pendingIPPoolDeletes : gset IPPoolItem;
  pendingNotReady : bool;
  pendingGlobalConfig : option (gmap string string);
  pendingHostConfig : option (gmap string string);
  sentIPSets : gset string;
  sentPolicies : gset PolicyKey;
  sentProfiles : gset ProfileRulesKey;
  sentEndpoints : gset Key;
  sentHostIPs : gset string;
  sentIPPools : gset CIDR;
}.

(** Field updates: [set_f v buf] is [buf] with field [f] replaced by [v]. *)
Definition set_config (v : Config) (buf : EventSequencer) : EventSequencer :=
  mkEventSequencer v (pendingAddedIPSets buf) (pendingRemovedIPSets buf) (pendingAddedIPs buf) (pendingRemovedIPs buf) (pendingPolicyUpdates buf) (pendingPolicyDeletes buf) (pendingProfileUpdates buf) (pendingProfileDeletes buf) (pendingEndpointUpdates buf) (pendingEndpointTierUpdates buf) (pendingEndpointDeletes buf) (pendingHostIPUpdates buf) (pendingHostIPDeletes buf) (pendingIPPoolUpdates buf) (pendingIPPoolDeletes buf) (pendingNotReady buf) (pendingGlobalConfig buf) (pendingHostConfig buf) (sentIPSets buf) (sentPolicies buf) (sentProfiles buf) (sentEndpoints buf) (sentHostIPs buf) (sentIPPools buf).

Definition set_pendingAddedIPSets (v : gset string) (buf : EventSequencer) : EventSequencer :=
  mkEventSequencer (config buf) v (pendingRemovedIPSets buf) (pendingAddedIPs buf) (pendingRemovedIPs buf) (pendingPolicyUpdates buf) (pendingPolicyDeletes buf) (pendingProfileUpdates buf) (pendingProfileDeletes buf) (pendingEndpointUpdates buf) (pendingEndpointTierUpdates buf) (pendingEndpointDeletes buf) (pendingHostIPUpdates buf) (pendingHostIPDeletes buf) (pendingIPPoolUpdates buf) (pendingIPPoolDeletes buf) (pendingNotReady buf) (pendingGlobalConfig buf) (pendingHostConfig buf) (sentIPSets buf) (sentPolicies buf) (sentProfiles buf) (sentEndpoints buf) (sentHostIPs buf) (sentIPPools buf).

Definition set_pendingRemovedIPSets (v : gset string) (buf : EventSequencer) : EventSequencer :=
  mkEventSequencer (config buf) (pendingAddedIPSets buf) v (pendingAddedIPs buf) (pendingRemovedIPs buf) (pendingPolicyUpdates buf) (pendingPolicyDeletes buf) (pendingProfileUpdates buf) (pendingProfileDeletes buf) (pendingEndpointUpdates buf) (pendingEndpointTierUpdates buf) (pendingEndpointDeletes buf) (pendingHostIPUpdates buf) (pendingHostIPDeletes buf) (pendingIPPoolUpdates buf) (pendingIPPoolDeletes buf) (pendingNotReady buf) (pendingGlobalConfig buf) (pendingHostConfig buf) (sentIPSets buf) (sentPolicies buf) (sentProfiles buf) (sentEndpoints buf) (sentHostIPs buf) (sentIPPools buf).

Definition set_pendingAddedIPs (v : gmap string (gset Addr)) (buf : EventSequencer) : EventSequencer :=
  mkEventSequencer (config buf) (pendingAddedIPSets buf) (pendingRemovedIPSets buf) v (pendingRemovedIPs buf) (pendingPolicyUpdates buf) (pendingPolicyDeletes buf) (pendingProfileUpdates buf) (pendingProfileDeletes buf) (pendingEndpointUpdates buf) (pendingEndpointTierUpdates buf) (pendingEndpointDeletes buf) (pendingHostIPUpdates buf) (pendingHostIPDeletes buf) (pendingIPPoolUpdates buf) (pendingIPPoolDeletes buf) (pendingNotReady buf) (pendingGlobalConfig buf) (pendingHostConfig buf) (sentIPSets buf) (sentPolicies buf) (sentProfiles buf) (sentEndpoints buf) (sentHostIPs buf) (sentIPPools buf).

Definition set_pendingRemovedIPs (v : gmap string (gset Addr)) (buf : EventSequencer) : EventSequencer :=
  mkEventSequencer (config buf) (pendingAddedIPSets buf) (pendingRemovedIPSets buf) (pendingAddedIPs buf) v (pendingPolicyUpdates buf) (pendingPolicyDeletes buf) (pendingProfileUpdates buf) (pendingProfileDeletes buf) (pendingEndpointUpdates buf) (pendingEndpointTierUpdates buf) (pendingEndpointDeletes buf) (pendingHostIPUpdates buf) (pendingHostIPDeletes buf) (pendingIPPoolUpdates buf) (pendingIPPoolDeletes buf) (pendingNotReady buf) (pendingGlobalConfig buf) (pendingHostConfig buf) (sentIPSets buf) (sentPolicies buf) (sentProfiles buf) (sentEndpoints buf) (sentHostIPs buf) (sentIPPools buf).

Definition set_pendingPolicyUpdates (v : gmap PolicyKey (option ParsedRules)) (buf : EventSequencer) : EventSequencer :=
  mkEventSequencer (config buf) (pendingAddedIPSets buf) (pendingRemovedIPSets buf) (pendingAddedIPs buf) (pendingRemovedIPs buf) v (pendingPolicyDeletes buf) (pendingProfileUpdates buf) (pendingProfileDeletes buf) (pendingEndpointUpdates buf) (pendingEndpointTierUpdates buf) (pendingEndpointDeletes buf) (pendingHostIPUpdates buf) (pendingHostIPDeletes buf) (pendingIPPoolUpdates buf) (pendingIPPoolDeletes buf) (pendingNotReady buf) (pendingGlobalConfig buf) (pendingHostConfig buf) (sentIPSets buf) (sentPolicies buf) (sentProfiles buf) (sentEndpoints buf) (sentHostIPs buf) (sentIPPools buf).

Definition set_pendingPolicyDeletes (v : gset PolicyKey) (buf : EventSequencer) : EventSequencer :=
  mkEventSequencer (config buf) (pendingAddedIPSets buf) (pendingRemovedIPSets buf) (pendingAddedIPs buf) (pendingRemovedIPs buf) (pendingPolicyUpdates buf) v (pendingProfileUpdates buf) (pendingProfileDeletes buf) (pendingEndpointUpdates buf) (pendingEndpointTierUpdates buf) (pendingEndpointDeletes buf) (pendingHostIPUpdates buf) (pendingHostIPDeletes buf) (pendingIPPoolUpdates buf) (pendingIPPoolDeletes buf) (pendingNotReady buf) (pendingGlobalConfig buf) (pendingHostConfig buf) (sentIPSets buf) (sentPolicies buf) (sentProfiles buf) (sentEndpoints buf) (sentHostIPs buf) (sentIPPools buf).

Definition set_pendingProfileUpdates (v : gmap ProfileRulesKey (option ParsedRules)) (buf : EventSequencer) : EventSequencer :=
  mkEventSequencer (config buf) (pendingAddedIPSets buf) (pendingRemovedIPSets buf) (pendingAddedIPs buf) (pendingRemovedIPs buf) (pendingPolicyUpdates buf) (pendingPolicyDeletes buf) v (pendingProfileDeletes buf) (pendingEndpointUpdates buf) (pendingEndpointTierUpdates buf) (pendingEndpointDeletes buf) (pendingHostIPUpdates buf) (pendingHostIPDeletes buf) (pendingIPPoolUpdates buf) (pendingIPPoolDeletes buf) (pendingNotReady buf) (pendingGlobalConfig buf) (pendingHostConfig buf) (sentIPSets buf) (sentPolicies buf) (sentProfiles buf) (sentEndpoints buf) (sentHostIPs buf) (sentIPPools buf).

Definition set_pendingProfileDeletes (v : gset ProfileRulesKey) (buf : EventSequencer) : EventSequencer :=
  mkEventSequencer (config buf) (pendingAddedIPSets buf) (pendingRemovedIPSets buf) (pendingAddedIPs buf) (pendingRemovedIPs buf) (pendingPolicyUpdates buf) (pendingPolicyDeletes buf) (pendingProfileUpdates buf) v (pendingEndpointUpdates buf) (pendingEndpointTierUpdates buf) (pendingEndpointDeletes buf) (pendingHostIPUpdates buf) (pendingHostIPDeletes buf) (pendingIPPoolUpdates buf) (pendingIPPoolDeletes buf) (pendingNotReady buf) (pendingGlobalConfig buf) (pendingHostConfig buf) (sentIPSets buf) (sentPolicies buf) (sentProfiles buf) (sentEndpoints buf) (sentHostIPs buf) (sentIPPools buf).

Definition set_pendingEndpointUpdates (v : gmap Key EndpointValue) (buf : EventSequencer) : EventSequencer :=
  mkEventSequencer (config buf) (pendingAddedIPSets buf) (pendingRemovedIPSets buf) (pendingAddedIPs buf) (pendingRemovedIPs buf) (pendingPolicyUpdates buf) (pendingPolicyDeletes buf) (pendingProfileUpdates buf) (pendingProfileDeletes buf) v (pendingEndpointTierUpdates buf) (pendingEndpointDeletes buf) (pendingHostIPUpdates buf) (pendingHostIPDeletes buf) (pendingIPPoolUpdates buf) (pendingIPPoolDeletes buf) (pendingNotReady buf) (pendingGlobalConfig buf) (pendingHostConfig buf) (sentIPSets buf) (sentPolicies buf) (sentProfiles buf) (sentEndpoints buf) (sentHostIPs buf) (sentIPPools buf).

Definition set_pendingEndpointTierUpdates (v : gmap Key (list tierInfo)) (buf : EventSequencer) : EventSequencer :=
  mkEventSequencer (config buf) (pendingAddedIPSets buf) (pendingRemovedIPSets buf) (pendingAddedIPs buf) (pendingRemovedIPs buf) (pendingPolicyUpdates buf) (pendingPolicyDeletes buf) (pendingProfileUpdates buf) (pendingProfileDeletes buf) (pendingEndpointUpdates buf) v (pendingEndpointDeletes buf) (pendingHostIPUpdates buf) (pendingHostIPDeletes buf) (pendingIPPoolUpdates buf) (pendingIPPoolDeletes buf) (pendingNotReady buf) (pendingGlobalConfig buf) (pendingHostConfig buf) (sentIPSets buf) (sentPolicies buf) (sentProfiles buf) (sentEndpoints buf) (sentHostIPs buf) (sentIPPools buf).

Definition set_pendingEndpointDeletes (v : gset Key) (buf : EventSequencer) : EventSequencer :=
  mkEventSequencer (config buf) (pendingAddedIPSets buf) (pendingRemovedIPSets buf) (pendingAddedIPs buf) (pendingRemovedIPs buf) (pendingPolicyUpdates buf) (pendingPolicyDeletes buf) (pendingProfileUpdates buf) (pendingProfileDeletes buf) (pendingEndpointUpdates buf) (pendingEndpointTierUpdates buf) v (pendingHostIPUpdates buf) (pendingHostIPDeletes buf) (pendingIPPoolUpdates buf) (pendingIPPoolDeletes buf) (pendingNotReady buf) (pendingGlobalConfig buf) (pendingHostConfig buf) (sentIPSets buf) (sentPolicies buf) (sentProfiles buf) (sentEndpoints buf) (sentHostIPs buf) (sentIPPools buf).

Definition set_pendingHostIPUpdates (v : gmap string (option NetIP)) (buf : EventSequencer) : EventSequencer :=
  mkEventSequencer (config buf) (pendingAddedIPSets buf) (pendingRemovedIPSets buf) (pendingAddedIPs buf) (pendingRemovedIPs buf) (pendingPolicyUpdates buf) (pendingPolicyDeletes buf) (pendingProfileUpdates buf) (pendingProfileDeletes buf) (pendingEndpointUpdates buf) (pendingEndpointTierUpdates buf) (pendingEndpointDeletes buf) v (pendingHostIPDeletes buf) (pendingIPPoolUpdates buf) (pendingIPPoolDeletes buf) (pendingNotReady buf) (pendingGlobalConfig buf) (pendingHostConfig buf) (sentIPSets buf) (sentPolicies buf) (sentProfiles buf) (sentEndpoints buf) (sentHostIPs buf) (sentIPPools buf).

Definition set_pendingHostIPDeletes (v : gset string) (buf : EventSequencer) : EventSequencer :=
  mkEventSequencer (config buf) (pendingAddedIPSets buf) (pendingRemovedIPSets buf) (pendingAddedIPs buf) (pendingRemovedIPs buf) (pendingPolicyUpdates buf) (pendingPolicyDeletes buf) (pendingProfileUpdates buf) (pendingProfileDeletes buf) (pendingEndpointUpdates buf) (pendingEndpointTierUpdates buf) (pendingEndpointDeletes buf) (pendingHostIPUpdates buf) v (pendingIPPoolUpdates buf) (pendingIPPoolDeletes buf) (pendingNotReady buf) (pendingGlobalConfig buf) (pendingHostConfig buf) (sentIPSets buf) (sentPolicies buf) (sentProfiles buf) (sentEndpoints buf) (sentHostIPs buf) (sentIPPools buf).

Definition set_pendingIPPoolUpdates (v : gmap CIDR (option IPPool)) (buf : EventSequencer) : EventSequencer :=
  mkEventSequencer (config buf) (pendingAddedIPSets buf) (pendingRemovedIPSets buf) (pendingAddedIPs buf) (pendingRemovedIPs buf) (pendingPolicyUpdates buf) (pendingPolicyDeletes buf) (pendingProfileUpdates buf) (pendingProfileDeletes buf) (pendingEndpointUpdates buf) (pendingEndpointTierUpdates buf) (pendingEndpointDeletes buf) (pendingHostIPUpdates buf) (pendingHostIPDeletes buf) v (pendingIPPoolDeletes buf) (pendingNotReady buf) (pendingGlobalConfig buf) (pendingHostConfig buf) (sentIPSets buf) (sentPolicies buf) (sentProfiles buf) (sentEndpoints buf) (sentHostIPs buf) (sentIPPools buf).

Definition set_pendingIPPoolDeletes (v : gset IPPoolItem) (buf : EventSequencer) : EventSequencer :=
  mkEventSequencer (config buf) (pendingAddedIPSets buf) (pendingRemovedIPSets buf) (pendingAddedIPs buf) (pendingRemovedIPs buf) (pendingPolicyUpdates buf) (pendingPolicyDeletes buf) (pendingProfileUpdates buf) (pendingProfileDeletes buf) (pendingEndpointUpdates buf) (pendingEndpointTierUpdates buf) (pendingEndpointDeletes buf) (pendingHostIPUpdates buf) (pendingHostIPDeletes buf) (pendingIPPoolUpdates buf) v (pendingNotReady buf) (pendingGlobalConfig buf) (pendingHostConfig buf) (sentIPSets buf) (sentPolicies buf) (sentProfiles buf) (sentEndpoints buf) (sentHostIPs buf) (sentIPPools buf).

Definition set_pendingNotReady (v : bool) (buf : EventSequencer) : EventSequencer :=
  mkEventSequencer (config buf) (pendingAddedIPSets buf) (pendingRemovedIPSets buf) (pendingAddedIPs buf) (pendingRemovedIPs buf) (pendingPolicyUpdates buf) (pendingPolicyDeletes buf) (pendingProfileUpdates buf) (pendingProfileDeletes buf) (pendingEndpointUpdates buf) (pendingEndpointTierUpdates buf) (pendingEndpointDeletes buf) (pendingHostIPUpdates buf) (pendingHostIPDeletes buf) (pendingIPPoolUpdates buf) (pendingIPPoolDeletes buf) v (pendingGlobalConfig buf) (pendingHostConfig buf) (sentIPSets buf) (sentPolicies buf) (sentProfiles buf) (sentEndpoints buf) (sentHostIPs buf) (sentIPPools buf).

Definition set_pendingGlobalConfig (v : option (gmap string string)) (buf : EventSequencer) : EventSequencer :=
  mkEventSequencer (config buf) (pendingAddedIPSets buf) (pendingRemovedIPSets buf) (pendingAddedIPs buf) (pendingRemovedIPs buf) (pendingPolicyUpdates buf) (pendingPolicyDeletes buf) (pendingProfileUpdates buf) (pendingProfileDeletes buf) (pendingEndpointUpdates buf) (pendingEndpointTierUpdates buf) (pendingEndpointDeletes buf) (pendingHostIPUpdates buf) (pendingHostIPDeletes buf) (pendingIPPoolUpdates buf) (pendingIPPoolDeletes buf) (pendingNotReady buf) v (pendingHostConfig buf) (sentIPSets buf) (sentPolicies buf) (sentProfiles buf) (sentEndpoints buf) (sentHostIPs buf) (sentIPPools buf).

Definition set_pendingHostConfig (v : option (gmap string string)) (buf : EventSequencer) : EventSequencer :=
  mkEventSequencer (config buf) (pendingAddedIPSets buf) (pendingRemovedIPSets buf) (pendingAddedIPs buf) (pendingRemovedIPs buf) (pendingPolicyUpdates buf) (pendingPolicyDeletes buf) (pendingProfileUpdates buf) (pendingProfileDeletes buf) (pendingEndpointUpdates buf) (pendingEndpointTierUpdates buf) (pendingEndpointDeletes buf) (pendingHostIPUpdates buf) (pendingHostIPDeletes buf) (pendingIPPoolUpdates buf) (pendingIPPoolDeletes buf) (pendingNotReady buf) (pendingGlobalConfig buf) v (sentIPSets buf) (sentPolicies buf) (sentProfiles buf) (sentEndpoints buf) (sentHostIPs buf) (sentIPPools buf).

Definition set_sentIPSets (v : gset string) (buf : EventSequencer) : EventSequencer :=
  mkEventSequencer (config buf) (pendingAddedIPSets buf) (pendingRemovedIPSets buf) (pendingAddedIPs buf) (pendingRemovedIPs buf) (pendingPolicyUpdates buf) (pendingPolicyDeletes buf) (pendingProfileUpdates buf) (pendingProfileDeletes buf) (pendingEndpointUpdates buf) (pendingEndpointTierUpdates buf) (pendingEndpointDeletes buf) (pendingHostIPUpdates buf) (pendingHostIPDeletes buf) (pendingIPPoolUpdates buf) (pendingIPPoolDeletes buf) (pendingNotReady buf) (pendingGlobalConfig buf) (pendingHostConfig buf) v (sentPolicies buf) (sentProfiles buf) (sentEndpoints buf) (sentHostIPs buf) (sentIPPools buf).

Definition set_sentPolicies (v : gset PolicyKey) (buf : EventSequencer) : EventSequencer :=
  mkEventSequencer (config buf) (pendingAddedIPSets buf) (pendingRemovedIPSets buf) (pendingAddedIPs buf) (pendingRemovedIPs buf) (pendingPolicyUpdates buf) (pendingPolicyDeletes buf) (pendingProfileUpdates buf) (pendingProfileDeletes buf) (pendingEndpointUpdates buf) (pendingEndpointTierUpdates buf) (pendingEndpointDeletes buf) (pendingHostIPUpdates buf) (pendingHostIPDeletes buf) (pendingIPPoolUpdates buf) (pendingIPPoolDeletes buf) (pendingNotReady buf) (pendingGlobalConfig buf) (pendingHostConfig buf) (sentIPSets buf) v (sentProfiles buf) (sentEndpoints buf) (sentHostIPs buf) (sentIPPools buf).

Definition set_sentProfiles (v : gset ProfileRulesKey) (buf : EventSequencer) : EventSequencer :=
  mkEventSequencer (config buf) (pendingAddedIPSets buf) (pendingRemovedIPSets buf) (pendingAddedIPs buf) (pendingRemovedIPs buf) (pendingPolicyUpdates buf) (pendingPolicyDeletes buf) (pendingProfileUpdates buf) (pendingProfileDeletes buf) (pendingEndpointUpdates buf) (pendingEndpointTierUpdates buf) (pendingEndpointDeletes buf) (pendingHostIPUpdates buf) (pendingHostIPDeletes buf) (pendingIPPoolUpdates buf) (pendingIPPoolDeletes buf) (pendingNotReady buf) (pendingGlobalConfig buf) (pendingHostConfig buf) (sentIPSets buf) (sentPolicies buf) v (sentEndpoints buf) (sentHostIPs buf) (sentIPPools buf).

Definition set_sentEndpoints (v : gset Key) (buf : EventSequencer) : EventSequencer :=
  mkEventSequencer (config buf) (pendingAddedIPSets buf) (pendingRemovedIPSets buf) (pendingAddedIPs buf) (pendingRemovedIPs buf) (pendingPolicyUpdates buf) (pendingPolicyDeletes buf) (pendingProfileUpdates buf) (pendingProfileDeletes buf) (pendingEndpointUpdates buf) (pendingEndpointTierUpdates buf) (pendingEndpointDeletes buf) (pendingHostIPUpdates buf) (pendingHostIPDeletes buf) (pendingIPPoolUpdates buf) (pendingIPPoolDeletes buf) (pendingNotReady buf) (pendingGlobalConfig buf) (pendingHostConfig buf) (sentIPSets buf) (sentPolicies buf) (sentProfiles buf) v (sentHostIPs buf) (sentIPPools buf).

Definition set_sentHostIPs (v : gset string) (buf : EventSequencer) : EventSequencer :=
  mkEventSequencer (config buf) (pendingAddedIPSets buf) (pendingRemovedIPSets buf) (pendingAddedIPs buf) (pendingRemovedIPs buf) (pendingPolicyUpdates buf) (pendingPolicyDeletes buf) (pendingProfileUpdates buf) (pendingProfileDeletes buf) (pendingEndpointUpdates buf) (pendingEndpointTierUpdates buf) (pendingEndpointDeletes buf) (pendingHostIPUpdates buf) (pendingHostIPDeletes buf) (pendingIPPoolUpdates buf) (pendingIPPoolDeletes buf) (pendingNotReady buf) (pendingGlobalConfig buf) (pendingHostConfig buf) (sentIPSets buf) (sentPolicies buf) (sentProfiles buf) (sentEndpoints buf) v (sentIPPools buf).

Definition set_sentIPPools (v : gset CIDR) (buf : EventSequencer) : EventSequencer :=
  mkEventSequencer (config buf) (pendingAddedIPSets buf) (pendingRemovedIPSets buf) (pendingAddedIPs buf) (pendingRemovedIPs buf) (pendingPolicyUpdates buf) (pendingPolicyDeletes buf) (pendingProfileUpdates buf) (pendingProfileDeletes buf) (pendingEndpointUpdates buf) (pendingEndpointTierUpdates buf) (pendingEndpointDeletes buf) (pendingHostIPUpdates buf) (pendingHostIPDeletes buf) (pendingIPPoolUpdates buf) (pendingIPPoolDeletes buf) (pendingNotReady buf) (pendingGlobalConfig buf) (pendingHostConfig buf) (sentIPSets buf) (sentPolicies buf) (sentProfiles buf) (sentEndpoints buf) (sentHostIPs buf) v.

(** [NewEventBuffer]. *)
Definition NewEventBuffer (conf : Config) : EventSequencer :=
  {| config := conf;
     pendingAddedIPSets := ∅;
     pendingRemovedIPSets := ∅;
     pendingAddedIPs := ∅;
     pendingRemovedIPs := ∅;
     pendingPolicyUpdates := ∅;
     pendingPolicyDeletes := ∅;
     pendingProfileUpdates := ∅;
     pendingProfileDeletes := ∅;
     pendingEndpointUpdates := ∅;
     pendingEndpointTierUpdates := ∅;
     pendingEndpointDeletes := ∅;
     pendingHostIPUpdates := ∅;
     pendingHostIPDeletes := ∅;
     pendingIPPoolUpdates := ∅;
     pendingIPPoolDeletes := ∅;
     pendingNotReady := false;
     pendingGlobalConfig := None;
     pendingHostConfig := None;
     sentIPSets := ∅;
     sentPolicies := ∅;
     sentProfiles := ∅;
     sentEndpoints := ∅;
     sentHostIPs := ∅;
     sentIPPools := ∅ |}.

(** *** The multimap of pending IPs *)

(** Modelled from the spec: the [multidict] package is not among the
    sources; the spec calls [addedIPs] and [removedIPs] keyed multimaps
    from set id to IP.  A key is present exactly when it holds at least
    one value. *)
Definition multidict_Put (key : string) (value : Addr)
    (m : gmap string (gset Addr)) : gmap string (gset Addr) :=
  <[key := {[value]} ∪ default ∅ (m !! key)]> m.

(** Modelled from the spec: [multidict.StringToIface.Discard], which drops
    the key with its last value. *)
Definition multidict_Discard (key : string) (value : Addr)
    (m : gmap string (gset Addr)) : gmap string (gset Addr) :=
  match m !! key with
  | None => m
  | Some s =>
      let s' := s ∖ {[value]} in
      if decide (s' = ∅) then delete key m else <[key := s']> m
  end.

(** Modelled from the spec: [multidict.StringToIface.DiscardKey]. *)
Definition multidict_DiscardKey (key : string)
    (m : gmap string (gset Addr)) : gmap string (gset Addr) :=
  delete key m.

(** Modelled from the spec: [multidict.StringToIface.Contains]. *)
Definition multidict_Contains (key : string) (value : Addr)
    (m : gmap string (gset Addr)) : bool :=
  match m !! key with
  | None => false
  | Some s => bool_decide (value ∈ s)
  end.

(** Modelled from the spec: [multidict.StringToIface.IterKeys], the keys in
    the order the iteration visits them (Go leaves it unspecified). *)
Definition multidict_IterKeys (m : gmap string (gset Addr)) : list string :=
  elements (dom m).

(** Modelled from the spec: [multidict.StringToIface.Iter], the values of
    one key in the order the iteration visits them. *)
Definition multidict_Iter (key : string) (m : gmap string (gset Addr)) : list Addr :=
  elements (default ∅ (m !! key)).

(** *** IP set callbacks *)

Definition OnIPSetAdded (setID : string) (buf : EventSequencer) : Result EventSequencer :=
  if (bool_decide (setID ∈ sentIPSets buf)
      && negb (bool_decide (setID ∈ pendingRemovedIPSets buf)))%bool
  then Failed (LogPanic "OnIPSetAdded called for existing IP set")
  else
    let buf := set_pendingAddedIPSets ({[setID]} ∪ pendingAddedIPSets buf) buf in
    let buf := set_pendingRemovedIPSets (pendingRemovedIPSets buf ∖ {[setID]}) buf in
    let buf := set_pendingAddedIPs (multidict_DiscardKey setID (pendingAddedIPs buf)) buf in
    let buf := set_pendingRemovedIPs (multidict_DiscardKey setID (pendingRemovedIPs buf)) buf in
    Ok buf.

Definition OnIPSetRemoved (setID : string) (buf : EventSequencer) : Result EventSequencer :=
  if (negb (bool_decide (setID ∈ sentIPSets buf))
      && negb (bool_decide (setID ∈ pendingAddedIPSets buf)))%bool
  then Failed (LogPanic "IPSetRemoved called for unknown IP set")
  else
    let buf :=
      if bool_decide (setID ∈ sentIPSets buf)
      then set_pendingRemovedIPSets ({[setID]} ∪ pendingRemovedIPSets buf) buf
      else buf in
    let buf := set_pendingAddedIPSets (pendingAddedIPSets buf ∖ {[setID]}) buf in
    let buf := set_pendingAddedIPs (multidict_DiscardKey setID (pendingAddedIPs buf)) buf in
    let buf := set_pendingRemovedIPs (multidict_DiscardKey setID (pendingRemovedIPs buf)) buf in
    Ok buf.

Definition OnIPAdded (setID : string) (ip : Addr) (buf : EventSequencer) : Result EventSequencer :=
  if (negb (bool_decide (setID ∈ sentIPSets buf))
      && negb (bool_decide (setID ∈ pendingAddedIPSets buf)))%bool
  then Failed (LogPanic "IP added to unknown IP set")
  else if multidict_Contains setID ip (pendingRemovedIPs buf)
  then Ok (set_pendingRemovedIPs (multidict_Discard setID ip (pendingRemovedIPs buf)) buf)
  else Ok (set_pendingAddedIPs (multidict_Put setID ip (pendingAddedIPs buf)) buf).

Definition OnIPRemoved (setID : string) (ip : Addr) (buf : EventSequencer) : Result EventSequencer :=
  if (negb (bool_decide (setID ∈ sentIPSets buf))
      && negb (bool_decide (setID ∈ pendingAddedIPSets buf)))%bool
  then Failed (LogPanic "IP removed from unknown IP set")
  else if multidict_Contains setID ip (pendingAddedIPs buf)
  then Ok (set_pendingAddedIPs (multidict_Discard setID ip (pendingAddedIPs buf)) buf)
  else Ok (set_pendingRemovedIPs (multidict_Put setID ip (pendingRemovedIPs buf)) buf).

(** *** The other input callbacks; of these only [OnIPPoolUpdate] can fault *)

Definition OnDatastoreNotReady (buf : EventSequencer) : EventSequencer :=
  set_pendingNotReady true buf.

Definition OnConfigUpdate (globalConfig hostConfig : option (gmap string string))
    (buf : EventSequencer) : EventSequencer :=
  let buf := set_pendingGlobalConfig globalConfig buf in
  set_pendingHostConfig hostConfig buf.

Definition OnPolicyActive (key : PolicyKey) (rules : option ParsedRules)
    (buf : EventSequencer) : EventSequencer :=
  let buf := set_pendingPolicyDeletes (pendingPolicyDeletes buf ∖ {[key]}) buf in
  set_pendingPolicyUpdates (<[key := rules]> (pendingPolicyUpdates buf)) buf.

Definition OnPolicyInactive (key : PolicyKey) (buf : EventSequencer) : EventSequencer :=
  let buf := set_pendingPolicyUpdates (delete key (pendingPolicyUpdates buf)) buf in
  if bool_decide (key ∈ sentPolicies buf)
  then set_pendingPolicyDeletes ({[key]} ∪ pendingPolicyDeletes buf) buf
  else buf.

Definition OnProfileActive (key : ProfileRulesKey) (rules : option ParsedRules)
    (buf : EventSequencer) : EventSequencer :=
  let buf := set_pendingProfileDeletes (pendingProfileDeletes buf ∖ {[key]}) buf in
  set_pendingProfileUpdates (<[key := rules]> (pendingProfileUpdates buf)) buf.

Definition OnProfileInactive (key : ProfileRulesKey) (buf : EventSequencer) : EventSequencer :=
  let buf := set_pendingProfileUpdates (delete key (pendingProfileUpdates buf)) buf in
  if bool_decide (key ∈ sentProfiles buf)
  then set_pendingProfileDeletes ({[key]} ∪ pendingProfileDeletes buf) buf
  else buf.

(** [endpoint = None] is the nil interface value, a deletion. *)
Definition OnEndpointTierUpdate (key : Key) (endpoint : option EndpointValue)
    (filteredTiers : list tierInfo) (buf : EventSequencer) : EventSequencer :=
  match endpoint with
  | None =>
      let buf := set_pendingEndpointUpdates (delete key (pendingEndpointUpdates buf)) buf in
      let buf := set_pendingEndpointTierUpdates (delete key (pendingEndpointTierUpdates buf)) buf in
      if bool_decide (key ∈ sentEndpoints buf)
      then set_pendingEndpointDeletes ({[key]} ∪ pendingEndpointDeletes buf) buf
      else buf
  | Some ep =>
      let buf := set_pendingEndpointDeletes (pendingEndpointDeletes buf ∖ {[key]}) buf in
      let buf := set_pendingEndpointUpdates (<[key := ep]> (pendingEndpointUpdates buf)) buf in
      set_pendingEndpointTierUpdates (<[key := filteredTiers]> (pendingEndpointTierUpdates buf)) buf
  end.

Definition OnHostIPUpdate (hostname : string) (ip : option NetIP)
    (buf : EventSequencer) : EventSequencer :=
  let buf := set_pendingHostIPDeletes (pendingHostIPDeletes buf ∖ {[hostname]}) buf in
  set_pendingHostIPUpdates (<[hostname := ip]> (pendingHostIPUpdates buf)) buf.

Definition OnHostIPRemove (hostname : string) (buf : EventSequencer) : EventSequencer :=
  let buf := set_pendingHostIPUpdates (delete hostname (pendingHostIPUpdates buf)) buf in
  if bool_decide (hostname ∈ sentHostIPs buf)
  then set_pendingHostIPDeletes ({[hostname]} ∪ pendingHostIPDeletes buf) buf
  else buf.

(** The discard is handed [key], the [model.IPPoolKey], not [cidr].
    [Discard] is [delete] on a Go map keyed by [interface{}], and a
    [model.IPPoolKey] cannot be hashed: on a set that is not empty the
    [delete] panics ("hash of unhashable type"); on an empty set the
    runtime of Go 1.7, which the repository builds with, returns before
    it hashes the key. *)
Definition OnIPPoolUpdate (key : IPPoolKey) (pool : option IPPool)
    (buf : EventSequencer) : Result EventSequencer :=
  if decide (pendingIPPoolDeletes buf = ∅) then
    let cidr := CIDRFromCalicoNet (IPPoolKey_CIDR key) in
    Ok (set_pendingIPPoolUpdates (<[cidr := pool]> (pendingIPPoolUpdates buf)) buf)
  else Failed UnhashableKey.

Definition OnIPPoolRemove (key : IPPoolKey) (buf : EventSequencer) : EventSequencer :=
  let cidr := CIDRFromCalicoNet (IPPoolKey_CIDR key) in
  let buf := set_pendingIPPoolUpdates (delete cidr (pendingIPPoolUpdates buf)) buf in
  if bool_decide (cidr ∈ sentIPPools buf)
  then set_pendingIPPoolDeletes ({[ItemCIDR cidr]} ∪ pendingIPPoolDeletes buf) buf
  else buf.

(** *** Conversions to the wire format *)

(** [strings.Replace(s, "/", "-", 1)]: the first slash becomes a dash. *)
Fixpoint replace_first_slash (s : string) : string :=
  match s with
  | EmptyString => EmptyString
  | String c s' =>
      if Ascii.eqb c "/"%char then String "-"%char s'
      else String c (replace_first_slash s')
  end.

Definition cidrToIPPoolID (cidr : CIDR) : string :=
  replace_first_slash (CIDR_String cidr).

Definition netsToStrings (nets : list IPNet) : list string :=
  map IPNet_String nets.

Definition ipsToStrings (ips : list NetIP) : list string :=
  map NetIP_String ips.

Definition natsToProtoNatInfo (nats : list IPNAT) : list NatInfo :=
  map (fun nat => {| NatInfo_ExtIp := NetIP_String (ExtIP nat);
                     NatInfo_IntIp := NetIP_String (IntIP nat) |}) nats.

(** The inner loop of [tierInfoToProtoTierInfo]: one pass over the ordered
    policies of a tier, appending each name to one of the two slices. *)
Definition splitPolicies (pols : list PolKV) : list string * list string :=
  fold_left
    (fun (acc : list string * list string) (pol : PolKV) =>
       let '(trackedPols, untrackedPols) := acc in
       if Policy_DoNotTrack (PolKV_Value pol)
       then (trackedPols, untrackedPols ++ [PolicyKey_Name (PolKV_Key pol)])
       else (trackedPols ++ [PolicyKey_Name (PolKV_Key pol)], untrackedPols))
    pols ([], []).

Definition tierInfoToProtoTierInfo (filteredTiers : list tierInfo)
    : list ProtoTierInfo * list ProtoTierInfo :=
  fold_left
    (fun (acc : list ProtoTierInfo * list ProtoTierInfo) (ti : tierInfo) =>
       let '(trackedTiers, untrackedTiers) := acc in
       let '(trackedPols, untrackedPols) := splitPolicies (tierInfo_OrderedPolicies ti) in
       let trackedTiers :=
         if Nat.ltb 0 (length trackedPols)
         then trackedTiers ++ [{| ProtoTierInfo_Name := tierInfo_Name ti;
                                  ProtoTierInfo_Policies := trackedPols |}]
         else trackedTiers in
       let untrackedTiers :=
         if Nat.ltb 0 (length untrackedPols)
         then untrackedTiers ++ [{| ProtoTierInfo_Name := tierInfo_Name ti;
                                    ProtoTierInfo_Policies := untrackedPols |}]
         else untrackedTiers in
       (trackedTiers, untrackedTiers))
    filteredTiers ([], []).

Definition ModelWorkloadEndpointToProto (ep : WorkloadEndpoint) (tiers : list ProtoTierInfo)
    : ProtoWorkloadEndpoint :=
  let mac := match wep_Mac ep with
             | Some m => MAC_String m
             | None => ""
             end in
  {| pwep_State := wep_State ep;
     pwep_Name := wep_Name ep;
     pwep_Mac := mac;
     pwep_ProfileIds := wep_ProfileIDs ep;
     pwep_Ipv4Nets := netsToStrings (wep_IPv4Nets ep);
     pwep_Ipv6Nets := netsToStrings (wep_IPv6Nets ep);
     pwep_Tiers := tiers;
     pwep_Ipv4Nat := natsToProtoNatInfo (wep_IPv4NAT ep);
     pwep_Ipv6Nat := natsToProtoNatInfo (wep_IPv6NAT ep) |}.

Definition ModelHostEndpointToProto (ep : HostEndpoint) (tiers untrackedTiers : list ProtoTierInfo)
    : ProtoHostEndpoint :=
  {| phep_Name := hep_Name ep;
     phep_ExpectedIpv4Addrs := ipsToStrings (hep_ExpectedIPv4Addrs ep);
     phep_ExpectedIpv6Addrs := ipsToStrings (hep_ExpectedIPv6Addrs ep);
     phep_ProfileIds := hep_ProfileIDs ep;
     phep_Tiers := tiers;
     phep_UntrackedTiers := untrackedTiers |}.

(** *** Running a flush *)

(** A (partial) run of [Flush]: the state reached, the messages handed to
    [Callback] so far, oldest first, and the fault that stopped the run. *)
Record FlushRun : Type := mkFlushRun {
  run_state : EventSequencer;
  run_out : list Message;
  run_fault : option Fault;
}.

Definition done (buf : EventSequencer) : FlushRun :=
  {| run_state := buf; run_out := []; run_fault := None |}.

Definition emit (m : Message) (buf : EventSequencer) : FlushRun :=
  {| run_state := buf; run_out := [m]; run_fault := None |}.

Definition fault (f : Fault) (buf : EventSequencer) : FlushRun :=
  {| run_state := buf; run_out := []; run_fault := Some f |}.

(** Sequencing: a faulted run stays as it is. *)
Definition andThen (r : FlushRun) (step : EventSequencer -> FlushRun) : FlushRun :=
  match run_fault r with
  | Some _ => r
  | None =>
      let r' := step (run_state r) in
      {| run_state := run_state r';
         run_out := run_out r ++ run_out r';
         run_fault := run_fault r' |}
  end.

(** A Go [range] loop (or [Iter]) over the items that were in the
    collection when the loop started; every loop of the sequencer removes
    at most the item it is visiting. *)
Fixpoint forEach {X : Type} (body : X -> EventSequencer -> FlushRun)
    (items : list X) (buf : EventSequencer) : FlushRun :=
  match items with
  | [] => done buf
  | x :: rest => andThen (body x buf) (forEach body rest)
  end.

Definition flushReadyFlag (buf : EventSequencer) : FlushRun :=
  if negb (pendingNotReady buf) then done buf
  else emit DatastoreNotReady (set_pendingNotReady false buf).

Definition flushConfigUpdate (buf : EventSequencer) : FlushRun :=
  match pendingGlobalConfig buf with
  | None => done buf
  | Some _ =>
      let '(conf, globalChanged, err) :=
        Config_UpdateFrom (config buf) (pendingGlobalConfig buf) DatastoreGlobal in
      let buf := set_config conf buf in
      match err with
      | Some _ => fault (LogFatal "Failed to parse config update") buf
      | None =>
          let '(conf, hostChanged, err) :=
            Config_UpdateFrom (config buf) (pendingHostConfig buf) DatastorePerHost in
          let buf := set_config conf buf in
          match err with
          | Some _ => fault (LogFatal "Failed to parse config update") buf
          | None =>
              let out :=
                if (globalChanged || hostChanged)%bool
                then [ConfigUpdate (Config_RawValues (config buf))]
                else [] in
              let buf := set_pendingGlobalConfig None buf in
              let buf := set_pendingHostConfig None buf in
              {| run_state := buf; run_out := out; run_fault := None |}
          end
      end
  end.

Definition flushAddedIPSet (setID : string) (buf : EventSequencer) : FlushRun :=
  let members := map Addr_String (multidict_Iter setID (pendingAddedIPs buf)) in
  let buf := set_pendingAddedIPs (multidict_DiscardKey setID (pendingAddedIPs buf)) buf in
  let buf' := set_sentIPSets ({[setID]} ∪ sentIPSets buf) buf in
  emit (IPSetUpdate setID members)
       (set_pendingAddedIPSets (pendingAddedIPSets buf' ∖ {[setID]}) buf').

Definition flushAddedIPSets (buf : EventSequencer) : FlushRun :=
  forEach flushAddedIPSet (elements (pendingAddedIPSets buf)) buf.

Definition flushAddsOrRemoves (setID : string) (buf : EventSequencer) : FlushRun :=
  let AddedMembers := map Addr_String (multidict_Iter setID (pendingAddedIPs buf)) in
  let RemovedMembers := map Addr_String (multidict_Iter setID (pendingRemovedIPs buf)) in
  let buf := set_pendingAddedIPs (multidict_DiscardKey setID (pendingAddedIPs buf)) buf in
  let buf := set_pendingRemovedIPs (multidict_DiscardKey setID (pendingRemovedIPs buf)) buf in
  emit (IPSetDeltaUpdate setID AddedMembers RemovedMembers) buf.

Definition flushIPSetDeltas (buf : EventSequencer) : FlushRun :=
  andThen
    (forEach flushAddsOrRemoves (multidict_IterKeys (pendingRemovedIPs buf)) buf)
    (fun buf => forEach flushAddsOrRemoves (multidict_IterKeys (pendingAddedIPs buf)) buf).

Definition flushPolicyUpdate (kv : PolicyKey * option ParsedRules) (buf : EventSequencer) : FlushRun :=
  let '(key, rulesOrNil) := kv in
  match rulesOrNil with
  | None => fault NilDereference buf
  | Some rules =>
      let msg :=
        ActivePolicyUpdate
          {| PolicyID_Tier := "default"; PolicyID_Name := PolicyKey_Name key |}
          {| ProtoPolicy_InboundRules :=
               parsedRulesToProtoRules (InboundRules rules)
                 (String.append "pol-in-default/" (PolicyKey_Name key));
             ProtoPolicy_OutboundRules :=
               parsedRulesToProtoRules (OutboundRules rules)
                 (String.append "pol-out-default/" (PolicyKey_Name key));
             ProtoPolicy_Untracked := Untracked rules |} in
      let buf := set_sentPolicies ({[key]} ∪ sentPolicies buf) buf in
      emit msg (set_pendingPolicyUpdates (delete key (pendingPolicyUpdates buf)) buf)
  end.

Definition flushPolicyUpdates (buf : EventSequencer) : FlushRun :=
  forEach flushPolicyUpdate (map_to_list (pendingPolicyUpdates buf)) buf.

Definition flushPolicyDelete (item : PolicyKey) (buf : EventSequencer) : FlushRun :=
  let msg := ActivePolicyRemove
               {| PolicyID_Tier := "default"; PolicyID_Name := PolicyKey_Name item |} in
  let buf := set_sentPolicies (sentPolicies buf ∖ {[item]}) buf in
  emit msg (set_pendingPolicyDeletes (pendingPolicyDeletes buf ∖ {[item]}) buf).

Definition flushPolicyDeletes (buf : EventSequencer) : FlushRun :=
  forEach flushPolicyDelete (elements (pendingPolicyDeletes buf)) buf.

Definition flushProfileUpdate (kv : ProfileRulesKey * option ParsedRules) (buf : EventSequencer)
    : FlushRun :=
  let '(key, rulesOrNil) := kv in
  match rulesOrNil with
  | None => fault NilDereference buf
  | Some rules =>
      let msg :=
        ActiveProfileUpdate (ProfileRulesKey_Name key)
          {| ProtoProfile_InboundRules :=
               parsedRulesToProtoRules (InboundRules rules)
                 (String.append "prof-in-" (ProfileRulesKey_Name key));
             ProtoProfile_OutboundRules :=
               parsedRulesToProtoRules (OutboundRules rules)
                 (String.append "prof-out-" (ProfileRulesKey_Name key)) |} in
      let buf := set_sentProfiles ({[key]} ∪ sentProfiles buf) buf in
      emit msg (set_pendingProfileUpdates (delete key (pendingProfileUpdates buf)) buf)
  end.

Definition flushProfileUpdates (buf : EventSequencer) : FlushRun :=
  forEach flushProfileUpdate (map_to_list (pendingProfileUpdates buf)) buf.

Definition flushProfileDelete (item : ProfileRulesKey) (buf : EventSequencer) : FlushRun :=
  let msg := ActiveProfileRemove (ProfileRulesKey_Name item) in
  let buf := set_sentProfiles (sentProfiles buf ∖ {[item]}) buf in
  emit msg (set_pendingProfileDeletes (pendingProfileDeletes buf ∖ {[item]}) buf).

Definition flushProfileDeletes (buf : EventSequencer) : FlushRun :=
  forEach flushProfileDelete (elements (pendingProfileDeletes buf)) buf.

(** The end of the loop body of [flushEndpointTierUpdates]. *)
Definition recordEndpointSent (key : Key) (buf : EventSequencer) : EventSequencer :=
  let buf := set_sentEndpoints ({[key]} ∪ sentEndpoints buf) buf in
  let buf := set_pendingEndpointUpdates (delete key (pendingEndpointUpdates buf)) buf in
  set_pendingEndpointTierUpdates (delete key (pendingEndpointTierUpdates buf)) buf.

Definition flushEndpointTierUpdate (kv : Key * EndpointValue) (buf : EventSequencer) : FlushRun :=
  let '(key, endpoint) := kv in
  let '(tiers, untrackedTiers) :=
    tierInfoToProtoTierInfo (default [] (pendingEndpointTierUpdates buf !! key)) in
  match key with
  | WorkloadEndpointKey _ orch wl ep =>
      match endpoint with
      | WorkloadEndpointPtr (Some wlep) =>
          emit (WorkloadEndpointUpdate
                  {| wid_OrchestratorId := orch; wid_WorkloadId := wl; wid_EndpointId := ep |}
                  (ModelWorkloadEndpointToProto wlep tiers))
               (recordEndpointSent key buf)
      | WorkloadEndpointPtr None => fault NilDereference buf
      | HostEndpointPtr _ => fault TypeAssertion buf
      end
  | HostEndpointKey _ ep =>
      match endpoint with
      | HostEndpointPtr (Some hep) =>
          emit (HostEndpointUpdate
                  {| hid_EndpointId := ep |}
                  (ModelHostEndpointToProto hep tiers untrackedTiers))
               (recordEndpointSent key buf)
      | HostEndpointPtr None => fault NilDereference buf
      | WorkloadEndpointPtr _ => fault TypeAssertion buf
      end
  | OtherKey _ _ => done (recordEndpointSent key buf)
  end.

Definition flushEndpointTierUpdates (buf : EventSequencer) : FlushRun :=
  forEach flushEndpointTierUpdate (map_to_list (pendingEndpointUpdates buf)) buf.

Definition flushEndpointTierDelete (item : Key) (buf : EventSequencer) : FlushRun :=
  let buf' := set_sentEndpoints (sentEndpoints buf ∖ {[item]}) buf in
  let buf' := set_pendingEndpointDeletes (pendingEndpointDeletes buf' ∖ {[item]}) buf' in
  match item with
  | WorkloadEndpointKey _ orch wl ep =>
      emit (WorkloadEndpointRemove
              {| wid_OrchestratorId := orch; wid_WorkloadId := wl; wid_EndpointId := ep |}) buf'
  | HostEndpointKey _ ep =>
      emit (HostEndpointRemove {| hid_EndpointId := ep |}) buf'
  | OtherKey _ _ => done buf'
  end.

Definition flushEndpointTierDeletes (buf : EventSequencer) : FlushRun :=
  forEach flushEndpointTierDelete (elements (pendingEndpointDeletes buf)) buf.

Definition flushHostIPUpdate (kv : string * option NetIP) (buf : EventSequencer) : FlushRun :=
  let '(hostname, hostIP) := kv in
  match hostIP with
  | None => fault NilDereference buf
  | Some ip =>
      let buf' := set_sentHostIPs ({[hostname]} ∪ sentHostIPs buf) buf in
      emit (HostMetadataUpdate hostname (NetIP_String ip))
           (set_pendingHostIPUpdates (delete hostname (pendingHostIPUpdates buf')) buf')
  end.

Definition flushHostIPUpdates (buf : EventSequencer) : FlushRun :=
  forEach flushHostIPUpdate (map_to_list (pendingHostIPUpdates buf)) buf.

Definition flushHostIPDelete (item : string) (buf : EventSequencer) : FlushRun :=
  let buf' := set_sentHostIPs (sentHostIPs buf ∖ {[item]}) buf in
  emit (HostMetadataRemove item)
       (set_pendingHostIPDeletes (pendingHostIPDeletes buf' ∖ {[item]}) buf').

Definition flushHostIPDeletes (buf : EventSequencer) : FlushRun :=
  forEach flushHostIPDelete (elements (pendingHostIPDeletes buf)) buf.

Definition flushIPPoolUpdate (kv : CIDR * option IPPool) (buf : EventSequencer) : FlushRun :=
  let '(key, pool) := kv in
  match pool with
  | None => fault NilDereference buf
  | Some pool =>
      let buf' := set_sentIPPools ({[key]} ∪ sentIPPools buf) buf in
      emit (IPAMPoolUpdate (cidrToIPPoolID key)
              {| IPAMPool_Cidr := IPNet_String (IPPool_CIDR pool);
                 IPAMPool_Masquerade := IPPool_Masquerade pool |})
           (set_pendingIPPoolUpdates (delete key (pendingIPPoolUpdates buf')) buf')
  end.

Definition flushIPPoolUpdates (buf : EventSequencer) : FlushRun :=
  forEach flushIPPoolUpdate (map_to_list (pendingIPPoolUpdates buf)) buf.

Definition flushIPPoolDelete (item : IPPoolItem) (buf : EventSequencer) : FlushRun :=
  match item with
  | ItemIPPoolKey _ => fault TypeAssertion buf
  | ItemCIDR key =>
      let buf' := set_sentIPPools (sentIPPools buf ∖ {[key]}) buf in
      emit (IPAMPoolRemove (cidrToIPPoolID key))
           (set_pendingIPPoolDeletes (pendingIPPoolDeletes buf' ∖ {[item]}) buf')
  end.

Definition flushIPPoolDeletes (buf : EventSequencer) : FlushRun :=
  forEach flushIPPoolDelete (elements (pendingIPPoolDeletes buf)) buf.

Definition flushRemovedIPSet (item : string) (buf : EventSequencer) : FlushRun :=
  let buf' := set_pendingRemovedIPs (multidict_DiscardKey item (pendingRemovedIPs buf)) buf in
  let buf' := set_pendingAddedIPs (multidict_DiscardKey item (pendingAddedIPs buf')) buf' in
  let buf' := set_pendingRemovedIPSets (pendingRemovedIPSets buf' ∖ {[item]}) buf' in
  emit (IPSetRemove item) (set_sentIPSets (sentIPSets buf' ∖ {[item]}) buf').

Definition flushRemovedIPSets (buf : EventSequencer) : FlushRun :=
  forEach flushRemovedIPSet (elements (pendingRemovedIPSets buf)) buf.

(** The steps of [Flush], in the order of its statements. *)
Definition flushSteps : list (EventSequencer -> FlushRun) :=
  [ flushReadyFlag; flushConfigUpdate;
    flushAddedIPSets; flushIPSetDeltas; flushPolicyUpdates; flushProfileUpdates;
    flushEndpointTierUpdates;
    flushEndpointTierDeletes; flushProfileDeletes; flushPolicyDeletes; flushRemovedIPSets;
    flushHostIPDeletes; flushHostIPUpdates; flushIPPoolDeletes; flushIPPoolUpdates ].

Definition runSteps (steps : list (EventSequencer -> FlushRun)) (buf : EventSequencer) : FlushRun :=
  fold_left andThen steps (done buf).

Definition Flush (buf : EventSequencer) : FlushRun :=
  runSteps flushSteps buf.

(** *** Histories of a sequencer *)

(** One call on the sequencer, by the calculation graph or by the owner
    of the flush. *)
Inductive Call : Type :=
  | CallOnIPSetAdded (setID : string)
  | CallOnIPSetRemoved (setID : string)
  | CallOnIPAdded (setID : string) (ip : Addr)
  | CallOnIPRemoved (setID : string) (ip : Addr)
  | CallOnDatastoreNotReady
  | CallOnConfigUpdate (globalConfig hostConfig : option (gmap string string))
  | CallOnPolicyActive (key : PolicyKey) (rules : option ParsedRules)
  | CallOnPolicyInactive (key : PolicyKey)
  | CallOnProfileActive (key : ProfileRulesKey) (rules : option ParsedRules)
  | CallOnProfileInactive (key : ProfileRulesKey)
  | CallOnEndpointTierUpdate (key : Key) (endpoint : option EndpointValue)
      (filteredTiers : list tierInfo)
  | CallOnHostIPUpdate (hostname : string) (ip : option NetIP)
  | CallOnHostIPRemove (hostname : string)
  | CallOnIPPoolUpdate (key : IPPoolKey) (pool : option IPPool)
  | CallOnIPPoolRemove (key : IPPoolKey)
  | CallFlush.

(** The state a call returns in, or the fault that ended the process. *)
Definition perform (c : Call) (buf : EventSequencer) : Result EventSequencer :=
  match c with
  | CallOnIPSetAdded setID => OnIPSetAdded setID buf
  | CallOnIPSetRemoved setID => OnIPSetRemoved setID buf
  | CallOnIPAdded setID ip => OnIPAdded setID ip buf
  | CallOnIPRemoved setID ip => OnIPRemoved setID ip buf
  | CallOnDatastoreNotReady => Ok (OnDatastoreNotReady buf)
  | CallOnConfigUpdate g h => Ok (OnConfigUpdate g h buf)
  | CallOnPolicyActive key rules => Ok (OnPolicyActive key rules buf)
  | CallOnPolicyInactive key => Ok (OnPolicyInactive key buf)
  | CallOnProfileActive key rules => Ok (OnProfileActive key rules buf)
  | CallOnProfileInactive key => Ok (OnProfileInactive key buf)
  | CallOnEndpointTierUpdate key endpoint tiers => Ok (OnEndpointTierUpdate key endpoint tiers buf)
  | CallOnHostIPUpdate hostname ip => Ok (OnHostIPUpdate hostname ip buf)
  | CallOnHostIPRemove hostname => Ok (OnHostIPRemove hostname buf)
  | CallOnIPPoolUpdate key pool => OnIPPoolUpdate key pool buf
  | CallOnIPPoolRemove key => Ok (OnIPPoolRemove key buf)
  | CallFlush =>
      let r := Flush buf in
      match run_fault r with
      | None => Ok (run_state r)
      | Some f => Failed f
      end
  end.

(** The states a sequencer can be in between two calls: those that a
    sequence of calls, each of which returned, leads to from a new buffer. *)
Inductive reachable : EventSequencer -> Prop :=
  | reachable_new (conf : Config) : reachable (NewEventBuffer conf)
  | reachable_call (c : Call) (buf buf' : EventSequencer) :
      reachable buf -> perform c buf = Ok buf' -> reachable buf'.

(** [OnIPAdded] for each address of a list, in order. *)
Fixpoint addMembers (setID : string) (ips : list Addr) (buf : EventSequencer)
    : Result EventSequencer :=
  match ips with
  | [] => Ok buf
  | ip :: rest =>
      match OnIPAdded setID ip buf with
      | Ok buf' => addMembers setID rest buf'
      | Failed f => Failed f
      end
  end.

(** *** Reading messages *)

(** The statement of [Flush] that hands out a message of this kind,
    counted from 1. *)
Definition stage (m : Message) : nat :=
  match m with
  | DatastoreNotReady => 1
  | ConfigUpdate _ => 2
  | IPSetUpdate _ _ => 3
  | IPSetDeltaUpdate _ _ _ => 4
  | ActivePolicyUpdate _ _ => 5
  | ActiveProfileUpdate _ _ => 6
  | WorkloadEndpointUpdate _ _ | HostEndpointUpdate _ _ => 7
  | WorkloadEndpointRemove _ | HostEndpointRemove _ => 8
  | ActiveProfileRemove _ => 9
  | ActivePolicyRemove _ => 10
  | IPSetRemove _ => 11
  | HostMetadataRemove _ => 12
  | HostMetadataUpdate _ _ => 13
  | IPAMPoolRemove _ => 14
  | IPAMPoolUpdate _ _ => 15
  end.

(** The item of the specification's flush ordering, 1 to 13, that a
    message belongs to. *)
Definition orderingItem (m : Message) : nat :=
  match m with
  | DatastoreNotReady => 1
  | ConfigUpdate _ => 2
  | IPSetUpdate _ _ => 3
  | IPSetDeltaUpdate _ _ _ => 4
  | ActivePolicyUpdate _ _ => 5
  | ActiveProfileUpdate _ _ => 6
  | WorkloadEndpointUpdate _ _ | HostEndpointUpdate _ _ => 7
  | WorkloadEndpointRemove _ | HostEndpointRemove _ => 8
  | ActiveProfileRemove _ => 9
  | ActivePolicyRemove _ => 10
  | IPSetRemove _ => 11
  | HostMetadataRemove _ | HostMetadataUpdate _ _ => 12
  | IPAMPoolRemove _ | IPAMPoolUpdate _ _ => 13
  end.

(** The IP set a message is about. *)
Definition ipSetOf (m : Message) : option string :=
  match m with
  | IPSetUpdate Id _ => Some Id
  | IPSetDeltaUpdate Id _ _ => Some Id
  | IPSetRemove Id => Some Id
  | _ => None
  end.

(** The endpoint identifiers of the wire format; the host name of a key
    is not part of them. *)
Inductive EndpointID : Type :=
  | WorkloadID (id : WorkloadEndpointID)
  | HostID (id : HostEndpointID).

(** The identifier [Flush] puts in the messages about a key. *)
Definition endpointIDOfKey (k : Key) : option EndpointID :=
  match k with
  | WorkloadEndpointKey _ orch wl ep =>
      Some (WorkloadID {| wid_OrchestratorId := orch; wid_WorkloadId := wl; wid_EndpointId := ep |})
  | HostEndpointKey _ ep => Some (HostID {| hid_EndpointId := ep |})
  | OtherKey _ _ => None
  end.

(** The endpoint a message is about. *)
Definition endpointOf (m : Message) : option EndpointID :=
  match m with
  | WorkloadEndpointUpdate Id _ => Some (WorkloadID Id)
  | WorkloadEndpointRemove Id => Some (WorkloadID Id)
  | HostEndpointUpdate Id _ => Some (HostID Id)
  | HostEndpointRemove Id => Some (HostID Id)
  | _ => None
  end.

(** The tier lists an endpoint update carries.  [proto.WorkloadEndpoint]
    has no field for untracked tiers. *)
Definition tiersOf (m : Message) : option (list ProtoTierInfo) :=
  match m with
  | WorkloadEndpointUpdate _ ep => Some (pwep_Tiers ep)
  | HostEndpointUpdate _ ep => Some (phep_Tiers ep)
  | _ => None
  end.

Definition untrackedTiersOf (m : Message) : option (list ProtoTierInfo) :=
  match m with
  | HostEndpointUpdate _ ep => Some (phep_UntrackedTiers ep)
  | _ => None
  end.

Definition isIPSetUpdateFor (setID : string) (m : Message) : bool :=
  match m with
  | IPSetUpdate Id _ => bool_decide (Id = setID)
  | _ => false
  end.

Definition isIPSetDeltaUpdateFor (setID : string) (m : Message) : bool :=
  match m with
  | IPSetDeltaUpdate Id _ _ => bool_decide (Id = setID)
  | _ => false
  end.

Definition isIPSetRemoveFor (setID : string) (m : Message) : bool :=
  match m with
  | IPSetRemove Id => bool_decide (Id = setID)
  | _ => false
  end.

(** *** The split of a tier by the do-not-track flag, as a specification *)

Definition trackedNames (pols : list PolKV) : list string :=
  map (fun pol => PolicyKey_Name (PolKV_Key pol))
      (filter (fun pol => Policy_DoNotTrack (PolKV_Value pol) = false) pols).

Definition untrackedNames (pols : list PolKV) : list string :=
  map (fun pol => PolicyKey_Name (PolKV_Key pol))
      (filter (fun pol => Policy_DoNotTrack (PolKV_Value pol) = true) pols).

(** One [TierInfo] per tier whose list of names is not empty. *)
Definition tiersWith (names : list PolKV -> list string) (tiers : list tierInfo)
    : list ProtoTierInfo :=
  omap (fun ti =>
          match names (tierInfo_OrderedPolicies ti) with
          | [] => None
          | pols => Some {| ProtoTierInfo_Name := tierInfo_Name ti;
                            ProtoTierInfo_Policies := pols |}
          end) tiers.

(** *** Invariants of the pending state *)

(** Nothing is pending both as an add or update and as a delete. *)
Record PendingDisjoint (buf : EventSequencer) : Prop := {
  disjoint_ipsets : pendingAddedIPSets buf ## pendingRemovedIPSets buf;
  disjoint_ips : forall setID ip,
    multidict_Contains setID ip (pendingAddedIPs buf) = true ->
    multidict_Contains setID ip (pendingRemovedIPs buf) = true -> False;
  disjoint_policies : dom (pendingPolicyUpdates buf) ## pendingPolicyDeletes buf;
  disjoint_profiles : dom (pendingProfileUpdates buf) ## pendingProfileDeletes buf;
  disjoint_endpoints : dom (pendingEndpointUpdates buf) ## pendingEndpointDeletes buf;
  disjoint_endpoint_tiers : dom (pendingEndpointTierUpdates buf) ## pendingEndpointDeletes buf;
  disjoint_hostips : dom (pendingHostIPUpdates buf) ## pendingHostIPDeletes buf;
}.

(** The same for IP pools. *)
Definition PoolsDisjoint (buf : EventSequencer) : Prop :=
  forall cidr, cidr ∈ dom (pendingIPPoolUpdates buf) -> ItemCIDR cidr ∉ pendingIPPoolDeletes buf.

(** Every pending delete is of something that was sent. *)
Record DeletesSent (buf : EventSequencer) : Prop := {
  sent_ipsets : pendingRemovedIPSets buf ⊆ sentIPSets buf;
  sent_policies : pendingPolicyDeletes buf ⊆ sentPolicies buf;
  sent_profiles : pendingProfileDeletes buf ⊆ sentProfiles buf;
  sent_endpoints : pendingEndpointDeletes buf ⊆ sentEndpoints buf;
  sent_hostips : pendingHostIPDeletes buf ⊆ sentHostIPs buf;
  sent_ippools : forall item, item ∈ pendingIPPoolDeletes buf ->
    exists cidr, item = ItemCIDR cidr /\ cidr ∈ sentIPPools buf;
}.

(** The sets that have pending IP adds or removes are sent or pending as
    an add: the callbacks that queue IPs panic on any other set. *)
Definition IPKeysKnown (buf : EventSequencer) : Prop :=
  dom (pendingAddedIPs buf) ∪ dom (pendingRemovedIPs buf)
    ⊆ sentIPSets buf ∪ pendingAddedIPSets buf.

(** The invariant on the buffers that hold whole items (IP sets,
    policies, profiles, endpoints, host IPs, IP pools) and on the pairs
    of a set and an IP. *)
Definition PendingInvariant (buf : EventSequencer) : Prop :=
  PendingDisjoint buf /\ PoolsDisjoint buf /\ DeletesSent buf.

(** [b'] has nothing pending that [b] has not: the way a flush moves. *)
Record shrinks (b b' : EventSequencer) : Prop := {
  shr_addedIPSets : pendingAddedIPSets b' ⊆ pendingAddedIPSets b;
  shr_removedIPSets : pendingRemovedIPSets b' ⊆ pendingRemovedIPSets b;
  shr_addedIPs : dom (pendingAddedIPs b') ⊆ dom (pendingAddedIPs b);
  shr_removedIPs : dom (pendingRemovedIPs b') ⊆ dom (pendingRemovedIPs b);
  shr_policyUpdates : dom (pendingPolicyUpdates b') ⊆ dom (pendingPolicyUpdates b);
  shr_policyDeletes : pendingPolicyDeletes b' ⊆ pendingPolicyDeletes b;
  shr_profileUpdates : dom (pendingProfileUpdates b') ⊆ dom (pendingProfileUpdates b);
  shr_profileDeletes : pendingProfileDeletes b' ⊆ pendingProfileDeletes b;
  shr_endpointUpdates : dom (pendingEndpointUpdates b') ⊆ dom (pendingEndpointUpdates b);
  shr_endpointDeletes : pendingEndpointDeletes b' ⊆ pendingEndpointDeletes b;
  shr_hostIPUpdates : dom (pendingHostIPUpdates b') ⊆ dom (pendingHostIPUpdates b);
  shr_hostIPDeletes : pendingHostIPDeletes b' ⊆ pendingHostIPDeletes b;
  shr_ipPoolUpdates : dom (pendingIPPoolUpdates b') ⊆ dom (pendingIPPoolUpdates b);
  shr_ipPoolDeletes : pendingIPPoolDeletes b' ⊆ pendingIPPoolDeletes b;
  shr_notReady : pendingNotReady b' = true -> pendingNotReady b = true;
  shr_globalConfig : pendingGlobalConfig b = None -> pendingGlobalConfig b' = None;
}.

(** Nothing is left for a flush to hand out. *)
Record Drained (b : EventSequencer) : Prop := {
  dr_addedIPSets : pendingAddedIPSets b = ∅;
  dr_removedIPSets : pendingRemovedIPSets b = ∅;
  dr_addedIPs : pendingAddedIPs b = ∅;
  dr_removedIPs : pendingRemovedIPs b = ∅;
  dr_policyUpdates : pendingPolicyUpdates b = ∅;
  dr_policyDeletes : pendingPolicyDeletes b = ∅;
  dr_profileUpdates : pendingProfileUpdates b = ∅;
  dr_profileDeletes : pendingProfileDeletes b = ∅;
  dr_endpointUpdates : pendingEndpointUpdates b = ∅;
  dr_endpointDeletes : pendingEndpointDeletes b = ∅;
  dr_hostIPUpdates : pendingHostIPUpdates b = ∅;
  dr_hostIPDeletes : pendingHostIPDeletes b = ∅;
  dr_ipPoolUpdates : pendingIPPoolUpdates b = ∅;
  dr_ipPoolDeletes : pendingIPPoolDeletes b = ∅;
  dr_notReady : pendingNotReady b = false;
  dr_globalConfig : pendingGlobalConfig b = None;
}.

(** A sequence of calls, from left to right; a call that faults ends the
    process, so nothing after it changes the state. *)
Fixpoint runCalls (calls : list Call) (buf : EventSequencer) : EventSequencer :=
  match calls with
  | [] => buf
  | c :: rest =>
      match perform c buf with
      | Ok buf' => runCalls rest buf'
      | Failed _ => buf
      end
  end.

(** The tier lists of the endpoint updates of a flush, as the
    specification's sentence on tracked and untracked policies has them:
    every endpoint update carries the tracked tiers of its endpoint as
    [Tiers] and the untracked ones as [UntrackedTiers]. *)
Definition CarriesTrackedAndUntracked (buf : EventSequencer) : Prop :=
  forall m, m ∈ run_out (Flush buf) -> stage m = 7 ->
    exists key, key ∈ dom (pendingEndpointUpdates buf) /\
      endpointOf m = endpointIDOfKey key /\
      tiersOf m = Some (tiersWith trackedNames
                          (default [] (pendingEndpointTierUpdates buf !! key))) /\
      untrackedTiersOf m = Some (tiersWith untrackedNames
                                   (default [] (pendingEndpointTierUpdates buf !! key))).

(** Every key of a multimap of pending IPs holds at least one IP. *)
Definition nonempty_values (m : gmap string (gset Addr)) : Prop :=
  forall k s, m !! k = Some s -> s <> ∅.

Definition NoEmptyKeys (buf : EventSequencer) : Prop :=
  nonempty_values (pendingAddedIPs buf) /\ nonempty_values (pendingRemovedIPs buf).

(** The pending tiers are the tiers of the pending endpoint updates. *)
Definition TiersTracked (buf : EventSequencer) : Prop :=
  dom (pendingEndpointTierUpdates buf) = dom (pendingEndpointUpdates buf).



(** *** What is pending, as messages *)

(** The messages that the pending buffers of a state stand for, by the
    thirteen items of the specification's flush ordering.  Within an item
    the messages come in the order in which the buffer is iterated; an
    update whose value is a nil pointer, or an endpoint value that is not
    of the type of its key, stands for no message. *)
Definition notReadyMessages (buf : EventSequencer) : list Message :=
  if pendingNotReady buf then [DatastoreNotReady] else [].

(** The config update: the merged config, when merging the pending global
    and host config changes anything. *)
Definition configMessages (buf : EventSequencer) : list Message :=
  match pendingGlobalConfig buf with
  | None => []
  | Some _ =>
      let '(conf1, globalChanged, _) :=
        Config_UpdateFrom (config buf) (pendingGlobalConfig buf) DatastoreGlobal in
      let '(conf2, hostChanged, _) :=
        Config_UpdateFrom conf1 (pendingHostConfig buf) DatastorePerHost in
      if (globalChanged || hostChanged)%bool
      then [ConfigUpdate (Config_RawValues conf2)]
      else []
  end.

(** IP set adds, each with the full pending membership of the set. *)
Definition ipSetAddMessages (buf : EventSequencer) : list Message :=
  (fun setID =>
     IPSetUpdate setID (Addr_String <$> multidict_Iter setID (pendingAddedIPs buf)))
    <$> elements (pendingAddedIPSets buf).

(** IP set deltas: first the sets with pending IP removes, then the other
    sets with pending IP adds; the IPs added to a set whose add is
    pending are part of the add, not of a delta. *)
Definition ipSetDeltaMessages (buf : EventSequencer) : list Message :=
  (fun setID =>
     IPSetDeltaUpdate setID
       (Addr_String <$> (if decide (setID ∈ pendingAddedIPSets buf) then []
                         else multidict_Iter setID (pendingAddedIPs buf)))
       (Addr_String <$> multidict_Iter setID (pendingRemovedIPs buf)))
    <$> (elements (dom (pendingRemovedIPs buf))
         ++ elements ((dom (pendingAddedIPs buf) ∖ pendingAddedIPSets buf)
                        ∖ dom (pendingRemovedIPs buf))).

Definition policyUpdateMessages (buf : EventSequencer) : list Message :=
  omap (fun kv : PolicyKey * option ParsedRules =>
          (fun rules =>
             ActivePolicyUpdate
               {| PolicyID_Tier := "default"; PolicyID_Name := PolicyKey_Name kv.1 |}
               {| ProtoPolicy_InboundRules :=
                    parsedRulesToProtoRules (InboundRules rules)
                      (String.append "pol-in-default/" (PolicyKey_Name kv.1));
                  ProtoPolicy_OutboundRules :=
                    parsedRulesToProtoRules (OutboundRules rules)
                      (String.append "pol-out-default/" (PolicyKey_Name kv.1));
                  ProtoPolicy_Untracked := Untracked rules |}) <$> kv.2)
       (map_to_list (pendingPolicyUpdates buf)).

Definition profileUpdateMessages (buf : EventSequencer) : list Message :=
  omap (fun kv : ProfileRulesKey * option ParsedRules =>
          (fun rules =>
             ActiveProfileUpdate (ProfileRulesKey_Name kv.1)
               {| ProtoProfile_InboundRules :=
                    parsedRulesToProtoRules (InboundRules rules)
                      (String.append "prof-in-" (ProfileRulesKey_Name kv.1));
                  ProtoProfile_OutboundRules :=
                    parsedRulesToProtoRules (OutboundRules rules)
                      (String.append "prof-out-" (ProfileRulesKey_Name kv.1)) |}) <$> kv.2)
       (map_to_list (pendingProfileUpdates buf)).

(** Endpoint updates, each with the tiers pending for its key: the
    tracked ones for a workload endpoint, both lists for a host endpoint. *)
Definition endpointUpdateMessages (buf : EventSequencer) : list Message :=
  omap (fun kv : Key * EndpointValue =>
          let tiers := default [] (pendingEndpointTierUpdates buf !! kv.1) in
          match kv.1, kv.2 with
          | WorkloadEndpointKey _ orch wl ep, WorkloadEndpointPtr (Some wlep) =>
              Some (WorkloadEndpointUpdate
                      {| wid_OrchestratorId := orch; wid_WorkloadId := wl;
                         wid_EndpointId := ep |}
                      (ModelWorkloadEndpointToProto wlep (tiersWith trackedNames tiers)))
          | HostEndpointKey _ ep, HostEndpointPtr (Some hep) =>
              Some (HostEndpointUpdate {| hid_EndpointId := ep |}
                      (ModelHostEndpointToProto hep (tiersWith trackedNames tiers)
                         (tiersWith untrackedNames tiers)))
          | _, _ => None
          end)
       (map_to_list (pendingEndpointUpdates buf)).

Definition endpointRemoveMessages (buf : EventSequencer) : list Message :=
  omap (fun key =>
          match key with
          | WorkloadEndpointKey _ orch wl ep =>
              Some (WorkloadEndpointRemove
                      {| wid_OrchestratorId := orch; wid_WorkloadId := wl;
                         wid_EndpointId := ep |})
          | HostEndpointKey _ ep => Some (HostEndpointRemove {| hid_EndpointId := ep |})
          | OtherKey _ _ => None
          end)
       (elements (pendingEndpointDeletes buf)).

Definition profileRemoveMessages (buf : EventSequencer) : list Message :=
  (fun key => ActiveProfileRemove (ProfileRulesKey_Name key))
    <$> elements (pendingProfileDeletes buf).

Definition policyRemoveMessages (buf : EventSequencer) : list Message :=
  (fun key => ActivePolicyRemove
                {| PolicyID_Tier := "default"; PolicyID_Name := PolicyKey_Name key |})
    <$> elements (pendingPolicyDeletes buf).

Definition ipSetRemoveMessages (buf : EventSequencer) : list Message :=
  IPSetRemove <$> elements (pendingRemovedIPSets buf).

Definition hostIPRemoveMessages (buf : EventSequencer) : list Message :=
  HostMetadataRemove <$> elements (pendingHostIPDeletes buf).

Definition hostIPUpdateMessages (buf : EventSequencer) : list Message :=
  omap (fun kv : string * option NetIP =>
          (fun ip => HostMetadataUpdate kv.1 (NetIP_String ip)) <$> kv.2)
       (map_to_list (pendingHostIPUpdates buf)).

Definition ipPoolRemoveMessages (buf : EventSequencer) : list Message :=
  omap (fun item =>
          match item with
          | ItemCIDR cidr => Some (IPAMPoolRemove (cidrToIPPoolID cidr))
          | ItemIPPoolKey _ => None
          end)
       (elements (pendingIPPoolDeletes buf)).

Definition ipPoolUpdateMessages (buf : EventSequencer) : list Message :=
  omap (fun kv : CIDR * option IPPool =>
          (fun pool =>
             IPAMPoolUpdate (cidrToIPPoolID kv.1)
               {| IPAMPool_Cidr := IPNet_String (IPPool_CIDR pool);
                  IPAMPool_Masquerade := IPPool_Masquerade pool |}) <$> kv.2)
       (map_to_list (pendingIPPoolUpdates buf)).

(** The thirteen items of the flush ordering, first to last. *)
Definition pendingMessages (buf : EventSequencer) : list (list Message) :=
  [ notReadyMessages buf;
    configMessages buf;
    ipSetAddMessages buf;
    ipSetDeltaMessages buf;
    policyUpdateMessages buf;
    profileUpdateMessages buf;
    endpointUpdateMessages buf;
    endpointRemoveMessages buf;
    profileRemoveMessages buf;
    policyRemoveMessages buf;
    ipSetRemoveMessages buf;
    hostIPRemoveMessages buf ++ hostIPUpdateMessages buf;
    ipPoolRemoveMessages buf ++ ipPoolUpdateMessages buf ].

(** Every pending buffer is empty: the buffers of [Drained], the pending
    tiers and the pending host config. *)
Definition AllDrained (b : EventSequencer) : Prop :=
  Drained b /\ pendingEndpointTierUpdates b = ∅ /\ pendingHostConfig b = None.

(** The claim's last sentence read on the IPs that are pending as
    removes: every set that has some is in the sent set. *)
Definition IPRemovesSent (buf : EventSequencer) : Prop :=
  dom (pendingRemovedIPs buf) ⊆ sentIPSets buf.

End Sequencer.

(** ** A small instance of the collaborators, to run the model on *)

(** Addresses, networks and rules are the strings they print as; the
    configuration is the map of its raw values, an update merges the new
    values over it and reports whether anything changed, and a map that
    holds the key ["bad"] does not parse. *)
Definition testExternals : Externals :=
  {| Addr := string;
     Addr_String := fun a => a;
     CIDR := string;
     CIDR_String := fun c => c;
     IPNet := string;
     IPNet_String := fun n => n;
     CIDRFromCalicoNet := fun n => n;
     NetIP := string;
     NetIP_String := fun i => i;
     MAC := string;
     MAC_String := fun m => m;
     ParsedRule := string;
     ProtoRule := string * string;
     parsedRulesToProtoRules := fun rules pfx => map (fun r => (pfx, r)) rules;
     Config := gmap string string;
     Config_UpdateFrom := fun conf m _ =>
       let new := default ∅ m in
       if bool_decide (is_Some (new !! "bad"))
       then (conf, false, Some "bad config")
       else (new ∪ conf, negb (bool_decide (new ∪ conf = conf)), None);
     Config_RawValues := fun conf => conf |}.

(** States to run the model on. *)
Definition testNew : @EventSequencer testExternals :=
  @NewEventBuffer testExternals (∅ : gmap string string).

(** One IP set with two members, pending. *)
Definition testSetPending : @EventSequencer testExternals :=
  @runCalls testExternals [CallOnIPSetAdded "s"; @CallOnIPAdded testExternals "s" "10.0.0.1"; @CallOnIPAdded testExternals "s" "10.0.0.2"]
    testNew.

(** The same set, sent. *)
Definition testSetSent : @EventSequencer testExternals :=
  @runCalls testExternals [CallFlush] testSetPending.

(** A tier of the policies [a] (tracked) and [b] (do-not-track). *)
Definition testTier : tierInfo :=
  {| tierInfo_Name := "default"; tierInfo_Valid := true; tierInfo_Order := None;
     tierInfo_Policies := ∅;
     tierInfo_OrderedPolicies :=
       [ {| PolKV_Key := {| PolicyKey_Name := "a" |};
            PolKV_Value := {| Policy_Order := Some (F64Finite 10%Q); Policy_Selector := "all()";
                              Policy_DoNotTrack := false |} |};
         {| PolKV_Key := {| PolicyKey_Name := "b" |};
            PolKV_Value := {| Policy_Order := Some (F64Finite 20%Q); Policy_Selector := "all()";
                              Policy_DoNotTrack := true |} |} ] |}.

Definition testWorkloadKey : Key := WorkloadEndpointKey "host" "k8s" "pod" "eth0".

Definition testWorkload : @WorkloadEndpoint testExternals :=
  @mkWorkloadEndpoint testExternals "active" "cali1234" None ["prof"] ["10.0.0.1/32"] [] [] [].

Definition testHostKey : Key := HostEndpointKey "host" "eth0".

Definition testHost : @HostEndpoint testExternals :=
  @mkHostEndpoint testExternals "eth0" ["10.0.0.1"] [] ["prof"].

(** A workload endpoint pending with [testTier]. *)
Definition testWorkloadPending : @EventSequencer testExternals :=
  @runCalls testExternals [CallOnEndpointTierUpdate testWorkloadKey
              (Some (WorkloadEndpointPtr (Some testWorkload))) [testTier]] testNew.

(** A host endpoint pending with [testTier]. *)
Definition testHostPending : @EventSequencer testExternals :=
  @runCalls testExternals [CallOnEndpointTierUpdate testHostKey
              (Some (HostEndpointPtr (Some testHost))) [testTier]] testNew.

Definition testPoolKey : @IPPoolKey testExternals := @mkIPPoolKey testExternals "10.0.0.0/8".

Definition testPool : @IPPool testExternals :=
  @mkIPPool testExternals "10.0.0.0/8" true.

(** An IP pool that is sent, then removed: its delete is pending. *)
Definition testPoolRemoved : @EventSequencer testExternals :=
  @runCalls testExternals [CallOnIPPoolUpdate testPoolKey (Some testPool); CallFlush;
            CallOnIPPoolRemove testPoolKey] testNew.

(** An IP removed from a set whose add is pending and that was never
    sent. *)
Definition testIPRemovedEarly : @EventSequencer testExternals :=
  @runCalls testExternals [CallOnIPSetAdded "n"; @CallOnIPRemoved testExternals "n" "10.0.0.5"]
    testNew.

(** A host config that is pending with no global config. *)
Definition testHostConfigPending : @EventSequencer testExternals :=
  @runCalls testExternals
    [CallOnConfigUpdate None (Some {["LogSeverityScreen" := "info"]})] testNew.

(* ===================================================================== *)
(** * Theorems *)
(* ===================================================================== *)

(** ** logutils *)

Lemma Level_gt_spec (l1 l2 : Level) : Level_gt l1 l2 = true <-> Level_num l2 < Level_num l1.
Proof. unfold Level_gt. apply Nat.ltb_lt. Qed.

Lemma Level_num_inj (l1 l2 : Level) : Level_num l1 = Level_num l2 -> l1 = l2.
Proof. destruct l1, l2; simpl; intros H; try reflexivity; discriminate H. Qed.

(** C9.  When the parsed syslog level is strictly more verbose than both
    the parsed screen level and the parsed file level, the level that
    [ConfigureLogging] hands to [log.SetLevel] is the screen level, and it
    is not the syslog level. *)
Theorem ConfigureLogging_syslog_most_verbose
    (ParseLevel : string -> option Level) (configParams : LogConfig) :
  let logLevelScreen := safeParseLogLevel ParseLevel (LogSeverityScreen configParams) in
  let logLevelFile := safeParseLogLevel ParseLevel (LogSeverityFile configParams) in
  let logLevelSyslog := safeParseLogLevel ParseLevel (LogSeveritySys configParams) in
  Level_gt logLevelSyslog logLevelScreen = true ->
  Level_gt logLevelSyslog logLevelFile = true ->
  ConfigureLogging_SetLevel ParseLevel configParams = logLevelScreen /\
  ConfigureLogging_SetLevel ParseLevel configParams <> logLevelSyslog.
Proof.
  intros scr fil sys Hs Hf.
  assert (Heq : ConfigureLogging_SetLevel ParseLevel configParams = scr).
  { unfold ConfigureLogging_SetLevel, mostVerboseLevel_of. fold scr fil sys.
    destruct (Level_gt fil scr) eqn:Hfs.
    - rewrite Hf. reflexivity.
    - rewrite Hs. reflexivity. }
  split; [exact Heq|].
  rewrite Heq. intros E. rewrite E in Hs.
  apply Level_gt_spec in Hs. lia.
Qed.

Lemma ConfigureLogging_syslog_most_verbose_witness :
  let cfg := {| LogSeverityScreen := "error"; LogSeverityFile := "info";
                LogSeveritySys := "debug" |} in
  ConfigureLogging_SetLevel testParseLevel cfg = ErrorLevel /\
  ConfigureLogging_SetLevel testParseLevel cfg <> DebugLevel.
Proof.
  exact (ConfigureLogging_syslog_most_verbose testParseLevel
           {| LogSeverityScreen := "error"; LogSeverityFile := "info";
              LogSeveritySys := "debug" |} eq_refl eq_refl).
Defined.

(** ** The hostname filter *)

(** C7.  The filter returns [filterOut = true] exactly when the key of the
    update is a workload-endpoint or host-endpoint key whose host name is
    not the configured one. *)
Theorem endpointHostnameFilter_OnUpdate_spec (f : endpointHostnameFilter) (update : Update) :
  endpointHostnameFilter_OnUpdate f update = true <->
  ((exists h o w e, Update_Key update = WorkloadEndpointKey h o w e /\ h <> hostname f) \/
   (exists h e, Update_Key update = HostEndpointKey h e /\ h <> hostname f)).
Proof.
  unfold endpointHostnameFilter_OnUpdate.
  destruct (Update_Key update) as [h o w e|h e|k p]; simpl.
  - destruct (String.eqb_spec h (hostname f)) as [Heq|Hne]; simpl; split.
    + discriminate.
    + intros [(h' & o' & w' & e' & Hk & Hd)|(h' & e' & Hk & _)]; [|discriminate Hk].
      injection Hk as -> _ _ _. contradiction.
    + intros _. left. exists h, o, w, e. split; [reflexivity|exact Hne].
    + reflexivity.
  - destruct (String.eqb_spec h (hostname f)) as [Heq|Hne]; simpl; split.
    + discriminate.
    + intros [(h' & o' & w' & e' & Hk & _)|(h' & e' & Hk & Hd)]; [discriminate Hk|].
      injection Hk as -> _. contradiction.
    + intros _. right. exists h, e. split; [reflexivity|exact Hne].
    + reflexivity.
  - split; [discriminate|].
    intros [(h' & o' & w' & e' & Hk & _)|(h' & e' & Hk & _)]; discriminate Hk.
Qed.

(** ** The policy order *)

Lemma string_ltb_irrefl (s : string) : String.ltb s s = false.
Proof.
  unfold String.ltb. destruct (String.compare s s) eqn:E; try reflexivity.
  pose proof (String.compare_antisym s s) as H. rewrite E in H. discriminate H.
Qed.

Lemma string_ltb_lt (s t : string) : String.ltb s t = true <-> OrderedTypeEx.String_as_OT.lt s t.
Proof.
  unfold String.ltb. rewrite <- OrderedTypeEx.String_as_OT.cmp_lt. unfold OrderedTypeEx.String_as_OT.cmp.
  destruct (String.compare s t); split; congruence.
Qed.

Lemma string_ltb_trans (s t u : string) :
  String.ltb s t = true -> String.ltb t u = true -> String.ltb s u = true.
Proof. rewrite !string_ltb_lt. apply OrderedTypeEx.String_as_OT.lt_trans. Qed.

Lemma string_ltb_total (s t : string) :
  String.ltb s t = true \/ String.ltb t s = true \/ s = t.
Proof.
  unfold String.ltb. rewrite (String.compare_antisym t s).
  destruct (String.compare s t) eqn:E; simpl; auto.
  right. right. apply String.compare_eq_iff. exact E.
Qed.

Lemma string_ltb_asym (s t : string) : String.ltb s t = true -> String.ltb t s = false.
Proof.
  unfold String.ltb. rewrite (String.compare_antisym t s).
  destruct (String.compare s t); simpl; congruence.
Qed.

Lemma float64_eq_iff (x y : float64) : float64_eq x y = true <-> f64_eqP x y.
Proof.
  destruct x, y; simpl; try (split; [discriminate|contradiction]); try tauto.
  apply Qeq_bool_iff.
Qed.

Lemma float64_lt_iff (x y : float64) : float64_lt x y = true <-> f64_ltP x y.
Proof.
  destruct x, y; simpl; try (split; [discriminate|contradiction]); try tauto.
  rewrite negb_true_iff, <- not_true_iff_false, Qle_bool_iff.
  split; [apply Qnot_le_lt | apply Qlt_not_le].
Qed.

Lemma f64_eqP_sym (x y : float64) : f64_eqP x y -> f64_eqP y x.
Proof. destruct x, y; simpl; try tauto. intros H. symmetry. exact H. Qed.

Lemma f64_eqP_trans (x y z : float64) : f64_eqP x y -> f64_eqP y z -> f64_eqP x z.
Proof. destruct x, y, z; simpl; try tauto. intros H1 H2. lra. Qed.

Lemma f64_ltP_trans (x y z : float64) : f64_ltP x y -> f64_ltP y z -> f64_ltP x z.
Proof. destruct x, y, z; simpl; try tauto. intros H1 H2. lra. Qed.

Lemma f64_lt_eq_trans (x y z : float64) : f64_ltP x y -> f64_eqP y z -> f64_ltP x z.
Proof. destruct x, y, z; simpl; try tauto. intros H1 H2. lra. Qed.

Lemma f64_eq_lt_trans (x y z : float64) : f64_eqP x y -> f64_ltP y z -> f64_ltP x z.
Proof. destruct x, y, z; simpl; try tauto. intros H1 H2. lra. Qed.

Lemma f64_lt_not_eq (x y : float64) : f64_ltP x y -> f64_eqP x y -> False.
Proof. destruct x, y; simpl; try tauto. intros H1 H2. lra. Qed.

Lemma f64_lt_asym (x y : float64) : f64_ltP x y -> f64_ltP y x -> False.
Proof. destruct x, y; simpl; try tauto. intros H1 H2. lra. Qed.

Lemma f64_total (x y : float64) :
  x <> F64NaN -> y <> F64NaN -> f64_ltP x y \/ f64_ltP y x \/ f64_eqP x y.
Proof.
  destruct x, y; simpl; try tauto.
  intros _ _. destruct (Q_dec q q0) as [[H|H]|H]; auto.
Qed.

(** [Less] in terms of the order and the name of its two arguments. *)
Lemma PolKV_less_unfold (a b : PolKV) :
  PolKV_less a b =
  match orderOf a, orderOf b with
  | None, None => String.ltb (nameOf a) (nameOf b)
  | None, Some _ => false
  | Some _, None => true
  | Some x, Some y =>
      if float64_eq x y then String.ltb (nameOf a) (nameOf b) else float64_lt x y
  end.
Proof.
  unfold PolKV_less, orderOf, nameOf.
  destruct (Policy_Order (PolKV_Value a)) as [x|], (Policy_Order (PolKV_Value b)) as [y|];
    simpl; reflexivity.
Qed.

Lemma PolKV_less_irrefl (a : PolKV) : PolKV_less a a = false.
Proof.
  rewrite PolKV_less_unfold.
  destruct (orderOf a) as [x|]; [|apply string_ltb_irrefl].
  destruct (float64_eq x x) eqn:E; [apply string_ltb_irrefl|].
  apply not_true_iff_false. rewrite float64_lt_iff. intros H.
  destruct x; simpl in *; try contradiction. lra.
Qed.

Lemma PolKV_less_trans (a b c : PolKV) :
  PolKV_less a b = true -> PolKV_less b c = true -> PolKV_less a c = true.
Proof.
  rewrite !PolKV_less_unfold.
  destruct (orderOf a) as [x|], (orderOf b) as [y|], (orderOf c) as [z|];
    try discriminate; try reflexivity; try apply string_ltb_trans.
  destruct (float64_eq x y) eqn:Exy, (float64_eq y z) eqn:Eyz, (float64_eq x z) eqn:Exz;
    rewrite ?float64_lt_iff;
    try apply float64_eq_iff in Exy; try apply float64_eq_iff in Eyz;
    try apply float64_eq_iff in Exz;
    try (apply not_true_iff_false in Exy; rewrite float64_eq_iff in Exy);
    try (apply not_true_iff_false in Eyz; rewrite float64_eq_iff in Eyz);
    try (apply not_true_iff_false in Exz; rewrite float64_eq_iff in Exz);
    intros H1 H2.
  - eapply string_ltb_trans; eassumption.
  - exfalso. apply Exz. eapply f64_eqP_trans; eassumption.
  - exfalso. apply Eyz. eapply f64_eqP_trans; [apply f64_eqP_sym|]; eassumption.
  - eapply f64_eq_lt_trans; eassumption.
  - exfalso. apply Exy. eapply f64_eqP_trans; [|apply f64_eqP_sym]; eassumption.
  - eapply f64_lt_eq_trans; eassumption.
  - exfalso. eapply f64_lt_asym; [exact H2|].
    eapply f64_eq_lt_trans; [apply f64_eqP_sym; exact Exz|exact H1].
  - eapply f64_ltP_trans; eassumption.
Qed.

Lemma PolKV_less_total : LessTotalOn orderNotNaN.
Proof.
  intros a b Ha Hb. unfold orderNotNaN, sameOrder in *.
  rewrite !PolKV_less_unfold.
  destruct (orderOf a) as [x|], (orderOf b) as [y|]; auto.
  - destruct (f64_total x y) as [H|[H|H]]; try congruence.
    + left. destruct (float64_eq x y) eqn:E.
      * apply float64_eq_iff in E. exfalso. eapply f64_lt_not_eq; eassumption.
      * apply float64_lt_iff. exact H.
    + right. left. destruct (float64_eq y x) eqn:E.
      * apply float64_eq_iff in E. exfalso. eapply f64_lt_not_eq; eassumption.
      * apply float64_lt_iff. exact H.
    + pose proof H as H'. apply float64_eq_iff in H. apply f64_eqP_sym, float64_eq_iff in H'.
      rewrite H, H'. destruct (string_ltb_total (nameOf a) (nameOf b)) as [?|[?|?]]; auto.
  - destruct (string_ltb_total (nameOf a) (nameOf b)) as [?|[?|?]]; auto.
Qed.

(** C5.  [Less] is the total strict order (order ascending, name
    ascending) of the policies whose order is nil or a number: it is
    irreflexive and transitive, and it orders any two such policies one
    way or the other unless they agree in order and name; the smaller
    numeric order precedes; a nil order comes after every set order; and
    with equal orders, or both nil, the smaller name precedes, compared
    byte by byte. *)
Theorem PolicyByOrder_Less_order :
  (forall a, PolKV_less a a = false) /\
  (forall a b c, PolKV_less a b = true -> PolKV_less b c = true -> PolKV_less a c = true) /\
  LessTotalOn orderNotNaN /\
  (forall a b x y, orderOf a = Some x -> orderOf b = Some y -> float64_lt x y = true ->
     PolKV_less a b = true /\ PolKV_less b a = false) /\
  (forall a b x, orderOf a = Some x -> orderOf b = None ->
     PolKV_less a b = true /\ PolKV_less b a = false) /\
  (forall a b, sameOrder a b ->
     PolKV_less a b = String.ltb (nameOf a) (nameOf b)) /\
  (forall (l : list PolKV) i j a b, l !! i = Some a -> l !! j = Some b ->
     PolicyByOrder_Less l i j = Some (PolKV_less a b)).
Proof.
  split; [exact PolKV_less_irrefl|].
  split; [exact PolKV_less_trans|].
  split; [exact PolKV_less_total|].
  split; [|split; [|split]].
  - intros a b x y Ha Hb Hlt. rewrite !PolKV_less_unfold, Ha, Hb.
    apply float64_lt_iff in Hlt.
    destruct (float64_eq x y) eqn:E1.
    { apply float64_eq_iff in E1. exfalso. eapply f64_lt_not_eq; eassumption. }
    destruct (float64_eq y x) eqn:E2.
    { apply float64_eq_iff, f64_eqP_sym in E2. exfalso. eapply f64_lt_not_eq; eassumption. }
    split; [apply float64_lt_iff; exact Hlt|].
    apply not_true_iff_false. rewrite float64_lt_iff. intros H.
    eapply f64_lt_asym; eassumption.
  - intros a b x Ha Hb. rewrite !PolKV_less_unfold, Ha, Hb. split; reflexivity.
  - intros a b. unfold sameOrder. rewrite PolKV_less_unfold.
    destruct (orderOf a) as [x|], (orderOf b) as [y|]; try contradiction.
    + intros ->. reflexivity.
    + reflexivity.
  - intros l i j a b Hi Hj. unfold PolicyByOrder_Less. rewrite Hi, Hj. reflexivity.
Qed.

Lemma PolicyByOrder_Less_order_witness :
  PolKV_less (polOrder "B" (Some 5%Q)) (polOrder "A" (Some 10%Q)) = true /\
  PolKV_less (polOrder "A" (Some 10%Q)) (polOrder "B" (Some 5%Q)) = false.
Proof.
  destruct PolicyByOrder_Less_order as (_ & _ & _ & H & _).
  exact (H (polOrder "B" (Some 5%Q)) (polOrder "A" (Some 10%Q))
           (F64Finite 5%Q) (F64Finite 10%Q) eq_refl eq_refl eq_refl).
Defined.

(** A policy whose order is NaN is outside that order: [Less] puts it
    neither before nor after a policy with a set order, whatever the
    names, and before every policy with no order. *)
Lemma PolKV_less_NaN (a b : PolKV) :
  orderOf a = Some F64NaN ->
  (forall y, orderOf b = Some y -> PolKV_less a b = false /\ PolKV_less b a = false) /\
  (orderOf b = None -> PolKV_less a b = true /\ PolKV_less b a = false).
Proof.
  intros Ha. rewrite !PolKV_less_unfold, Ha. split.
  - intros y ->. simpl. destruct y; split; reflexivity.
  - intros ->. split; reflexivity.
Qed.

Lemma PolKV_less_NaN_witness :
  (forall y, orderOf (polNaN "b") = Some y ->
     PolKV_less (polNaN "a") (polNaN "b") = false /\
     PolKV_less (polNaN "b") (polNaN "a") = false) /\
  (orderOf (polNaN "b") = None ->
     PolKV_less (polNaN "a") (polNaN "b") = true /\
     PolKV_less (polNaN "b") (polNaN "a") = false).
Proof. apply (PolKV_less_NaN (polNaN "a") (polNaN "b")). reflexivity. Defined.

(** ** The event sequencer *)

Section SequencerFacts.
Context `{Ext : Externals}.

Implicit Types (buf b : EventSequencer) (r : FlushRun) (m : Message).

(** *** Consistency checks *)

(** C3.  [OnIPSetAdded] panics exactly when the set is in the sent set
    with no removal pending; [OnIPAdded], [OnIPRemoved] and
    [OnIPSetRemoved] panic exactly when the set is neither in the sent set
    nor pending as an add.  In every other case the callback returns. *)
Theorem consistency_checks (buf : EventSequencer) (setID : string) (ip : Addr) :
  (panics (OnIPSetAdded setID buf) <->
     (setID ∈ sentIPSets buf) /\ (setID ∉ pendingRemovedIPSets buf)) /\
  (panics (OnIPAdded setID ip buf) <->
     (setID ∉ sentIPSets buf) /\ (setID ∉ pendingAddedIPSets buf)) /\
  (panics (OnIPRemoved setID ip buf) <->
     (setID ∉ sentIPSets buf) /\ (setID ∉ pendingAddedIPSets buf)) /\
  (panics (OnIPSetRemoved setID buf) <->
     (setID ∉ sentIPSets buf) /\ (setID ∉ pendingAddedIPSets buf)) /\
  ((exists buf', OnIPSetAdded setID buf = Ok buf') \/ panics (OnIPSetAdded setID buf)) /\
  ((exists buf', OnIPAdded setID ip buf = Ok buf') \/ panics (OnIPAdded setID ip buf)) /\
  ((exists buf', OnIPRemoved setID ip buf = Ok buf') \/ panics (OnIPRemoved setID ip buf)) /\
  ((exists buf', OnIPSetRemoved setID buf = Ok buf') \/ panics (OnIPSetRemoved setID buf)).
Proof.
  unfold panics, OnIPSetAdded, OnIPAdded, OnIPRemoved, OnIPSetRemoved.
  destruct (decide (setID ∈ sentIPSets buf)) as [Hs|Hs];
    destruct (decide (setID ∈ pendingRemovedIPSets buf)) as [Hr|Hr];
    destruct (decide (setID ∈ pendingAddedIPSets buf)) as [Ha|Ha];
    rewrite ?(bool_decide_eq_true_2 _ Hs), ?(bool_decide_eq_false_2 _ Hs),
            ?(bool_decide_eq_true_2 _ Hr), ?(bool_decide_eq_false_2 _ Hr),
            ?(bool_decide_eq_true_2 _ Ha), ?(bool_decide_eq_false_2 _ Ha); simpl;
    repeat match goal with |- _ /\ _ => split end;
    repeat case_match;
    try (split; [intros [? ?]; try discriminate; tauto | intros [? ?]; try tauto; eauto]);
    try (right; eauto; fail);
    try (left; eauto; fail).
Qed.

(** *** The split of policies by the do-not-track flag *)

Lemma splitPolicies_acc (pols : list PolKV) (t u : list string) :
  fold_left
    (fun (acc : list string * list string) (pol : PolKV) =>
       let '(trackedPols, untrackedPols) := acc in
       if Policy_DoNotTrack (PolKV_Value pol)
       then (trackedPols, untrackedPols ++ [PolicyKey_Name (PolKV_Key pol)])
       else (trackedPols ++ [PolicyKey_Name (PolKV_Key pol)], untrackedPols))
    pols (t, u)
  = (t ++ trackedNames pols, u ++ untrackedNames pols).
Proof.
  revert t u. induction pols as [|pol pols IH]; intros t u; simpl.
  - unfold trackedNames, untrackedNames. simpl. by rewrite !app_nil_r.
  - unfold trackedNames, untrackedNames in *.
    destruct (Policy_DoNotTrack (PolKV_Value pol)) eqn:E; rewrite IH.
    + rewrite (filter_cons_False _ pol pols) by (rewrite E; discriminate).
      rewrite (filter_cons_True _ pol pols) by (rewrite E; reflexivity).
      simpl. by rewrite <- app_assoc.
    + rewrite (filter_cons_True _ pol pols) by (rewrite E; reflexivity).
      rewrite (filter_cons_False _ pol pols) by (rewrite E; discriminate).
      simpl. by rewrite <- app_assoc.
Qed.

Lemma splitPolicies_spec (pols : list PolKV) :
  splitPolicies pols = (trackedNames pols, untrackedNames pols).
Proof. unfold splitPolicies. by rewrite splitPolicies_acc. Qed.

Lemma tierInfoToProtoTierInfo_acc (tiers : list tierInfo) (t u : list ProtoTierInfo) :
  fold_left
    (fun (acc : list ProtoTierInfo * list ProtoTierInfo) (ti : tierInfo) =>
       let '(trackedTiers, untrackedTiers) := acc in
       let '(trackedPols, untrackedPols) := splitPolicies (tierInfo_OrderedPolicies ti) in
       let trackedTiers :=
         if Nat.ltb 0 (length trackedPols)
         then trackedTiers ++ [{| ProtoTierInfo_Name := tierInfo_Name ti;
                                  ProtoTierInfo_Policies := trackedPols |}]
         else trackedTiers in
       let untrackedTiers :=
         if Nat.ltb 0 (length untrackedPols)
         then untrackedTiers ++ [{| ProtoTierInfo_Name := tierInfo_Name ti;
                                    ProtoTierInfo_Policies := untrackedPols |}]
         else untrackedTiers in
       (trackedTiers, untrackedTiers))
    tiers (t, u)
  = (t ++ tiersWith trackedNames tiers, u ++ tiersWith untrackedNames tiers).
Proof.
  revert t u. induction tiers as [|ti tiers IH]; intros t u; simpl.
  - by rewrite !app_nil_r.
  - rewrite splitPolicies_spec, IH. unfold tiersWith. simpl.
    destruct (trackedNames (tierInfo_OrderedPolicies ti)) as [|n1 l1];
      destruct (untrackedNames (tierInfo_OrderedPolicies ti)) as [|n2 l2];
      simpl; by rewrite <- ?app_assoc.
Qed.

Lemma tierInfoToProtoTierInfo_spec (tiers : list tierInfo) :
  tierInfoToProtoTierInfo tiers
  = (tiersWith trackedNames tiers, tiersWith untrackedNames tiers).
Proof. unfold tierInfoToProtoTierInfo. by rewrite tierInfoToProtoTierInfo_acc. Qed.

(** *** Runs of a flush *)

Lemma andThen_done_l (step : EventSequencer -> FlushRun) buf :
  andThen (done buf) step = step buf.
Proof. unfold andThen, done. simpl. by destruct (step buf). Qed.

Lemma andThen_assoc r (f g : EventSequencer -> FlushRun) :
  andThen (andThen r f) g = andThen r (fun b => andThen (f b) g).
Proof.
  unfold andThen. destruct (run_fault r) eqn:Er; simpl.
  - by rewrite Er.
  - destruct (run_fault (f (run_state r))) eqn:Ef; simpl.
    + by rewrite Ef.
    + by rewrite app_assoc.
Qed.

Lemma runSteps_fold (steps : list (EventSequencer -> FlushRun)) r :
  fold_left andThen steps r = andThen r (forEach (fun s => s) steps).
Proof.
  revert r. induction steps as [|s steps IH]; intros r; simpl.
  - unfold andThen, done. destruct r as [st out [f|]]; simpl; [done|].
    by rewrite app_nil_r.
  - rewrite IH, andThen_assoc. done.
Qed.

(** [Flush] is the loop over its steps. *)
Lemma Flush_forEach buf : Flush buf = forEach (fun s => s) flushSteps buf.
Proof. unfold Flush, runSteps. by rewrite runSteps_fold, andThen_done_l. Qed.

Lemma andThen_out_elem r step m :
  m ∈ run_out (andThen r step) ->
  m ∈ run_out r \/ (run_fault r = None /\ m ∈ run_out (step (run_state r))).
Proof.
  unfold andThen. destruct (run_fault r); simpl; [by left|].
  rewrite elem_of_app. intros [?|?]; [by left|by right].
Qed.

Lemma andThen_fault_None r step :
  run_fault (andThen r step) = None ->
  run_fault r = None /\ run_fault (step (run_state r)) = None.
Proof. unfold andThen. destruct (run_fault r) eqn:E; simpl; [by rewrite E|done]. Qed.

Lemma andThen_state r step :
  run_fault r = None -> run_state (andThen r step) = run_state (step (run_state r)).
Proof. unfold andThen. by intros ->. Qed.

Lemma andThen_out r step :
  run_fault r = None ->
  run_out (andThen r step) = run_out r ++ run_out (step (run_state r)).
Proof. unfold andThen. by intros ->. Qed.

Lemma andThen_fault r step :
  run_fault r = None -> run_fault (andThen r step) = run_fault (step (run_state r)).
Proof. unfold andThen. by intros ->. Qed.

Lemma andThen_faulted r step f :
  run_fault r = Some f -> andThen r step = r.
Proof. unfold andThen. by intros ->. Qed.

(** A property of states that every visit keeps holds after the loop,
    however it ends. *)
Lemma forEach_state_ind {X : Type} (P : EventSequencer -> Prop)
    (body : X -> EventSequencer -> FlushRun) (items : list X) buf :
  (forall x b, x ∈ items -> P b -> P (run_state (body x b))) ->
  P buf -> P (run_state (forEach body items buf)).
Proof.
  revert buf. induction items as [|x items IH]; intros buf Hbody HP; simpl; [done|].
  unfold andThen. destruct (run_fault (body x buf)) eqn:E; simpl.
  - apply Hbody; [left|done].
  - apply IH; [|apply Hbody; [left|done]].
    intros y b Hy. apply Hbody. by right.
Qed.

(** Loop invariants: [Inv rest b] holds when [rest] is still to visit in
    state [b].  Every message of the loop then satisfies what the visits
    guarantee for theirs. *)
Lemma forEach_out_ind {X : Type} (Inv : list X -> EventSequencer -> Prop)
    (Q : Message -> Prop)
    (body : X -> EventSequencer -> FlushRun) (items : list X) buf :
  (forall x rest b, Inv (x :: rest) b ->
     (forall m, m ∈ run_out (body x b) -> Q m) /\
     (run_fault (body x b) = None -> Inv rest (run_state (body x b)))) ->
  Inv items buf ->
  forall m, m ∈ run_out (forEach body items buf) -> Q m.
Proof.
  intros Hbody. revert buf. induction items as [|x items IH]; intros buf HI m; simpl.
  - by intros ?%elem_of_nil.
  - destruct (Hbody x items buf HI) as [HQ Hnext].
    intros [Hm|[Hf Hm]]%andThen_out_elem; [by apply HQ|].
    eapply IH; [|exact Hm]. by apply Hnext.
Qed.

(** The same for the state a loop that did not fault ends in. *)
Lemma forEach_inv_end {X : Type} (Inv : list X -> EventSequencer -> Prop)
    (body : X -> EventSequencer -> FlushRun) (items : list X) buf :
  (forall x rest b, Inv (x :: rest) b -> run_fault (body x b) = None ->
     Inv rest (run_state (body x b))) ->
  Inv items buf ->
  run_fault (forEach body items buf) = None ->
  Inv [] (run_state (forEach body items buf)).
Proof.
  intros Hbody. revert buf. induction items as [|x items IH]; intros buf HI; simpl; [done|].
  intros [Hf1 Hf2]%andThen_fault_None.
  rewrite andThen_state by done. apply IH; [|done]. by apply Hbody.
Qed.

(** A field that no visit changes is the same after the loop. *)
Lemma forEach_frame {X A : Type} (field : EventSequencer -> A)
    (body : X -> EventSequencer -> FlushRun) (items : list X) buf :
  (forall x b, field (run_state (body x b)) = field b) ->
  field (run_state (forEach body items buf)) = field buf.
Proof.
  intros Hbody.
  apply (forEach_state_ind (fun b => field b = field buf)); [|done].
  intros x b _ <-. apply Hbody.
Qed.

Lemma forEach_out_all {X : Type} (Q : Message -> Prop)
    (body : X -> EventSequencer -> FlushRun) (items : list X) buf :
  (forall x b m, m ∈ run_out (body x b) -> Q m) ->
  forall m, m ∈ run_out (forEach body items buf) -> Q m.
Proof.
  intros Hbody.
  apply (forEach_out_ind (fun _ _ => True) Q); [|done].
  intros x rest b _. split; [apply Hbody|done].
Qed.

(** *** The order of the messages of a flush *)

(** From a loop of [Flush] to the visit of one item. *)
Ltac loop_out m H :=
  revert m H; apply forEach_out_all; clear; intros ?x ?b m H.

Ltac case_out H :=
  repeat case_match; simpl in H;
  repeat (first [ apply list_elem_of_singleton in H; subst
                | apply elem_of_nil in H; destruct H ]);
  simplify_eq.

Lemma flushReadyFlag_stage buf m : m ∈ run_out (flushReadyFlag buf) -> stage m = 1.
Proof. unfold flushReadyFlag. intros H. by case_out H. Qed.

Lemma flushConfigUpdate_stage buf m : m ∈ run_out (flushConfigUpdate buf) -> stage m = 2.
Proof. unfold flushConfigUpdate. intros H. by case_out H. Qed.

Lemma flushAddedIPSets_stage buf m : m ∈ run_out (flushAddedIPSets buf) -> stage m = 3.
Proof. unfold flushAddedIPSets. intros H. loop_out m H. unfold flushAddedIPSet in *. by case_out H. Qed.

Lemma flushIPSetDeltas_stage buf m : m ∈ run_out (flushIPSetDeltas buf) -> stage m = 4.
Proof.
  unfold flushIPSetDeltas. intros [H|[_ H]]%andThen_out_elem;
    loop_out m H; unfold flushAddsOrRemoves in *; by case_out H.
Qed.

Lemma flushPolicyUpdates_stage buf m : m ∈ run_out (flushPolicyUpdates buf) -> stage m = 5.
Proof.
  unfold flushPolicyUpdates. intros H. loop_out m H. unfold flushPolicyUpdate in *. by case_out H.
Qed.

Lemma flushProfileUpdates_stage buf m : m ∈ run_out (flushProfileUpdates buf) -> stage m = 6.
Proof.
  unfold flushProfileUpdates. intros H. loop_out m H. unfold flushProfileUpdate in *. by case_out H.
Qed.

Lemma flushEndpointTierUpdates_stage buf m :
  m ∈ run_out (flushEndpointTierUpdates buf) -> stage m = 7.
Proof.
  unfold flushEndpointTierUpdates. intros H. loop_out m H.
  unfold flushEndpointTierUpdate in *. by case_out H.
Qed.

Lemma flushEndpointTierDeletes_stage buf m :
  m ∈ run_out (flushEndpointTierDeletes buf) -> stage m = 8.
Proof.
  unfold flushEndpointTierDeletes. intros H. loop_out m H.
  unfold flushEndpointTierDelete in *. by case_out H.
Qed.

Lemma flushProfileDeletes_stage buf m : m ∈ run_out (flushProfileDeletes buf) -> stage m = 9.
Proof.
  unfold flushProfileDeletes. intros H. loop_out m H. unfold flushProfileDelete in *. by case_out H.
Qed.

Lemma flushPolicyDeletes_stage buf m : m ∈ run_out (flushPolicyDeletes buf) -> stage m = 10.
Proof.
  unfold flushPolicyDeletes. intros H. loop_out m H. unfold flushPolicyDelete in *. by case_out H.
Qed.

Lemma flushRemovedIPSets_stage buf m : m ∈ run_out (flushRemovedIPSets buf) -> stage m = 11.
Proof.
  unfold flushRemovedIPSets. intros H. loop_out m H. unfold flushRemovedIPSet in *. by case_out H.
Qed.

Lemma flushHostIPDeletes_stage buf m : m ∈ run_out (flushHostIPDeletes buf) -> stage m = 12.
Proof.
  unfold flushHostIPDeletes. intros H. loop_out m H. unfold flushHostIPDelete in *. by case_out H.
Qed.

Lemma flushHostIPUpdates_stage buf m : m ∈ run_out (flushHostIPUpdates buf) -> stage m = 13.
Proof.
  unfold flushHostIPUpdates. intros H. loop_out m H. unfold flushHostIPUpdate in *. by case_out H.
Qed.

Lemma flushIPPoolDeletes_stage buf m : m ∈ run_out (flushIPPoolDeletes buf) -> stage m = 14.
Proof.
  unfold flushIPPoolDeletes. intros H. loop_out m H. unfold flushIPPoolDelete in *. by case_out H.
Qed.

Lemma flushIPPoolUpdates_stage buf m : m ∈ run_out (flushIPPoolUpdates buf) -> stage m = 15.
Proof.
  unfold flushIPPoolUpdates. intros H. loop_out m H. unfold flushIPPoolUpdate in *. by case_out H.
Qed.

(** The [i]-th step of [Flush], counted from 1, hands out messages of
    stage [i] only. *)
Lemma flushSteps_stage (i : nat) (s : EventSequencer -> FlushRun) buf m :
  flushSteps !! i = Some s -> m ∈ run_out (s buf) -> stage m = S i.
Proof.
  unfold flushSteps. intros Hi Hm.
  do 15 (destruct i as [|i]; [injection Hi as <-; revert Hm;
    first [ apply flushReadyFlag_stage | apply flushConfigUpdate_stage
          | apply flushAddedIPSets_stage | apply flushIPSetDeltas_stage
          | apply flushPolicyUpdates_stage | apply flushProfileUpdates_stage
          | apply flushEndpointTierUpdates_stage | apply flushEndpointTierDeletes_stage
          | apply flushProfileDeletes_stage | apply flushPolicyDeletes_stage
          | apply flushRemovedIPSets_stage | apply flushHostIPDeletes_stage
          | apply flushHostIPUpdates_stage | apply flushIPPoolDeletes_stage
          | apply flushIPPoolUpdates_stage ]|]).
  discriminate Hi.
Qed.

(** Steps whose messages have increasing stages give a sorted output. *)
Lemma steps_sorted (steps : list (EventSequencer -> FlushRun)) (n : nat) buf :
  (forall i s b m, steps !! i = Some s -> m ∈ run_out (s b) -> stage m = n + i) ->
  StronglySorted le (stage <$> run_out (forEach (fun s => s) steps buf)) /\
  (forall m, m ∈ run_out (forEach (fun s => s) steps buf) -> n <= stage m).
Proof.
  revert n buf. induction steps as [|s steps IH]; intros n buf Hst; simpl.
  - split; [constructor|]. by intros m ?%elem_of_nil.
  - assert (Hs : forall m, m ∈ run_out (s buf) -> stage m = n).
    { intros m Hm. rewrite (Hst 0 s buf m eq_refl Hm). lia. }
    assert (Hsorted : StronglySorted le (stage <$> run_out (s buf))).
    { clear -Hs. induction (run_out (s buf)) as [|m l IHl]; simpl; [constructor|].
      constructor.
      - apply IHl. intros m' Hm'. apply Hs. by right.
      - apply Forall_forall. intros k (m' & -> & Hm')%list_elem_of_fmap.
        rewrite (Hs m) by left. rewrite (Hs m') by (by right). done. }
    destruct (run_fault (s buf)) eqn:Ef.
    + rewrite (andThen_faulted _ _ _ Ef). split; [done|].
      intros m Hm. rewrite (Hs m Hm). done.
    + destruct (IH (S n) (run_state (s buf))) as [IH1 IH2].
      { intros i s' b m Hi Hm. rewrite (Hst (S i) s' b m Hi Hm). lia. }
      rewrite andThen_out by done. split.
      * rewrite fmap_app. apply StronglySorted_app_2; [|done|done].
        intros k1 k2 (m1 & -> & Hm1)%list_elem_of_fmap (m2 & -> & Hm2)%list_elem_of_fmap.
        rewrite (Hs m1 Hm1). specialize (IH2 m2 Hm2). lia.
      * intros m [Hm|Hm]%elem_of_app; [rewrite (Hs m Hm); done|].
        specialize (IH2 m Hm). lia.
Qed.

Lemma orderingItem_mono m1 m2 : stage m1 <= stage m2 -> orderingItem m1 <= orderingItem m2.
Proof. destruct m1, m2; simpl; lia. Qed.

(** Whatever the state, the messages that one call of [Flush] hands out
    are in the order of its statements, hence in the order of the
    thirteen items of the specification. *)
Lemma Flush_stages_sorted (buf : EventSequencer) :
  StronglySorted le (stage <$> run_out (Flush buf)) /\
  StronglySorted le (orderingItem <$> run_out (Flush buf)).
Proof.
  rewrite Flush_forEach.
  destruct (steps_sorted flushSteps 1 buf) as [Hs _].
  { intros i s b m Hi Hm. apply (flushSteps_stage i s b m Hi Hm). }
  split; [exact Hs|].
  revert Hs. generalize (run_out (forEach (fun s => s) flushSteps buf)).
  intros l. induction l as [|m l IH]; simpl; [constructor|].
  intros [Hl Hm]%StronglySorted_inv. constructor; [by apply IH|].
  apply Forall_forall. intros k (m' & -> & Hm')%list_elem_of_fmap.
  apply orderingItem_mono. rewrite Forall_forall in Hm. apply Hm.
  apply list_elem_of_fmap. by exists m'.
Qed.

(** *** A flush only takes away from what is pending *)

Lemma shrinks_refl b : shrinks b b.
Proof. by split. Qed.

Lemma shrinks_trans b1 b2 b3 : shrinks b1 b2 -> shrinks b2 b3 -> shrinks b1 b3.
Proof.
  intros [] []. split; try (etrans; eassumption); auto.
Qed.

Ltac solve_shrinks :=
  repeat case_match; simpl;
  split; simpl; unfold multidict_DiscardKey; rewrite ?dom_delete_L;
  first [ done | set_solver ].

Lemma forEach_shrinks {X : Type} (body : X -> EventSequencer -> FlushRun) items buf :
  (forall x b, shrinks b (run_state (body x b))) ->
  shrinks buf (run_state (forEach body items buf)).
Proof.
  intros Hbody. apply (forEach_state_ind (shrinks buf)); [|apply shrinks_refl].
  intros x b _ Hb. eapply shrinks_trans; [exact Hb|apply Hbody].
Qed.

Lemma andThen_shrinks r step buf :
  shrinks buf (run_state r) ->
  (forall b, shrinks b (run_state (step b))) ->
  shrinks buf (run_state (andThen r step)).
Proof.
  intros Hr Hstep. unfold andThen. destruct (run_fault r); simpl; [done|].
  eapply shrinks_trans; [exact Hr|apply Hstep].
Qed.

Lemma flushSteps_shrink (s : EventSequencer -> FlushRun) buf :
  s ∈ flushSteps -> shrinks buf (run_state (s buf)).
Proof.
  unfold flushSteps. intros Hs.
  repeat (apply elem_of_cons in Hs; destruct Hs as [->|Hs]);
    [..|by apply elem_of_nil in Hs].
  - unfold flushReadyFlag. solve_shrinks.
  - unfold flushConfigUpdate. solve_shrinks.
  - apply forEach_shrinks. intros x b. unfold flushAddedIPSet. solve_shrinks.
  - apply andThen_shrinks; [|intros b]; apply forEach_shrinks; intros x b';
      unfold flushAddsOrRemoves; solve_shrinks.
  - apply forEach_shrinks. intros x b. unfold flushPolicyUpdate. solve_shrinks.
  - apply forEach_shrinks. intros x b. unfold flushProfileUpdate. solve_shrinks.
  - apply forEach_shrinks. intros x b. unfold flushEndpointTierUpdate, recordEndpointSent.
    solve_shrinks.
  - apply forEach_shrinks. intros x b. unfold flushEndpointTierDelete. solve_shrinks.
  - apply forEach_shrinks. intros x b. unfold flushProfileDelete. solve_shrinks.
  - apply forEach_shrinks. intros x b. unfold flushPolicyDelete. solve_shrinks.
  - apply forEach_shrinks. intros x b. unfold flushRemovedIPSet. solve_shrinks.
  - apply forEach_shrinks. intros x b. unfold flushHostIPDelete. solve_shrinks.
  - apply forEach_shrinks. intros x b. unfold flushHostIPUpdate. solve_shrinks.
  - apply forEach_shrinks. intros x b. unfold flushIPPoolDelete. solve_shrinks.
  - apply forEach_shrinks. intros x b. unfold flushIPPoolUpdate. solve_shrinks.
Qed.

Lemma steps_shrink (steps : list (EventSequencer -> FlushRun)) buf :
  steps ⊆ flushSteps -> shrinks buf (run_state (forEach (fun s => s) steps buf)).
Proof.
  intros Hsub. apply (forEach_state_ind (shrinks buf)); [|apply shrinks_refl].
  intros s b Hs Hb. eapply shrinks_trans; [exact Hb|].
  apply flushSteps_shrink. by apply Hsub.
Qed.

(** *** A flush that returns leaves nothing pending *)

Lemma andThen_ext r (f g : EventSequencer -> FlushRun) :
  (forall b, f b = g b) -> andThen r f = andThen r g.
Proof. intros Hfg. unfold andThen. destruct (run_fault r); [done|]. by rewrite Hfg. Qed.

Lemma forEach_app {X : Type} (body : X -> EventSequencer -> FlushRun) (l1 l2 : list X) buf :
  forEach body (l1 ++ l2) buf = andThen (forEach body l1 buf) (forEach body l2).
Proof.
  revert buf. induction l1 as [|x l1 IH]; intros buf; simpl.
  - by rewrite andThen_done_l.
  - rewrite andThen_assoc. apply andThen_ext. exact IH.
Qed.

(** A loop whose visits each take their item out of a set, and put
    nothing in, empties the set when it visits all its elements. *)
Lemma forEach_drains {X K : Type} `{Countable K}
    (field : EventSequencer -> gset K) (key : X -> K)
    (body : X -> EventSequencer -> FlushRun) (items : list X) buf :
  (forall x b, run_fault (body x b) = None ->
     field (run_state (body x b)) ⊆ field b ∖ {[key x]}) ->
  field buf ⊆ list_to_set (key <$> items) ->
  run_fault (forEach body items buf) = None ->
  field (run_state (forEach body items buf)) = ∅.
Proof.
  intros Hbody Hinit Hf.
  pose proof (forEach_inv_end
    (fun rest b => field b ⊆ list_to_set (key <$> rest)) body items buf) as Hend.
  simpl in Hend. apply set_eq. intros k. split; [|set_solver].
  intros Hk. apply Hend in Hk; [done| |done|done].
  intros x rest b Hb Hfx. specialize (Hbody x b Hfx).
  simpl in Hb. set_solver.
Qed.

Lemma dom_fst_map_to_list {K A : Type} `{Countable K} (m : gmap K A) :
  dom m = list_to_set ((map_to_list m).*1).
Proof.
  apply set_eq. intros k. rewrite elem_of_dom, elem_of_list_to_set, list_elem_of_fmap.
  split.
  - intros [v Hv]. exists (k, v). split; [done|]. by apply elem_of_map_to_list.
  - intros ([k' v] & -> & Hkv). exists v. by apply elem_of_map_to_list.
Qed.

(** What each step of [Flush] leaves empty when it returns. *)
Lemma flushReadyFlag_drains buf : pendingNotReady (run_state (flushReadyFlag buf)) = false.
Proof. unfold flushReadyFlag. by destruct (pendingNotReady buf) eqn:E. Qed.

Lemma flushConfigUpdate_drains buf :
  run_fault (flushConfigUpdate buf) = None ->
  pendingGlobalConfig (run_state (flushConfigUpdate buf)) = None.
Proof. unfold flushConfigUpdate. repeat case_match; simpl; done. Qed.

Lemma flushAddedIPSets_drains buf :
  run_fault (flushAddedIPSets buf) = None ->
  pendingAddedIPSets (run_state (flushAddedIPSets buf)) = ∅.
Proof.
  unfold flushAddedIPSets. apply (forEach_drains pendingAddedIPSets (fun x => x)).
  - intros x b _. unfold flushAddedIPSet. simpl. set_solver.
  - rewrite list_fmap_id, list_to_set_elements_L. done.
Qed.

Lemma flushIPSetDeltas_drains buf :
  run_fault (flushIPSetDeltas buf) = None ->
  pendingRemovedIPs (run_state (flushIPSetDeltas buf)) = ∅ /\
  pendingAddedIPs (run_state (flushIPSetDeltas buf)) = ∅.
Proof.
  unfold flushIPSetDeltas. intros [Hf1 Hf2]%andThen_fault_None.
  rewrite andThen_state by done.
  set (b1 := run_state (forEach flushAddsOrRemoves
                          (multidict_IterKeys (pendingRemovedIPs buf)) buf)) in *.
  assert (H1 : dom (pendingRemovedIPs b1) = ∅).
  { apply (forEach_drains (fun b => dom (pendingRemovedIPs b)) (fun x => x)); [| |done].
    - intros x b _. unfold flushAddsOrRemoves, multidict_DiscardKey. simpl.
      rewrite dom_delete_L. done.
    - unfold multidict_IterKeys. rewrite list_fmap_id, list_to_set_elements_L. done. }
  assert (H2 : dom (pendingAddedIPs (run_state (forEach flushAddsOrRemoves
                 (multidict_IterKeys (pendingAddedIPs b1)) b1))) = ∅).
  { apply (forEach_drains (fun b => dom (pendingAddedIPs b)) (fun x => x)); [| |done].
    - intros x b _. unfold flushAddsOrRemoves, multidict_DiscardKey. simpl.
      rewrite dom_delete_L. done.
    - unfold multidict_IterKeys. rewrite list_fmap_id, list_to_set_elements_L. done. }
  split; [|by apply dom_empty_iff_L].
  apply dom_empty_iff_L.
  assert (Hs : shrinks b1 (run_state (forEach flushAddsOrRemoves
                 (multidict_IterKeys (pendingAddedIPs b1)) b1))).
  { apply forEach_shrinks. intros x b. unfold flushAddsOrRemoves. solve_shrinks. }
  destruct Hs. set_solver.
Qed.

Ltac drain_map field :=
  intros Hf; apply dom_empty_iff_L; revert Hf;
  apply (forEach_drains (fun b => dom (field b)) fst);
  [ intros [k v] b; simpl; repeat case_match; simpl; try discriminate;
    intros _; rewrite ?dom_delete_L; done
  | rewrite <- dom_fst_map_to_list; done ].

Ltac drain_set field :=
  apply (forEach_drains field (fun x => x));
  [ intros x b; simpl; repeat case_match; simpl; try discriminate;
    intros _; set_solver
  | rewrite list_fmap_id, list_to_set_elements_L; done ].

Lemma flushPolicyUpdates_drains buf :
  run_fault (flushPolicyUpdates buf) = None ->
  pendingPolicyUpdates (run_state (flushPolicyUpdates buf)) = ∅.
Proof. unfold flushPolicyUpdates, flushPolicyUpdate. drain_map pendingPolicyUpdates. Qed.

Lemma flushProfileUpdates_drains buf :
  run_fault (flushProfileUpdates buf) = None ->
  pendingProfileUpdates (run_state (flushProfileUpdates buf)) = ∅.
Proof. unfold flushProfileUpdates, flushProfileUpdate. drain_map pendingProfileUpdates. Qed.

Lemma flushEndpointTierUpdates_drains buf :
  run_fault (flushEndpointTierUpdates buf) = None ->
  pendingEndpointUpdates (run_state (flushEndpointTierUpdates buf)) = ∅.
Proof.
  unfold flushEndpointTierUpdates, flushEndpointTierUpdate, recordEndpointSent.
  drain_map pendingEndpointUpdates.
Qed.

Lemma flushEndpointTierDeletes_drains buf :
  run_fault (flushEndpointTierDeletes buf) = None ->
  pendingEndpointDeletes (run_state (flushEndpointTierDeletes buf)) = ∅.
Proof.
  unfold flushEndpointTierDeletes, flushEndpointTierDelete. drain_set pendingEndpointDeletes.
Qed.

Lemma flushProfileDeletes_drains buf :
  run_fault (flushProfileDeletes buf) = None ->
  pendingProfileDeletes (run_state (flushProfileDeletes buf)) = ∅.
Proof. unfold flushProfileDeletes, flushProfileDelete. drain_set pendingProfileDeletes. Qed.

Lemma flushPolicyDeletes_drains buf :
  run_fault (flushPolicyDeletes buf) = None ->
  pendingPolicyDeletes (run_state (flushPolicyDeletes buf)) = ∅.
Proof. unfold flushPolicyDeletes, flushPolicyDelete. drain_set pendingPolicyDeletes. Qed.

Lemma flushRemovedIPSets_drains buf :
  run_fault (flushRemovedIPSets buf) = None ->
  pendingRemovedIPSets (run_state (flushRemovedIPSets buf)) = ∅.
Proof. unfold flushRemovedIPSets, flushRemovedIPSet. drain_set pendingRemovedIPSets. Qed.

Lemma flushHostIPDeletes_drains buf :
  run_fault (flushHostIPDeletes buf) = None ->
  pendingHostIPDeletes (run_state (flushHostIPDeletes buf)) = ∅.
Proof. unfold flushHostIPDeletes, flushHostIPDelete. drain_set pendingHostIPDeletes. Qed.

Lemma flushHostIPUpdates_drains buf :
  run_fault (flushHostIPUpdates buf) = None ->
  pendingHostIPUpdates (run_state (flushHostIPUpdates buf)) = ∅.
Proof. unfold flushHostIPUpdates, flushHostIPUpdate. drain_map pendingHostIPUpdates. Qed.

Lemma flushIPPoolDeletes_drains buf :
  run_fault (flushIPPoolDeletes buf) = None ->
  pendingIPPoolDeletes (run_state (flushIPPoolDeletes buf)) = ∅.
Proof. unfold flushIPPoolDeletes, flushIPPoolDelete. drain_set pendingIPPoolDeletes. Qed.

Lemma flushIPPoolUpdates_drains buf :
  run_fault (flushIPPoolUpdates buf) = None ->
  pendingIPPoolUpdates (run_state (flushIPPoolUpdates buf)) = ∅.
Proof. unfold flushIPPoolUpdates, flushIPPoolUpdate. drain_map pendingIPPoolUpdates. Qed.

Lemma forEach_cons {X : Type} (body : X -> EventSequencer -> FlushRun) x (l : list X) buf :
  forEach body (x :: l) buf = andThen (body x buf) (forEach body l).
Proof. reflexivity. Qed.

(** What the [i]-th step establishes when it returns, and what the later
    steps cannot undo, holds when [Flush] returns. *)
Lemma Flush_establishes (i : nat) (s : EventSequencer -> FlushRun)
    (E : EventSequencer -> Prop) buf :
  flushSteps !! i = Some s ->
  (forall b, run_fault (s b) = None -> E (run_state (s b))) ->
  (forall b b', shrinks b b' -> E b -> E b') ->
  run_fault (Flush buf) = None -> E (run_state (Flush buf)).
Proof.
  intros Hi Hs Hmono. rewrite Flush_forEach.
  rewrite <- (take_drop_middle flushSteps i s Hi).
  rewrite forEach_app. intros [Hf1 Hf2]%andThen_fault_None.
  rewrite andThen_state by done.
  set (b1 := run_state (forEach (fun s => s) (take i flushSteps) buf)) in *.
  rewrite forEach_cons in *. apply andThen_fault_None in Hf2 as [Hf2 Hf3].
  rewrite andThen_state by done.
  eapply Hmono; [|apply Hs; exact Hf2].
  apply steps_shrink. intros s' Hs'.
  apply list_elem_of_lookup in Hs' as [j Hj]. rewrite lookup_drop in Hj.
  by apply list_elem_of_lookup_2 in Hj.
Qed.

Lemma empty_mono_set {K : Type} `{Countable K} (X Y : gset K) : Y ⊆ X -> X = ∅ -> Y = ∅.
Proof. set_solver. Qed.

Lemma empty_mono_map {K A B : Type} `{Countable K} (m : gmap K A) (m' : gmap K B) :
  dom m' ⊆ dom m -> m = ∅ -> m' = ∅.
Proof. intros Hd ->. apply dom_empty_iff_L. rewrite dom_empty_L in Hd. set_solver. Qed.

Ltac establish i lem proj :=
  eapply (Flush_establishes i); [reflexivity| | |eassumption];
  [ intros b Hb; by apply lem
  | intros b b' Hs;
    first [ apply (empty_mono_set _ _ (proj b b' Hs))
          | apply (empty_mono_map _ _ (proj b b' Hs)) ] ].

Lemma Flush_drained buf : run_fault (Flush buf) = None -> Drained (run_state (Flush buf)).
Proof.
  intros Hf. split.
  - establish 2 flushAddedIPSets_drains shr_addedIPSets.
  - establish 10 flushRemovedIPSets_drains shr_removedIPSets.
  - establish 3 flushIPSetDeltas_drains shr_addedIPs.
  - establish 3 flushIPSetDeltas_drains shr_removedIPs.
  - establish 4 flushPolicyUpdates_drains shr_policyUpdates.
  - establish 9 flushPolicyDeletes_drains shr_policyDeletes.
  - establish 5 flushProfileUpdates_drains shr_profileUpdates.
  - establish 8 flushProfileDeletes_drains shr_profileDeletes.
  - establish 6 flushEndpointTierUpdates_drains shr_endpointUpdates.
  - establish 7 flushEndpointTierDeletes_drains shr_endpointDeletes.
  - establish 12 flushHostIPUpdates_drains shr_hostIPUpdates.
  - establish 11 flushHostIPDeletes_drains shr_hostIPDeletes.
  - establish 14 flushIPPoolUpdates_drains shr_ipPoolUpdates.
  - establish 13 flushIPPoolDeletes_drains shr_ipPoolDeletes.
  - eapply (Flush_establishes 0); [reflexivity| | |eassumption].
    + intros b _. apply flushReadyFlag_drains.
    + intros b b' Hs Hb. destruct (pendingNotReady b') eqn:E; [|done].
      rewrite <- Hb. symmetry. by apply (shr_notReady b b' Hs).
  - eapply (Flush_establishes 1); [reflexivity| | |eassumption].
    + intros b Hb. by apply flushConfigUpdate_drains.
    + intros b b' Hs. apply (shr_globalConfig b b' Hs).
Qed.

(** With nothing pending, [Flush] hands out nothing and changes nothing. *)
Lemma Flush_of_drained buf : Drained buf -> Flush buf = done buf.
Proof.
  intros []. rewrite Flush_forEach. unfold flushSteps.
  assert (H1 : flushReadyFlag buf = done buf).
  { unfold flushReadyFlag. by rewrite dr_notReady0. }
  assert (H2 : flushConfigUpdate buf = done buf).
  { unfold flushConfigUpdate. by rewrite dr_globalConfig0. }
  assert (H3 : flushAddedIPSets buf = done buf).
  { unfold flushAddedIPSets. by rewrite dr_addedIPSets0, elements_empty. }
  assert (H4 : flushIPSetDeltas buf = done buf).
  { unfold flushIPSetDeltas, multidict_IterKeys.
    rewrite dr_removedIPs0, dom_empty_L, elements_empty. simpl.
    rewrite andThen_done_l.
    by rewrite dr_addedIPs0, dom_empty_L, elements_empty. }
  assert (H5 : flushPolicyUpdates buf = done buf).
  { unfold flushPolicyUpdates. by rewrite dr_policyUpdates0, map_to_list_empty. }
  assert (H6 : flushProfileUpdates buf = done buf).
  { unfold flushProfileUpdates. by rewrite dr_profileUpdates0, map_to_list_empty. }
  assert (H7 : flushEndpointTierUpdates buf = done buf).
  { unfold flushEndpointTierUpdates. by rewrite dr_endpointUpdates0, map_to_list_empty. }
  assert (H8 : flushEndpointTierDeletes buf = done buf).
  { unfold flushEndpointTierDeletes. by rewrite dr_endpointDeletes0, elements_empty. }
  assert (H9 : flushProfileDeletes buf = done buf).
  { unfold flushProfileDeletes. by rewrite dr_profileDeletes0, elements_empty. }
  assert (H10 : flushPolicyDeletes buf = done buf).
  { unfold flushPolicyDeletes. by rewrite dr_policyDeletes0, elements_empty. }
  assert (H11 : flushRemovedIPSets buf = done buf).
  { unfold flushRemovedIPSets. by rewrite dr_removedIPSets0, elements_empty. }
  assert (H12 : flushHostIPDeletes buf = done buf).
  { unfold flushHostIPDeletes. by rewrite dr_hostIPDeletes0, elements_empty. }
  assert (H13 : flushHostIPUpdates buf = done buf).
  { unfold flushHostIPUpdates. by rewrite dr_hostIPUpdates0, map_to_list_empty. }
  assert (H14 : flushIPPoolDeletes buf = done buf).
  { unfold flushIPPoolDeletes. by rewrite dr_ipPoolDeletes0, elements_empty. }
  assert (H15 : flushIPPoolUpdates buf = done buf).
  { unfold flushIPPoolUpdates. by rewrite dr_ipPoolUpdates0, map_to_list_empty. }
  rewrite forEach_cons, H1, andThen_done_l.
  rewrite forEach_cons, H2, andThen_done_l.
  rewrite forEach_cons, H3, andThen_done_l.
  rewrite forEach_cons, H4, andThen_done_l.
  rewrite forEach_cons, H5, andThen_done_l.
  rewrite forEach_cons, H6, andThen_done_l.
  rewrite forEach_cons, H7, andThen_done_l.
  rewrite forEach_cons, H8, andThen_done_l.
  rewrite forEach_cons, H9, andThen_done_l.
  rewrite forEach_cons, H10, andThen_done_l.
  rewrite forEach_cons, H11, andThen_done_l.
  rewrite forEach_cons, H12, andThen_done_l.
  rewrite forEach_cons, H13, andThen_done_l.
  rewrite forEach_cons, H14, andThen_done_l.
  rewrite forEach_cons, H15, andThen_done_l.
  reflexivity.
Qed.

(** When a call of [Flush] returns, a second call right after it hands
    out no message: it returns as well and leaves the state as the first
    call left it. *)
Lemma Flush_second_silent (buf : EventSequencer) :
  run_fault (Flush buf) = None ->
  run_out (Flush (run_state (Flush buf))) = [] /\
  run_fault (Flush (run_state (Flush buf))) = None /\
  run_state (Flush (run_state (Flush buf))) = run_state (Flush buf).
Proof.
  intros Hf. pose proof (Flush_drained buf Hf) as Hd. revert Hd.
  generalize (run_state (Flush buf)). intros b Hd.
  rewrite (Flush_of_drained b Hd). repeat split.
Qed.

(** *** The multimap of pending IPs *)

Lemma multidict_Contains_spec (k : string) (v : Addr) (m : gmap string (gset Addr)) :
  multidict_Contains k v m = true <-> exists s, m !! k = Some s /\ v ∈ s.
Proof.
  unfold multidict_Contains. destruct (m !! k) as [s|].
  - rewrite bool_decide_eq_true. naive_solver.
  - naive_solver.
Qed.

Lemma multidict_Contains_Put k v k' v' (m : gmap string (gset Addr)) :
  multidict_Contains k v (multidict_Put k' v' m) = true <->
  (k = k' /\ v = v') \/ multidict_Contains k v m = true.
Proof.
  rewrite !multidict_Contains_spec. unfold multidict_Put.
  destruct (decide (k = k')) as [->|Hne].
  - rewrite lookup_insert_eq. split.
    + intros (s & [= <-] & Hv). apply elem_of_union in Hv as [Hv|Hv].
      * left. apply elem_of_singleton in Hv. done.
      * right. destruct (m !! k') as [s'|]; simpl in Hv; [eauto|set_solver].
    + intros [[_ ->]|(s & Hs & Hv)].
      * eexists. split; [reflexivity|]. set_solver.
      * eexists. split; [reflexivity|]. rewrite Hs. simpl. set_solver.
  - rewrite lookup_insert_ne by done. naive_solver.
Qed.

Lemma multidict_Contains_Discard k v k' v' (m : gmap string (gset Addr)) :
  multidict_Contains k v (multidict_Discard k' v' m) = true <->
  multidict_Contains k v m = true /\ ~ (k = k' /\ v = v').
Proof.
  rewrite !multidict_Contains_spec. unfold multidict_Discard.
  destruct (m !! k') as [s'|] eqn:Hk'; [|naive_solver].
  destruct (decide (k = k')) as [->|Hne].
  - case_decide as Hemp.
    + rewrite lookup_delete_eq. split; [naive_solver|].
      intros [(s & Hs & Hv) Hn]. assert (s = s') as -> by congruence. exfalso.
      assert (v ∈ s' ∖ {[v']}) as Hin.
      { apply elem_of_difference. split; [done|]. rewrite elem_of_singleton. naive_solver. }
      rewrite Hemp in Hin. by apply not_elem_of_empty in Hin.
    + rewrite lookup_insert_eq. split.
      * intros (s & [= <-] & Hv). apply elem_of_difference in Hv as [Hv Hv'].
        rewrite elem_of_singleton in Hv'. split; [eauto|naive_solver].
      * intros [(s & Hs & Hv) Hn]. assert (s = s') as -> by congruence.
        eexists. split; [done|].
        apply elem_of_difference. split; [done|]. rewrite elem_of_singleton. naive_solver.
  - case_decide.
    + rewrite lookup_delete_ne by done. naive_solver.
    + rewrite lookup_insert_ne by done. naive_solver.
Qed.

Lemma multidict_Contains_DiscardKey k v k' (m : gmap string (gset Addr)) :
  multidict_Contains k v (multidict_DiscardKey k' m) = true <->
  multidict_Contains k v m = true /\ k <> k'.
Proof.
  rewrite !multidict_Contains_spec. unfold multidict_DiscardKey.
  destruct (decide (k = k')) as [->|Hne].
  - rewrite lookup_delete_eq. naive_solver.
  - rewrite lookup_delete_ne by done. naive_solver.
Qed.

Lemma multidict_Iter_DiscardKey_ne k k' (m : gmap string (gset Addr)) :
  k <> k' -> multidict_Iter k (multidict_DiscardKey k' m) = multidict_Iter k m.
Proof.
  intros Hne. unfold multidict_Iter, multidict_DiscardKey.
  by rewrite lookup_delete_ne.
Qed.

(** *** Invariants of the pending state *)

Ltac solve_sets :=
  simpl; unfold multidict_DiscardKey; rewrite ?dom_insert_L, ?dom_delete_L;
  first [ assumption | done | set_solver ].

Ltac solve_ips H :=
  let k := fresh "k" in let v := fresh "v" in
  simpl; intros k v;
  rewrite ?multidict_Contains_Put, ?multidict_Contains_Discard,
          ?multidict_Contains_DiscardKey;
  specialize (H k v); naive_solver.

Ltac solve_disjoint :=
  match goal with
  | H : PendingDisjoint _ |- _ =>
      let H1 := fresh "Hd" in let Hips := fresh "Hips" in
      destruct H as [H1 Hips ? ? ? ? ?];
      repeat case_bool_decide; repeat case_match; simplify_eq;
      (split; [clear Hips; solve_sets | solve_ips Hips | clear Hips; solve_sets ..])
  end.

Lemma OnIPSetAdded_disjoint setID buf buf' :
  OnIPSetAdded setID buf = Ok buf' -> PendingDisjoint buf -> PendingDisjoint buf'.
Proof. unfold OnIPSetAdded. intros Hc Hinv. solve_disjoint. Qed.

Lemma OnIPSetRemoved_disjoint setID buf buf' :
  OnIPSetRemoved setID buf = Ok buf' -> PendingDisjoint buf -> PendingDisjoint buf'.
Proof. unfold OnIPSetRemoved. intros Hc Hinv. solve_disjoint. Qed.

Lemma OnIPAdded_disjoint setID ip buf buf' :
  OnIPAdded setID ip buf = Ok buf' -> PendingDisjoint buf -> PendingDisjoint buf'.
Proof.
  unfold OnIPAdded. intros Hc Hinv.
  destruct (multidict_Contains setID ip (pendingRemovedIPs buf)) eqn:E;
    [|apply not_true_iff_false in E]; solve_disjoint.
Qed.

Lemma OnIPRemoved_disjoint setID ip buf buf' :
  OnIPRemoved setID ip buf = Ok buf' -> PendingDisjoint buf -> PendingDisjoint buf'.
Proof.
  unfold OnIPRemoved. intros Hc Hinv.
  destruct (multidict_Contains setID ip (pendingAddedIPs buf)) eqn:E;
    [|apply not_true_iff_false in E]; solve_disjoint.
Qed.

Ltac solve_pools H :=
  simpl;
  first [ exact H
        | let item := fresh "item" in
          intros item; specialize (H item); simpl in H;
          set_unfold; naive_solver ].

Ltac solve_sent :=
  match goal with
  | H : DeletesSent _ |- _ =>
      let Hpools := fresh "Hpools" in
      destruct H as [? ? ? ? ? Hpools];
      repeat case_bool_decide; repeat case_match; simplify_eq;
      (split; [clear Hpools; solve_sets .. | solve_pools Hpools])
  end.

Lemma perform_disjoint_input (c : Call) buf buf' :
  c <> CallFlush -> perform c buf = Ok buf' -> PendingDisjoint buf -> PendingDisjoint buf'.
Proof.
  intros Hc Hp Hinv. destruct c; simpl in Hp; try done.
  - by eapply OnIPSetAdded_disjoint.
  - by eapply OnIPSetRemoved_disjoint.
  - by eapply OnIPAdded_disjoint.
  - by eapply OnIPRemoved_disjoint.
  - unfold OnDatastoreNotReady in Hp. solve_disjoint.
  - unfold OnConfigUpdate in Hp. solve_disjoint.
  - unfold OnPolicyActive in Hp. solve_disjoint.
  - unfold OnPolicyInactive in Hp. solve_disjoint.
  - unfold OnProfileActive in Hp. solve_disjoint.
  - unfold OnProfileInactive in Hp. solve_disjoint.
  - unfold OnEndpointTierUpdate in Hp. solve_disjoint.
  - unfold OnHostIPUpdate in Hp. solve_disjoint.
  - unfold OnHostIPRemove in Hp. solve_disjoint.
  - unfold OnIPPoolUpdate in Hp. solve_disjoint.
  - unfold OnIPPoolRemove in Hp. solve_disjoint.
Qed.

Lemma perform_sent_input (c : Call) buf buf' :
  c <> CallFlush -> perform c buf = Ok buf' -> DeletesSent buf -> DeletesSent buf'.
Proof.
  intros Hc Hp Hinv. destruct c; simpl in Hp; try done.
  - unfold OnIPSetAdded in Hp. solve_sent.
  - unfold OnIPSetRemoved in Hp. solve_sent.
  - unfold OnIPAdded in Hp. solve_sent.
  - unfold OnIPRemoved in Hp. solve_sent.
  - unfold OnDatastoreNotReady in Hp. solve_sent.
  - unfold OnConfigUpdate in Hp. solve_sent.
  - unfold OnPolicyActive in Hp. solve_sent.
  - unfold OnPolicyInactive in Hp. solve_sent.
  - unfold OnProfileActive in Hp. solve_sent.
  - unfold OnProfileInactive in Hp. solve_sent.
  - unfold OnEndpointTierUpdate in Hp. solve_sent.
  - unfold OnHostIPUpdate in Hp. solve_sent.
  - unfold OnHostIPRemove in Hp. solve_sent.
  - unfold OnIPPoolUpdate in Hp. solve_sent.
  - unfold OnIPPoolRemove in Hp. solve_sent.
Qed.
Lemma andThen_state_ind (P : EventSequencer -> Prop) r step :
  P (run_state r) -> (forall b, P b -> P (run_state (step b))) ->
  P (run_state (andThen r step)).
Proof. intros Hr Hs. unfold andThen. destruct (run_fault r); simpl; auto. Qed.

Ltac loop_inv :=
  lazymatch goal with
  | |- ?P (run_state (forEach _ _ _)) =>
      apply (forEach_state_ind P); [|assumption];
      let x := fresh "x" in let b := fresh "b" in let Hb := fresh "Hb" in
      clear; intros x b _ Hb
  end.

Lemma flushSteps_disjoint (s : EventSequencer -> FlushRun) buf :
  s ∈ flushSteps -> PendingDisjoint buf -> PendingDisjoint (run_state (s buf)).
Proof.
  unfold flushSteps. intros Hs Hinv.
  repeat (apply elem_of_cons in Hs; destruct Hs as [->|Hs]);
    [..|by apply elem_of_nil in Hs].
  - unfold flushReadyFlag. solve_disjoint.
  - unfold flushConfigUpdate. solve_disjoint.
  - unfold flushAddedIPSets. loop_inv. unfold flushAddedIPSet. solve_disjoint.
  - unfold flushIPSetDeltas. apply andThen_state_ind; [|clear; intros buf Hinv];
      loop_inv; unfold flushAddsOrRemoves; solve_disjoint.
  - unfold flushPolicyUpdates. loop_inv. unfold flushPolicyUpdate. solve_disjoint.
  - unfold flushProfileUpdates. loop_inv. unfold flushProfileUpdate. solve_disjoint.
  - unfold flushEndpointTierUpdates. loop_inv. unfold flushEndpointTierUpdate, recordEndpointSent. solve_disjoint.
  - unfold flushEndpointTierDeletes. loop_inv. unfold flushEndpointTierDelete. solve_disjoint.
  - unfold flushProfileDeletes. loop_inv. unfold flushProfileDelete. solve_disjoint.
  - unfold flushPolicyDeletes. loop_inv. unfold flushPolicyDelete. solve_disjoint.
  - unfold flushRemovedIPSets. loop_inv. unfold flushRemovedIPSet. solve_disjoint.
  - unfold flushHostIPDeletes. loop_inv. unfold flushHostIPDelete. solve_disjoint.
  - unfold flushHostIPUpdates. loop_inv. unfold flushHostIPUpdate. solve_disjoint.
  - unfold flushIPPoolDeletes. loop_inv. unfold flushIPPoolDelete. solve_disjoint.
  - unfold flushIPPoolUpdates. loop_inv. unfold flushIPPoolUpdate. solve_disjoint.
Qed.

Lemma flushSteps_sent (s : EventSequencer -> FlushRun) buf :
  s ∈ flushSteps -> DeletesSent buf -> DeletesSent (run_state (s buf)).
Proof.
  unfold flushSteps. intros Hs Hinv.
  repeat (apply elem_of_cons in Hs; destruct Hs as [->|Hs]);
    [..|by apply elem_of_nil in Hs].
  - unfold flushReadyFlag. solve_sent.
  - unfold flushConfigUpdate. solve_sent.
  - unfold flushAddedIPSets. loop_inv. unfold flushAddedIPSet. solve_sent.
  - unfold flushIPSetDeltas. apply andThen_state_ind; [|clear; intros buf Hinv];
      loop_inv; unfold flushAddsOrRemoves; solve_sent.
  - unfold flushPolicyUpdates. loop_inv. unfold flushPolicyUpdate. solve_sent.
  - unfold flushProfileUpdates. loop_inv. unfold flushProfileUpdate. solve_sent.
  - unfold flushEndpointTierUpdates. loop_inv. unfold flushEndpointTierUpdate, recordEndpointSent. solve_sent.
  - unfold flushEndpointTierDeletes. loop_inv. unfold flushEndpointTierDelete. solve_sent.
  - unfold flushProfileDeletes. loop_inv. unfold flushProfileDelete. solve_sent.
  - unfold flushPolicyDeletes. loop_inv. unfold flushPolicyDelete. solve_sent.
  - unfold flushRemovedIPSets. loop_inv. unfold flushRemovedIPSet. solve_sent.
  - unfold flushHostIPDeletes. loop_inv. unfold flushHostIPDelete. solve_sent.
  - unfold flushHostIPUpdates. loop_inv. unfold flushHostIPUpdate. solve_sent.
  - unfold flushIPPoolDeletes. loop_inv. unfold flushIPPoolDelete. solve_sent.
  - unfold flushIPPoolUpdates. loop_inv. unfold flushIPPoolUpdate. solve_sent.
Qed.

Lemma Flush_disjoint buf : PendingDisjoint buf -> PendingDisjoint (run_state (Flush buf)).
Proof.
  intros Hinv. rewrite Flush_forEach. apply forEach_state_ind; [|done].
  intros s b Hs Hb. by apply flushSteps_disjoint.
Qed.

Lemma Flush_sent buf : DeletesSent buf -> DeletesSent (run_state (Flush buf)).
Proof.
  intros Hinv. rewrite Flush_forEach. apply forEach_state_ind; [|done].
  intros s b Hs Hb. by apply flushSteps_sent.
Qed.

Lemma perform_Flush buf buf' :
  perform CallFlush buf = Ok buf' ->
  run_fault (Flush buf) = None /\ buf' = run_state (Flush buf).
Proof. simpl. destruct (run_fault (Flush buf)); [done|]. by intros [= <-]. Qed.

(** Between two calls, no IP set, IP, policy, profile, endpoint or host
    IP is pending both ways, and every pending delete is of something
    sent. *)
Lemma reachable_invariant buf : reachable buf -> PendingDisjoint buf /\ DeletesSent buf.
Proof.
  induction 1 as [conf|c buf buf' Hr [IH1 IH2] Hp].
  - split; split; simpl; try done.
  - assert (Hc : c = CallFlush \/ c <> CallFlush) by (destruct c; auto).
    destruct Hc as [->|Hc].
    + apply perform_Flush in Hp as [_ ->]. split; [by apply Flush_disjoint|by apply Flush_sent].
    + split; [by eapply perform_disjoint_input|by eapply perform_sent_input].
Qed.

(** *** Where the messages of a flush come from *)

(** The state in which the [i]-th step of [Flush], counted from 0, starts. *)
Lemma forEach_out_at {X : Type} (body : X -> EventSequencer -> FlushRun) items buf m :
  m ∈ run_out (forEach body items buf) ->
  exists i x, items !! i = Some x /\
    run_fault (forEach body (take i items) buf) = None /\
    m ∈ run_out (body x (run_state (forEach body (take i items) buf))).
Proof.
  revert buf. induction items as [|x items IH]; intros buf; simpl.
  - by intros ?%elem_of_nil.
  - intros [Hm|[Hf Hm]]%andThen_out_elem.
    + exists 0, x. simpl. done.
    + destruct (IH _ Hm) as (i & y & Hi & Hfi & Hmi).
      exists (S i), y. simpl. rewrite andThen_fault, andThen_state by done. done.
Qed.

Lemma forEach_out_item {X : Type} (body : X -> EventSequencer -> FlushRun) items buf m :
  m ∈ run_out (forEach body items buf) ->
  exists x b, x ∈ items /\ m ∈ run_out (body x b).
Proof.
  intros (i & x & Hi & _ & Hm)%forEach_out_at.
  eexists x, _. split; [|exact Hm]. by eapply list_elem_of_lookup_2.
Qed.

Lemma forEach_never_faults {X : Type} (body : X -> EventSequencer -> FlushRun) items buf :
  (forall x b, run_fault (body x b) = None) ->
  run_fault (forEach body items buf) = None.
Proof.
  intros Hbody. revert buf. induction items as [|x items IH]; intros buf; simpl; [done|].
  rewrite andThen_fault by apply Hbody. apply IH.
Qed.

Lemma Flush_out_at buf m :
  m ∈ run_out (Flush buf) ->
  exists i s, flushSteps !! i = Some s /\ stage m = S i /\
    run_fault (forEach (fun s => s) (take i flushSteps) buf) = None /\
    m ∈ run_out (s (run_state (forEach (fun s => s) (take i flushSteps) buf))).
Proof.
  rewrite Flush_forEach. intros (i & s & Hi & Hf & Hm)%forEach_out_at.
  exists i, s. repeat split; try done. by eapply flushSteps_stage.
Qed.

(** A field that none of the first [i] steps changes. *)
Lemma prefix_frame {A : Type} (field : EventSequencer -> A) (i : nat) buf :
  (forall s b, s ∈ take i flushSteps -> field (run_state (s b)) = field b) ->
  field (run_state (forEach (fun s => s) (take i flushSteps) buf)) = field buf.
Proof.
  intros Hsteps.
  apply (forEach_state_ind (fun b => field b = field buf)); [|done].
  intros s b Hs <-. by apply Hsteps.
Qed.

Lemma prefix_shrinks (i : nat) buf :
  shrinks buf (run_state (forEach (fun s => s) (take i flushSteps) buf)).
Proof.
  apply steps_shrink. apply subseteq_take.
Qed.

Lemma andThen_frame {A : Type} (field : EventSequencer -> A) r step buf :
  field (run_state r) = field buf ->
  (forall b, field (run_state (step b)) = field b) ->
  field (run_state (andThen r step)) = field buf.
Proof.
  intros Hr Hs. unfold andThen. destruct (run_fault r); simpl; [done|].
  by rewrite Hs.
Qed.

Ltac frame_body := intros; simpl; repeat case_match; reflexivity.

Ltac frame_step :=
  first
    [ apply forEach_frame; frame_body
    | apply andThen_frame; [apply forEach_frame; frame_body
                           |intros; apply forEach_frame; frame_body]
    | frame_body ].

(** The first two steps leave the pending IP sets and IPs alone. *)
Lemma before_flushAddedIPSets buf :
  let b := run_state (forEach (fun s => s) (take 2 flushSteps) buf) in
  pendingAddedIPSets b = pendingAddedIPSets buf /\
  pendingAddedIPs b = pendingAddedIPs buf /\
  pendingRemovedIPs b = pendingRemovedIPs buf /\
  pendingRemovedIPSets b = pendingRemovedIPSets buf.
Proof.
  cbv zeta. repeat split; apply prefix_frame; unfold flushSteps; simpl;
    intros s b Hs;
    repeat (apply elem_of_cons in Hs; destruct Hs as [->|Hs]);
    try (by apply elem_of_nil in Hs);
    unfold flushReadyFlag, flushConfigUpdate; frame_body.
Qed.

(** The first six steps leave the pending endpoint updates alone. *)
Lemma before_flushEndpointTierUpdates buf :
  let b := run_state (forEach (fun s => s) (take 6 flushSteps) buf) in
  pendingEndpointUpdates b = pendingEndpointUpdates buf /\
  pendingEndpointTierUpdates b = pendingEndpointTierUpdates buf.
Proof.
  cbv zeta. split; apply prefix_frame; unfold flushSteps; simpl;
    intros s b Hs;
    repeat (apply elem_of_cons in Hs; destruct Hs as [->|Hs]);
    try (by apply elem_of_nil in Hs);
    unfold flushReadyFlag, flushConfigUpdate, flushAddedIPSets, flushAddedIPSet,
      flushIPSetDeltas, flushAddsOrRemoves, flushPolicyUpdates, flushPolicyUpdate,
      flushProfileUpdates, flushProfileUpdate;
    frame_step.
Qed.

(** The message of [flushAddedIPSets] for one set. *)
Lemma flushAddedIPSets_loop (items : list string) buf :
  NoDup items ->
  run_out (forEach flushAddedIPSet items buf) =
  (fun s => IPSetUpdate s (Addr_String <$> multidict_Iter s (pendingAddedIPs buf))) <$> items.
Proof.
  revert buf. induction items as [|x items IH]; intros buf Hnd; [done|].
  apply NoDup_cons in Hnd as [Hx Hnd].
  rewrite forEach_cons, andThen_out by done. rewrite fmap_cons. simpl run_out at 1.
  simpl. f_equal.
  rewrite IH by done. apply list_fmap_ext. intros i s Hs. simpl.
  rewrite multidict_Iter_DiscardKey_ne; [done|].
  intros ->. apply Hx. by eapply list_elem_of_lookup_2.
Qed.

Lemma flushAddedIPSets_out buf :
  run_out (flushAddedIPSets buf) =
  (fun s => IPSetUpdate s (Addr_String <$> multidict_Iter s (pendingAddedIPs buf)))
    <$> elements (pendingAddedIPSets buf).
Proof. unfold flushAddedIPSets. apply flushAddedIPSets_loop, NoDup_elements. Qed.

Lemma flushAddedIPSets_returns buf : run_fault (flushAddedIPSets buf) = None.
Proof. unfold flushAddedIPSets. by apply forEach_never_faults. Qed.

(** After [flushAddedIPSets], no added set has pending IP adds left. *)
Lemma flushAddedIPSets_post buf :
  dom (pendingAddedIPs (run_state (flushAddedIPSets buf)))
    ⊆ dom (pendingAddedIPs buf) ∖ pendingAddedIPSets buf.
Proof.
  unfold flushAddedIPSets.
  pose proof (forEach_inv_end
    (fun rest b => dom (pendingAddedIPs b)
        ⊆ dom (pendingAddedIPs buf) ∖ (pendingAddedIPSets buf ∖ list_to_set rest))
    flushAddedIPSet (elements (pendingAddedIPSets buf)) buf) as Hend.
  simpl in Hend. etrans; [apply Hend|].
  - intros x rest b Hb _. unfold multidict_DiscardKey. rewrite dom_delete_L.
    intros k Hk. apply elem_of_difference in Hk as [Hk Hkx].
    apply Hb in Hk. set_solver.
  - rewrite list_to_set_elements_L. set_solver.
  - by apply forEach_never_faults.
  - set_solver.
Qed.

Lemma flushIPSetDeltas_out buf m :
  m ∈ run_out (flushIPSetDeltas buf) ->
  exists s added removed, m = IPSetDeltaUpdate s added removed /\
    (s ∈ dom (pendingRemovedIPs buf) \/ s ∈ dom (pendingAddedIPs buf)).
Proof.
  unfold flushIPSetDeltas. intros [Hm|[_ Hm]]%andThen_out_elem.
  - apply forEach_out_item in Hm as (x & b & Hx & Hm).
    unfold flushAddsOrRemoves in Hm. simpl in Hm.
    apply list_elem_of_singleton in Hm as ->.
    eexists _, _, _. split; [done|]. left.
    unfold multidict_IterKeys in Hx. by apply elem_of_elements in Hx.
  - apply forEach_out_item in Hm as (x & b & Hx & Hm).
    unfold flushAddsOrRemoves in Hm. simpl in Hm.
    apply list_elem_of_singleton in Hm as ->.
    eexists _, _, _. split; [done|]. right.
    unfold multidict_IterKeys in Hx. apply elem_of_elements in Hx.
    assert (Hs : shrinks buf (run_state (forEach flushAddsOrRemoves
                   (elements (dom (pendingRemovedIPs buf))) buf))).
    { apply forEach_shrinks. intros y b'. unfold flushAddsOrRemoves. solve_shrinks. }
    by apply (shr_addedIPs _ _ Hs).
Qed.

Lemma flushRemovedIPSets_out buf m :
  m ∈ run_out (flushRemovedIPSets buf) ->
  exists s, m = IPSetRemove s /\ s ∈ pendingRemovedIPSets buf.
Proof.
  unfold flushRemovedIPSets. intros (x & b & Hx & Hm)%forEach_out_item.
  unfold flushRemovedIPSet in Hm. simpl in Hm.
  apply list_elem_of_singleton in Hm as ->.
  exists x. split; [done|]. by apply elem_of_elements in Hx.
Qed.

Lemma flushEndpointTierDeletes_out buf m :
  m ∈ run_out (flushEndpointTierDeletes buf) ->
  exists key, key ∈ pendingEndpointDeletes buf /\ endpointOf m = endpointIDOfKey key /\
    endpointOf m <> None.
Proof.
  unfold flushEndpointTierDeletes. intros (x & b & Hx & Hm)%forEach_out_item.
  apply elem_of_elements in Hx. exists x. split; [done|].
  unfold flushEndpointTierDelete in Hm. destruct x; simpl in Hm;
    [apply list_elem_of_singleton in Hm as ->; by simpl..|by apply elem_of_nil in Hm].
Qed.

(** What [flushEndpointTierUpdate] hands out depends on the state only
    through the tiers stored for the key. *)
Lemma flushEndpointTierUpdate_out_ext kv b b' :
  pendingEndpointTierUpdates b' !! kv.1 = pendingEndpointTierUpdates b !! kv.1 ->
  run_out (flushEndpointTierUpdate kv b') = run_out (flushEndpointTierUpdate kv b).
Proof.
  destruct kv as [key ep]. simpl. intros Heq. unfold flushEndpointTierUpdate.
  rewrite Heq. repeat case_match; reflexivity.
Qed.

Lemma flushEndpointTierUpdates_out buf m :
  m ∈ run_out (flushEndpointTierUpdates buf) ->
  exists key ep, pendingEndpointUpdates buf !! key = Some ep /\
    m ∈ run_out (flushEndpointTierUpdate (key, ep) buf).
Proof.
  unfold flushEndpointTierUpdates.
  pose proof (NoDup_fst_map_to_list (pendingEndpointUpdates buf)) as Hnd.
  assert (Hin : forall kv, kv ∈ map_to_list (pendingEndpointUpdates buf) ->
            pendingEndpointUpdates buf !! kv.1 = Some kv.2).
  { intros [k e] Hkv. by apply elem_of_map_to_list in Hkv. }
  revert Hnd Hin. generalize (map_to_list (pendingEndpointUpdates buf)). intros items Hnd Hin.
  apply (forEach_out_ind
    (fun rest b => NoDup rest.*1 /\ (forall kv, kv ∈ rest -> kv ∈ items) /\
       forall kv, kv ∈ rest ->
         pendingEndpointTierUpdates b !! kv.1 = pendingEndpointTierUpdates buf !! kv.1)
    (fun m => exists key ep, pendingEndpointUpdates buf !! key = Some ep /\
       m ∈ run_out (flushEndpointTierUpdate (key, ep) buf))).
  - intros [k e] rest b (Hnd' & Hsub & Htiers). split.
    + intros m' Hm'. exists k, e. split; [apply (Hin (k, e)); apply Hsub; left|].
      rewrite <- (flushEndpointTierUpdate_out_ext (k, e) buf b); [done|].
      apply (Htiers (k, e)). left.
    + intros _. simpl in Hnd'. apply NoDup_cons in Hnd' as [Hk Hnd'].
      split; [done|]. split; [intros kv Hkv; apply Hsub; by right|].
      intros kv Hkv. rewrite <- (Htiers kv) by (by right).
      assert (kv.1 <> k) as Hne.
      { intros <-. apply Hk. apply list_elem_of_fmap. by exists kv. }
      unfold flushEndpointTierUpdate, recordEndpointSent.
      repeat case_match; simpl; rewrite ?lookup_delete_ne; done.
  - split; [done|]. split; [done|]. done.
Qed.

Lemma prefix_S (i : nat) (s : EventSequencer -> FlushRun) buf :
  flushSteps !! i = Some s ->
  run_fault (forEach (fun s => s) (take (S i) flushSteps) buf) = None ->
  run_fault (forEach (fun s => s) (take i flushSteps) buf) = None /\
  run_state (forEach (fun s => s) (take (S i) flushSteps) buf) =
    run_state (s (run_state (forEach (fun s => s) (take i flushSteps) buf))).
Proof.
  intros Hi. rewrite (take_S_r _ _ _ Hi), forEach_app.
  intros [Hf1 Hf2]%andThen_fault_None. split; [done|].
  rewrite andThen_state by done. rewrite forEach_cons.
  rewrite andThen_state; [done|].
  rewrite forEach_cons in Hf2. by apply andThen_fault_None in Hf2 as [? _].
Qed.

(** The IP set messages of a flush, read off the state it starts in. *)
Lemma Flush_ipset_origin buf m :
  m ∈ run_out (Flush buf) ->
  match m with
  | IPSetUpdate s members =>
      s ∈ pendingAddedIPSets buf /\
      members = Addr_String <$> multidict_Iter s (pendingAddedIPs buf)
  | IPSetDeltaUpdate s _ _ =>
      s ∈ dom (pendingRemovedIPs buf) \/
      (s ∈ dom (pendingAddedIPs buf) /\ s ∉ pendingAddedIPSets buf)
  | IPSetRemove s => s ∈ pendingRemovedIPSets buf
  | _ => True
  end.
Proof.
  intros (i & st & Hi & Hst & Hf & Hm)%Flush_out_at.
  destruct m; try done; simpl in Hst; injection Hst as <-;
    injection Hi as <-.
  - destruct (before_flushAddedIPSets buf) as (E1 & E2 & _ & _).
    rewrite flushAddedIPSets_out, E1, E2 in Hm.
    apply list_elem_of_fmap in Hm as (s & [= -> ->] & Hs).
    split; [by apply elem_of_elements in Hs|done].
  - apply flushIPSetDeltas_out in Hm as (s & a & r & [= -> -> ->] & Hs).
    apply (prefix_S 2 flushAddedIPSets) in Hf as [Hf Hst]; [|done].
    rewrite Hst in Hs.
    destruct (before_flushAddedIPSets buf) as (E1 & E2 & E3 & _).
    destruct Hs as [Hs|Hs].
    + left. rewrite <- E3.
      assert (Hsh : shrinks (run_state (forEach (fun s => s) (take 2 flushSteps) buf))
                (run_state (flushAddedIPSets
                   (run_state (forEach (fun s => s) (take 2 flushSteps) buf))))).
      { apply flushSteps_shrink. unfold flushSteps. set_solver. }
      by apply (shr_removedIPs _ _ Hsh).
    + right. apply flushAddedIPSets_post in Hs. rewrite E1, E2 in Hs. set_solver.
  - apply flushRemovedIPSets_out in Hm as (s & [= ->] & Hs).
    by apply (shr_removedIPSets _ _ (prefix_shrinks 10 buf)).
Qed.

(** The endpoint messages of a flush, read off the state it starts in. *)
Lemma Flush_endpoint_origin buf m :
  m ∈ run_out (Flush buf) ->
  match m with
  | WorkloadEndpointUpdate _ _ | HostEndpointUpdate _ _ =>
      exists key ep, pendingEndpointUpdates buf !! key = Some ep /\
        m ∈ run_out (flushEndpointTierUpdate (key, ep) buf)
  | WorkloadEndpointRemove _ | HostEndpointRemove _ =>
      exists key, key ∈ pendingEndpointDeletes buf /\ endpointOf m = endpointIDOfKey key
  | _ => True
  end.
Proof.
  intros (i & st & Hi & Hst & Hf & Hm)%Flush_out_at.
  destruct (before_flushEndpointTierUpdates buf) as (E1 & E2).
  destruct m; try done; simpl in Hst; injection Hst as <-;
    injection Hi as <-.
  - apply flushEndpointTierUpdates_out in Hm as (key & ep & Hk & Hm).
    exists key, ep. rewrite <- E1. split; [done|].
    rewrite <- (flushEndpointTierUpdate_out_ext (key, ep) _ _ (f_equal (.!! key) E2)). done.
  - apply flushEndpointTierDeletes_out in Hm as (key & Hk & He & _).
    exists key. split; [|done]. by apply (shr_endpointDeletes _ _ (prefix_shrinks 7 buf)).
  - apply flushEndpointTierUpdates_out in Hm as (key & ep & Hk & Hm).
    exists key, ep. rewrite <- E1. split; [done|].
    rewrite <- (flushEndpointTierUpdate_out_ext (key, ep) _ _ (f_equal (.!! key) E2)). done.
  - apply flushEndpointTierDeletes_out in Hm as (key & Hk & He & _).
    exists key. split; [|done]. by apply (shr_endpointDeletes _ _ (prefix_shrinks 7 buf)).
Qed.

Lemma multidict_Put_dom k v (m : gmap string (gset Addr)) :
  dom (multidict_Put k v m) = {[k]} ∪ dom m.
Proof. unfold multidict_Put. by rewrite dom_insert_L. Qed.

Lemma multidict_Discard_dom k v (m : gmap string (gset Addr)) :
  dom (multidict_Discard k v m) ⊆ dom m.
Proof.
  unfold multidict_Discard. destruct (m !! k) as [s|] eqn:E; [|done].
  case_decide.
  - rewrite dom_delete_L. set_solver.
  - rewrite dom_insert_L. apply elem_of_dom_2 in E. set_solver.
Qed.

Ltac solve_known :=
  unfold IPKeysKnown in *;
  repeat case_bool_decide; repeat case_match; simplify_eq; simpl;
  unfold multidict_DiscardKey; rewrite ?dom_delete_L, ?multidict_Put_dom;
  first [ assumption
        | set_solver
        | match goal with
          | |- context [ {[ ?x ]} ] =>
              let k := fresh "k" in
              intros k; destruct (decide (k = x)); set_solver
          end ].

Lemma perform_known_input (c : Call) buf buf' :
  c <> CallFlush -> perform c buf = Ok buf' -> IPKeysKnown buf -> IPKeysKnown buf'.
Proof.
  intros Hc Hp Hinv. destruct c; simpl in Hp; try done.
  - unfold OnIPSetAdded in Hp. solve_known.
  - unfold OnIPSetRemoved in Hp. solve_known.
  - unfold OnIPAdded in Hp.
    pose proof (multidict_Discard_dom setID ip (pendingRemovedIPs buf)).
    destruct (bool_decide (setID ∈ sentIPSets buf)) eqn:E1;
      destruct (bool_decide (setID ∈ pendingAddedIPSets buf)) eqn:E2; simpl in Hp;
      try discriminate;
      try apply bool_decide_eq_true in E1; try apply bool_decide_eq_true in E2;
      solve_known.
  - unfold OnIPRemoved in Hp.
    pose proof (multidict_Discard_dom setID ip (pendingAddedIPs buf)).
    destruct (bool_decide (setID ∈ sentIPSets buf)) eqn:E1;
      destruct (bool_decide (setID ∈ pendingAddedIPSets buf)) eqn:E2; simpl in Hp;
      try discriminate;
      try apply bool_decide_eq_true in E1; try apply bool_decide_eq_true in E2;
      solve_known.
  - unfold OnDatastoreNotReady in Hp. solve_known.
  - unfold OnConfigUpdate in Hp. solve_known.
  - unfold OnPolicyActive in Hp. solve_known.
  - unfold OnPolicyInactive in Hp. solve_known.
  - unfold OnProfileActive in Hp. solve_known.
  - unfold OnProfileInactive in Hp. solve_known.
  - unfold OnEndpointTierUpdate in Hp. solve_known.
  - unfold OnHostIPUpdate in Hp. solve_known.
  - unfold OnHostIPRemove in Hp. solve_known.
  - unfold OnIPPoolUpdate in Hp. solve_known.
  - unfold OnIPPoolRemove in Hp. solve_known.
Qed.

Lemma flushSteps_known (s : EventSequencer -> FlushRun) buf :
  s ∈ flushSteps -> IPKeysKnown buf -> IPKeysKnown (run_state (s buf)).
Proof.
  unfold flushSteps. intros Hs Hinv.
  repeat (apply elem_of_cons in Hs; destruct Hs as [->|Hs]);
    [..|by apply elem_of_nil in Hs].
  - unfold flushReadyFlag. solve_known.
  - unfold flushConfigUpdate. solve_known.
  - unfold flushAddedIPSets. loop_inv. unfold flushAddedIPSet. solve_known.
  - unfold flushIPSetDeltas. apply andThen_state_ind; [|clear; intros buf Hinv];
      loop_inv; unfold flushAddsOrRemoves; solve_known.
  - unfold flushPolicyUpdates. loop_inv. unfold flushPolicyUpdate. solve_known.
  - unfold flushProfileUpdates. loop_inv. unfold flushProfileUpdate. solve_known.
  - unfold flushEndpointTierUpdates. loop_inv.
    unfold flushEndpointTierUpdate, recordEndpointSent. solve_known.
  - unfold flushEndpointTierDeletes. loop_inv. unfold flushEndpointTierDelete. solve_known.
  - unfold flushProfileDeletes. loop_inv. unfold flushProfileDelete. solve_known.
  - unfold flushPolicyDeletes. loop_inv. unfold flushPolicyDelete. solve_known.
  - unfold flushRemovedIPSets. loop_inv. unfold flushRemovedIPSet. solve_known.
  - unfold flushHostIPDeletes. loop_inv. unfold flushHostIPDelete. solve_known.
  - unfold flushHostIPUpdates. loop_inv. unfold flushHostIPUpdate. solve_known.
  - unfold flushIPPoolDeletes. loop_inv. unfold flushIPPoolDelete. solve_known.
  - unfold flushIPPoolUpdates. loop_inv. unfold flushIPPoolUpdate. solve_known.
Qed.

(** Between two calls, IPs are pending only for sets that are sent or
    pending as an add. *)
Lemma reachable_known buf : reachable buf -> IPKeysKnown buf.
Proof.
  induction 1 as [conf|c buf buf' Hr IH Hp].
  - unfold IPKeysKnown. simpl. rewrite dom_empty_L. set_solver.
  - assert (Hc : c = CallFlush \/ c <> CallFlush) by (destruct c; auto).
    destruct Hc as [->|Hc].
    + apply perform_Flush in Hp as [_ ->]. rewrite Flush_forEach.
      apply forEach_state_ind; [|done]. intros s b Hs Hb. by apply flushSteps_known.
    + by eapply perform_known_input.
Qed.

Lemma flushEndpointTierUpdate_endpointOf kv b m :
  m ∈ run_out (flushEndpointTierUpdate kv b) -> endpointOf m = endpointIDOfKey kv.1.
Proof.
  destruct kv as [key ep]. unfold flushEndpointTierUpdate. intros H.
  repeat case_match; simpl in H;
    first [ apply list_elem_of_singleton in H as ->; reflexivity
          | by apply elem_of_nil in H ].
Qed.

(** Every endpoint message of a flush is the message of a key that was
    pending, as an update or as a delete, when the flush started. *)
Lemma Flush_endpoint_key buf m :
  m ∈ run_out (Flush buf) -> endpointOf m <> None ->
  exists key, endpointOf m = endpointIDOfKey key /\
    (key ∈ dom (pendingEndpointUpdates buf) \/ key ∈ pendingEndpointDeletes buf).
Proof.
  intros Hm Hne. pose proof (Flush_endpoint_origin buf m Hm) as Ho.
  destruct m; try done.
  - destruct Ho as (key & ep & Hk & Hout). exists key.
    split; [exact (flushEndpointTierUpdate_endpointOf (key, ep) buf _ Hout)|].
    left. by apply elem_of_dom_2 in Hk.
  - destruct Ho as (key & Hk & He). exists key. auto.
  - destruct Ho as (key & ep & Hk & Hout). exists key.
    split; [exact (flushEndpointTierUpdate_endpointOf (key, ep) buf _ Hout)|].
    left. by apply elem_of_dom_2 in Hk.
  - destruct Ho as (key & Hk & He). exists key. auto.
Qed.

(** C2.  Cancellation before the flush, between two calls.
    (i) [OnIPSetRemoved] on a set that is pending as an add and was never
    sent returns, and leaves the set neither pending as an add nor as a
    remove: the next [Flush] hands out no message about that set.
    (ii) [OnIPAdded] with an IP that is pending as a remove of that set
    returns, takes the IP out of the pending removes and queues no add.
    (iii) [OnEndpointTierUpdate] with a nil endpoint for a key that was
    never sent erases the pending update and tiers of the key and queues
    no delete: every endpoint message of the next [Flush] is the message
    of another key. *)
Theorem cancellation_before_flush :
  (forall buf setID,
     reachable buf -> setID ∈ pendingAddedIPSets buf -> setID ∉ sentIPSets buf ->
     exists buf', OnIPSetRemoved setID buf = Ok buf' /\
       (setID ∉ pendingAddedIPSets buf') /\ (setID ∉ pendingRemovedIPSets buf') /\
       forall m, m ∈ run_out (Flush buf') -> ipSetOf m <> Some setID) /\
  (forall buf setID ip,
     reachable buf -> multidict_Contains setID ip (pendingRemovedIPs buf) = true ->
     exists buf', OnIPAdded setID ip buf = Ok buf' /\
       multidict_Contains setID ip (pendingRemovedIPs buf') = false /\
       pendingAddedIPs buf' = pendingAddedIPs buf) /\
  (forall buf key tiers,
     reachable buf -> key ∉ sentEndpoints buf ->
     let buf' := OnEndpointTierUpdate key None tiers buf in
     pendingEndpointUpdates buf' !! key = None /\
     pendingEndpointTierUpdates buf' !! key = None /\
     (key ∉ pendingEndpointDeletes buf') /\
     forall m, m ∈ run_out (Flush buf') -> endpointOf m <> None ->
       exists key', key' <> key /\ endpointOf m = endpointIDOfKey key' /\
         (key' ∈ dom (pendingEndpointUpdates buf) \/ key' ∈ pendingEndpointDeletes buf)).
Proof.
  split; [|split].
  - intros buf setID Hr Ha Hs.
    destruct (reachable_invariant buf Hr) as [_ [Hsent _ _ _ _ _]].
    assert (Hrm : setID ∉ pendingRemovedIPSets buf) by set_solver.
    unfold OnIPSetRemoved.
    rewrite (bool_decide_eq_true_2 _ Ha), (bool_decide_eq_false_2 _ Hs). simpl.
    eexists. split; [reflexivity|]. simpl.
    split; [set_solver|]. split; [done|].
    intros m Hm Hid. pose proof (Flush_ipset_origin _ m Hm) as Ho.
    destruct m; try discriminate; simpl in Hid, Ho; injection Hid as ->.
    + destruct Ho as [Ho _]. set_solver.
    + unfold multidict_DiscardKey in Ho. rewrite !dom_delete_L in Ho. set_solver.
    + done.
  - intros buf setID ip Hr Hc.
    pose proof (reachable_known buf Hr) as Hk. unfold IPKeysKnown in Hk.
    assert (Hin : setID ∈ dom (pendingRemovedIPs buf)).
    { apply multidict_Contains_spec in Hc as (s & Hs & _). by apply elem_of_dom_2 in Hs. }
    assert (Hkn : setID ∈ sentIPSets buf \/ setID ∈ pendingAddedIPSets buf) by set_solver.
    unfold OnIPAdded. rewrite Hc.
    assert (negb (bool_decide (setID ∈ sentIPSets buf))
            && negb (bool_decide (setID ∈ pendingAddedIPSets buf)) = false) as ->.
    { destruct Hkn as [H|H]; rewrite (bool_decide_eq_true_2 _ H); simpl;
        [done|by rewrite andb_false_r]. }
    eexists. split; [reflexivity|]. simpl. split; [|done].
    apply not_true_iff_false. rewrite multidict_Contains_Discard. naive_solver.
  - intros buf key tiers Hr Hs buf'.
    destruct (reachable_invariant buf Hr) as [_ [_ _ _ Hsent _ _]].
    assert (Hd : key ∉ pendingEndpointDeletes buf) by set_solver.
    assert (E1 : pendingEndpointUpdates buf' = delete key (pendingEndpointUpdates buf)).
    { unfold buf', OnEndpointTierUpdate. simpl. by rewrite (bool_decide_eq_false_2 _ Hs). }
    assert (E2 : pendingEndpointTierUpdates buf'
                 = delete key (pendingEndpointTierUpdates buf)).
    { unfold buf', OnEndpointTierUpdate. simpl. by rewrite (bool_decide_eq_false_2 _ Hs). }
    assert (E3 : pendingEndpointDeletes buf' = pendingEndpointDeletes buf).
    { unfold buf', OnEndpointTierUpdate. simpl. by rewrite (bool_decide_eq_false_2 _ Hs). }
    rewrite E1, E2, E3, !lookup_delete_eq. repeat split; try done.
    intros m Hm Hne. destruct (Flush_endpoint_key buf' m Hm Hne) as (key' & He & Hk).
    rewrite E1, E3, dom_delete_L in Hk.
    exists key'. split; [|split; [done|]].
    + intros ->. destruct Hk as [Hk|Hk]; [|done].
      apply elem_of_difference in Hk as [_ Hk]. apply Hk. by apply elem_of_singleton.
    + destruct Hk as [Hk|Hk]; [left|by right].
      by apply elem_of_difference in Hk as [? _].
Qed.

(** *** Re-adding a set that was sent *)

Lemma steps_stage_range (steps : list (EventSequencer -> FlushRun)) (n : nat) buf m :
  (forall i s b m, steps !! i = Some s -> m ∈ run_out (s b) -> stage m = n + i) ->
  m ∈ run_out (forEach (fun s => s) steps buf) ->
  n <= stage m < n + length steps.
Proof.
  intros Hst (i & s & Hi & _ & Hm)%forEach_out_at.
  rewrite (Hst i s _ m Hi Hm). apply lookup_lt_Some in Hi. lia.
Qed.

Lemma filter_IPSetUpdate_other (setID : string) (l : list Message) :
  (forall m, m ∈ l -> stage m <> 3) ->
  filter (fun m => isIPSetUpdateFor setID m = true) l = [].
Proof.
  intros Hl. induction l as [|m l IH]; [done|].
  rewrite filter_cons_False.
  - apply IH. intros m' Hm'. apply Hl. by right.
  - intros Hm. apply (Hl m); [left|]. by destruct m.
Qed.

Lemma filter_IPSetUpdate_one (setID : string) (g : string -> list string) (l : list string) :
  NoDup l -> setID ∈ l ->
  filter (fun m => isIPSetUpdateFor setID m = true) ((fun s => IPSetUpdate s (g s)) <$> l)
  = [IPSetUpdate setID (g setID)].
Proof.
  induction l as [|x l IH]; intros Hnd Hin; [by apply elem_of_nil in Hin|].
  apply NoDup_cons in Hnd as [Hx Hnd]. rewrite fmap_cons.
  destruct (decide (x = setID)) as [->|Hne].
  - rewrite filter_cons_True by (simpl; by rewrite bool_decide_eq_true_2).
    f_equal. clear IH Hin. induction l as [|y l IH]; [done|].
    rewrite fmap_cons, filter_cons_False.
    + apply IH; [set_solver|by apply NoDup_cons in Hnd as [_ ?]].
    + simpl. rewrite bool_decide_eq_false_2; [done|]. set_solver.
  - rewrite filter_cons_False by (simpl; by rewrite bool_decide_eq_false_2).
    apply IH; [done|]. set_solver.
Qed.

(** [flushReadyFlag] cannot fault, and [flushConfigUpdate] faults only
    with [log.Fatal]. *)
Lemma prefix2_fault buf f :
  run_fault (forEach (fun s => s) (take 2 flushSteps) buf) = Some f ->
  exists msg, f = LogFatal msg.
Proof.
  unfold flushSteps. simpl take. rewrite !forEach_cons. intros H.
  assert (Hr : run_fault (flushReadyFlag buf) = None).
  { unfold flushReadyFlag. by case_match. }
  rewrite andThen_fault in H by done. cbv beta in H.
  set (b := run_state (flushReadyFlag buf)) in *.
  rewrite forEach_cons in H.
  destruct (run_fault (flushConfigUpdate b)) as [f'|] eqn:Ef.
  - rewrite (andThen_faulted _ _ _ Ef), Ef in H. injection H as <-.
    unfold flushConfigUpdate in Ef. repeat case_match; simpl in Ef; simplify_eq; eauto.
  - rewrite andThen_fault in H by done. simpl in H. done.
Qed.

(** The output of a flush that the config update does not stop, cut at
    the IP set adds. *)
Lemma Flush_out_split buf :
  (forall msg, run_fault (Flush buf) <> Some (LogFatal msg)) ->
  exists before after,
    run_out (Flush buf) = before ++ run_out (flushAddedIPSets
        (run_state (forEach (fun s => s) (take 2 flushSteps) buf))) ++ after /\
    (forall m, m ∈ before -> stage m <> 3) /\ (forall m, m ∈ after -> stage m <> 3).
Proof.
  intros Hnf. rewrite Flush_forEach in *.
  assert (EF : forEach (fun s => s) flushSteps buf
               = andThen (forEach (fun s => s) (take 2 flushSteps) buf)
                   (forEach (fun s => s) (flushAddedIPSets :: drop 3 flushSteps))).
  { exact (forEach_app (fun s => s) (take 2 flushSteps)
             (flushAddedIPSets :: drop 3 flushSteps) buf). }
  rewrite EF in *. clear EF.
  set (P := forEach (fun s => s) (take 2 flushSteps) buf) in *.
  destruct (run_fault P) as [f|] eqn:Ef.
  { exfalso. destruct (prefix2_fault buf f Ef) as [msg ->].
    apply (Hnf msg). by rewrite (andThen_faulted _ _ _ Ef). }
  rewrite andThen_out by done. rewrite forEach_cons.
  rewrite andThen_out by apply flushAddedIPSets_returns.
  eexists _, _. split; [reflexivity|]. split.
  - intros m Hm. apply (steps_stage_range (take 2 flushSteps) 1) in Hm.
    + rewrite length_take in Hm. unfold flushSteps in Hm. simpl in Hm. lia.
    + intros i s b m' Hi Hm'. apply lookup_take_Some in Hi as [Hi _].
      by apply (flushSteps_stage i s b m').
  - intros m Hm. apply (steps_stage_range (drop 3 flushSteps) 4) in Hm; [lia|].
    intros i s b m' Hi Hm'. rewrite lookup_drop in Hi.
    rewrite (flushSteps_stage _ s b m' Hi Hm'). lia.
Qed.

Lemma addMembers_spec (setID : string) (ips : list Addr) buf :
  setID ∈ pendingAddedIPSets buf -> setID ∉ dom (pendingRemovedIPs buf) ->
  exists buf', addMembers setID ips buf = Ok buf' /\
    pendingAddedIPSets buf' = pendingAddedIPSets buf /\
    pendingRemovedIPSets buf' = pendingRemovedIPSets buf /\
    pendingRemovedIPs buf' = pendingRemovedIPs buf /\
    default ∅ (pendingAddedIPs buf' !! setID)
      = list_to_set ips ∪ default ∅ (pendingAddedIPs buf !! setID).
Proof.
  revert buf. induction ips as [|ip ips IH]; intros buf Ha Hr; simpl.
  - exists buf. repeat split; try done. set_solver.
  - unfold OnIPAdded. rewrite (bool_decide_eq_true_2 _ Ha), andb_false_r.
    assert (multidict_Contains setID ip (pendingRemovedIPs buf) = false) as ->.
    { unfold multidict_Contains. apply not_elem_of_dom in Hr. by rewrite Hr. }
    set (buf1 := set_pendingAddedIPs (multidict_Put setID ip (pendingAddedIPs buf)) buf).
    destruct (IH buf1) as (buf' & Hok & E1 & E2 & E3 & E4); [done|done|].
    exists buf'. split; [done|]. rewrite E1, E2, E3, E4. repeat split; try done.
    unfold buf1, multidict_Put. simpl. rewrite lookup_insert_eq. simpl. set_solver.
Qed.

(** C4.  For a set that is in the sent set, [OnIPSetRemoved], then
    [OnIPSetAdded], then [OnIPAdded] for each of a list of members all
    return, and the next [Flush], unless a config update that does not
    parse stops it first, hands out exactly one [IPSetUpdate] for the
    set, with exactly the added members; whether stopped or not, it hands
    out no [IPSetRemove] and no [IPSetDeltaUpdate] for the set. *)
Theorem full_replacement (buf : EventSequencer) (setID : string) (ips : list Addr) :
  setID ∈ sentIPSets buf ->
  exists buf1 buf2 buf3,
    OnIPSetRemoved setID buf = Ok buf1 /\
    OnIPSetAdded setID buf1 = Ok buf2 /\
    addMembers setID ips buf2 = Ok buf3 /\
    ((forall msg, run_fault (Flush buf3) <> Some (LogFatal msg)) ->
       filter (fun m => isIPSetUpdateFor setID m = true) (run_out (Flush buf3))
       = [IPSetUpdate setID (Addr_String <$> elements (list_to_set ips : gset Addr))]) /\
    (forall m, m ∈ run_out (Flush buf3) ->
       isIPSetRemoveFor setID m = false /\ isIPSetDeltaUpdateFor setID m = false).
Proof.
  intros Hs.
  assert (E1 : exists buf1, OnIPSetRemoved setID buf = Ok buf1 /\
            setID ∈ sentIPSets buf1 /\ setID ∈ pendingRemovedIPSets buf1).
  { unfold OnIPSetRemoved. rewrite (bool_decide_eq_true_2 _ Hs). simpl.
    eexists. split; [reflexivity|]. simpl. split; [done|set_solver]. }
  destruct E1 as (buf1 & Hok1 & Hs1 & Hr1).
  assert (E2 : exists buf2, OnIPSetAdded setID buf1 = Ok buf2 /\
            setID ∈ pendingAddedIPSets buf2 /\ (setID ∉ pendingRemovedIPSets buf2) /\
            (setID ∉ dom (pendingRemovedIPs buf2)) /\ pendingAddedIPs buf2 !! setID = None).
  { unfold OnIPSetAdded.
    rewrite (bool_decide_eq_true_2 _ Hs1), (bool_decide_eq_true_2 _ Hr1). simpl.
    eexists. split; [reflexivity|]. simpl. unfold multidict_DiscardKey.
    rewrite dom_delete_L, lookup_delete_eq. set_solver. }
  destruct E2 as (buf2 & Hok2 & Ha2 & Hr2 & Hd2 & Hn2).
  destruct (addMembers_spec setID ips buf2 Ha2 Hd2) as (buf3 & Hok3 & F1 & F2 & F3 & F4).
  rewrite Hn2 in F4. simpl in F4. rewrite union_empty_r_L in F4.
  exists buf1, buf2, buf3. repeat split; try done.
  - intros Hnf. destruct (Flush_out_split buf3 Hnf) as (before & after & -> & Hb & Ha).
    rewrite !filter_app, (filter_IPSetUpdate_other _ before Hb),
      (filter_IPSetUpdate_other _ after Ha), app_nil_r, app_nil_l.
    destruct (before_flushAddedIPSets buf3) as (G1 & G2 & _ & _).
    rewrite flushAddedIPSets_out, G1, G2.
    rewrite (filter_IPSetUpdate_one setID
               (fun s => Addr_String <$> multidict_Iter s (pendingAddedIPs buf3))).
    + unfold multidict_Iter. by rewrite F4.
    + apply NoDup_elements.
    + apply elem_of_elements. by rewrite F1.
  - pose proof (Flush_ipset_origin buf3 m H) as Ho. destruct m; try done. simpl.
    apply bool_decide_eq_false_2. intros ->. apply Hr2. by rewrite <- F2.
  - pose proof (Flush_ipset_origin buf3 m H) as Ho. destruct m; try done. simpl.
    apply bool_decide_eq_false_2. intros ->. rewrite F3, F1 in Ho.
    destruct Ho as [Ho|[_ Ho]]; done.
Qed.

(** *** Tracked and untracked tiers in endpoint updates *)

Lemma tiersWith_nonempty (names : list PolKV -> list string) (tiers : list tierInfo)
    (ti : ProtoTierInfo) :
  ti ∈ tiersWith names tiers -> ProtoTierInfo_Policies ti <> [].
Proof.
  unfold tiersWith. intros (t & Ht & Hti)%list_elem_of_omap.
  destruct (names (tierInfo_OrderedPolicies t)); [done|].
  injection Hti as <-. done.
Qed.

(** C8, as the code has it.  [tierInfoToProtoTierInfo] splits the ordered
    policies of every tier by the do-not-track flag and keeps a
    [TierInfo] for a non-empty list only.  A flushed host endpoint update
    carries the tracked tiers of its endpoint as [Tiers] and the
    untracked ones as [UntrackedTiers]; a flushed workload endpoint
    update carries the tracked tiers as [Tiers], and the untracked tiers
    are not part of it. *)
Theorem endpoint_updates_split :
  (forall tiers, tierInfoToProtoTierInfo tiers
     = (tiersWith trackedNames tiers, tiersWith untrackedNames tiers)) /\
  (forall tiers ti,
     ti ∈ tiersWith trackedNames tiers \/ ti ∈ tiersWith untrackedNames tiers ->
     ProtoTierInfo_Policies ti <> []) /\
  (forall buf m, m ∈ run_out (Flush buf) ->
     match m with
     | HostEndpointUpdate id ep =>
         exists key, key ∈ dom (pendingEndpointUpdates buf) /\
           endpointIDOfKey key = Some (HostID id) /\
           phep_Tiers ep = tiersWith trackedNames
                             (default [] (pendingEndpointTierUpdates buf !! key)) /\
           phep_UntrackedTiers ep = tiersWith untrackedNames
                             (default [] (pendingEndpointTierUpdates buf !! key))
     | WorkloadEndpointUpdate id ep =>
         exists key, key ∈ dom (pendingEndpointUpdates buf) /\
           endpointIDOfKey key = Some (WorkloadID id) /\
           pwep_Tiers ep = tiersWith trackedNames
                             (default [] (pendingEndpointTierUpdates buf !! key)) /\
           untrackedTiersOf m = None
     | _ => True
     end).
Proof.
  split; [exact tierInfoToProtoTierInfo_spec|]. split.
  - intros tiers ti [H|H]; by eapply tiersWith_nonempty.
  - intros buf m Hm. pose proof (Flush_endpoint_origin buf m Hm) as Ho.
    destruct m; try done.
    + destruct Ho as (key & e & Hk & Hout). exists key.
      split; [by apply elem_of_dom_2 in Hk|].
      unfold flushEndpointTierUpdate in Hout.
      rewrite tierInfoToProtoTierInfo_spec in Hout.
      repeat case_match; simpl in Hout;
        first [ apply list_elem_of_singleton in Hout | by apply elem_of_nil in Hout ];
        simplify_eq; done.
    + destruct Ho as (key & e & Hk & Hout). exists key.
      split; [by apply elem_of_dom_2 in Hk|].
      unfold flushEndpointTierUpdate in Hout.
      rewrite tierInfoToProtoTierInfo_spec in Hout.
      repeat case_match; simpl in Hout;
        first [ apply list_elem_of_singleton in Hout | by apply elem_of_nil in Hout ];
        simplify_eq; done.
Qed.

(** *** Histories *)

Lemma reachable_runCalls (calls : list Call) buf :
  reachable buf -> reachable (runCalls calls buf).
Proof.
  revert buf. induction calls as [|c calls IH]; intros buf Hr; simpl; [done|].
  destruct (perform c buf) as [buf'|f] eqn:E; [|done].
  apply IH. by eapply reachable_call.
Qed.

(** *** Following a flush step by step *)


(** *** What a flush records as sent *)



Ltac loop_body1 := intros ? ?; simpl; repeat case_match; simpl; try discriminate; intros _; try done.











Ltac unfold_steps :=
  unfold flushReadyFlag, flushConfigUpdate, flushAddedIPSets, flushAddedIPSet,
    flushIPSetDeltas, flushAddsOrRemoves, flushPolicyUpdates, flushPolicyUpdate,
    flushProfileUpdates, flushProfileUpdate, flushEndpointTierUpdates,
    flushEndpointTierUpdate, recordEndpointSent, flushEndpointTierDeletes,
    flushEndpointTierDelete, flushProfileDeletes, flushProfileDelete,
    flushPolicyDeletes, flushPolicyDelete, flushRemovedIPSets, flushRemovedIPSet,
    flushHostIPDeletes, flushHostIPDelete, flushHostIPUpdates, flushHostIPUpdate,
    flushIPPoolDeletes, flushIPPoolDelete, flushIPPoolUpdates, flushIPPoolUpdate.

(** Picks the step of [Flush] with a given index. *)
Ltac pick_step i Hi :=
  unfold flushSteps in Hi;
  do 15 (try (destruct i as [|i]; [injection Hi as <-|]));
  [..|discriminate Hi].

Ltac frame_or_skip :=
  first [ intros; lia | intros _; unfold_steps; frame_step | intros _ _; unfold_steps; frame_step ].


Lemma step_frame_ipsets (i : nat) (s : EventSequencer -> FlushRun) b :
  flushSteps !! i = Some s ->
  (i <> 2 -> i <> 10 -> sentIPSets (run_state (s b)) = sentIPSets b) /\
  (i <> 2 -> pendingAddedIPSets (run_state (s b)) = pendingAddedIPSets b) /\
  (i <> 10 -> pendingRemovedIPSets (run_state (s b)) = pendingRemovedIPSets b).
Proof.
  intros Hi. pick_step i Hi; (split; [|split]); frame_or_skip.
Qed.


Lemma step_frame_policies (i : nat) (s : EventSequencer -> FlushRun) b :
  flushSteps !! i = Some s ->
  (i <> 4 -> i <> 9 -> sentPolicies (run_state (s b)) = sentPolicies b) /\
  (i <> 4 -> pendingPolicyUpdates (run_state (s b)) = pendingPolicyUpdates b) /\
  (i <> 9 -> pendingPolicyDeletes (run_state (s b)) = pendingPolicyDeletes b).
Proof.
  intros Hi. pick_step i Hi; (split; [|split]); frame_or_skip.
Qed.


Lemma step_frame_profiles (i : nat) (s : EventSequencer -> FlushRun) b :
  flushSteps !! i = Some s ->
  (i <> 5 -> i <> 8 -> sentProfiles (run_state (s b)) = sentProfiles b) /\
  (i <> 5 -> pendingProfileUpdates (run_state (s b)) = pendingProfileUpdates b) /\
  (i <> 8 -> pendingProfileDeletes (run_state (s b)) = pendingProfileDeletes b).
Proof.
  intros Hi. pick_step i Hi; (split; [|split]); frame_or_skip.
Qed.


Lemma step_frame_endpoints (i : nat) (s : EventSequencer -> FlushRun) b :
  flushSteps !! i = Some s ->
  (i <> 6 -> i <> 7 -> sentEndpoints (run_state (s b)) = sentEndpoints b) /\
  (i <> 6 -> pendingEndpointUpdates (run_state (s b)) = pendingEndpointUpdates b) /\
  (i <> 7 -> pendingEndpointDeletes (run_state (s b)) = pendingEndpointDeletes b).
Proof.
  intros Hi. pick_step i Hi; (split; [|split]); frame_or_skip.
Qed.










Lemma step_frame_hostips (i : nat) (s : EventSequencer -> FlushRun) b :
  flushSteps !! i = Some s ->
  (i <> 11 -> i <> 12 -> sentHostIPs (run_state (s b)) = sentHostIPs b) /\
  (i <> 12 -> pendingHostIPUpdates (run_state (s b)) = pendingHostIPUpdates b) /\
  (i <> 11 -> pendingHostIPDeletes (run_state (s b)) = pendingHostIPDeletes b).
Proof.
  intros Hi. pick_step i Hi; (split; [|split]); frame_or_skip.
Qed.



(** *** More invariants of the states between two calls *)

(** What holds of a new buffer and is kept by every input callback and by
    every step of [Flush] holds between any two calls. *)
Lemma reachable_ind_steps (P : EventSequencer -> Prop) :
  (forall conf, P (NewEventBuffer conf)) ->
  (forall c buf buf', c <> CallFlush -> perform c buf = Ok buf' -> P buf -> P buf') ->
  (forall s buf, s ∈ flushSteps -> P buf -> P (run_state (s buf))) ->
  forall buf, reachable buf -> P buf.
Proof.
  intros Hnew Hin Hstep. induction 1 as [conf|c buf buf' Hr IH Hp]; [apply Hnew|].
  assert (Hc : c = CallFlush \/ c <> CallFlush) by (destruct c; auto).
  destruct Hc as [->|Hc]; [|by eapply Hin].
  apply perform_Flush in Hp as [_ ->]. rewrite Flush_forEach.
  apply forEach_state_ind; [|done]. intros s b Hs Hb. by apply Hstep.
Qed.

Lemma nonempty_Put k v (m : gmap string (gset Addr)) :
  nonempty_values m -> nonempty_values (multidict_Put k v m).
Proof.
  intros Hm k' s. unfold multidict_Put.
  destruct (decide (k' = k)) as [->|Hne].
  - rewrite lookup_insert_eq. intros [= <-]. set_solver.
  - rewrite lookup_insert_ne by done. apply Hm.
Qed.

Lemma nonempty_Discard k v (m : gmap string (gset Addr)) :
  nonempty_values m -> nonempty_values (multidict_Discard k v m).
Proof.
  intros Hm k' s. unfold multidict_Discard.
  destruct (m !! k) as [s0|] eqn:E; [|apply Hm].
  destruct (decide (s0 ∖ {[v]} = ∅)) as [He|He].
  - destruct (decide (k' = k)) as [->|Hne].
    + by rewrite lookup_delete_eq.
    + rewrite lookup_delete_ne by done. apply Hm.
  - destruct (decide (k' = k)) as [->|Hne].
    + rewrite lookup_insert_eq. by intros [= <-].
    + rewrite lookup_insert_ne by done. apply Hm.
Qed.

Lemma nonempty_DiscardKey k (m : gmap string (gset Addr)) :
  nonempty_values m -> nonempty_values (multidict_DiscardKey k m).
Proof.
  intros Hm k' s. unfold multidict_DiscardKey.
  destruct (decide (k' = k)) as [->|Hne].
  - by rewrite lookup_delete_eq.
  - rewrite lookup_delete_ne by done. apply Hm.
Qed.

Ltac solve_nonempty :=
  match goal with
  | H : NoEmptyKeys _ |- _ =>
      let Ha := fresh "Ha" in let Hr := fresh "Hr" in
      destruct H as [Ha Hr];
      repeat case_bool_decide; repeat case_match; simplify_eq; simpl;
      (split; simpl;
       eauto using nonempty_Put, nonempty_Discard, nonempty_DiscardKey)
  end.

Lemma perform_nonempty_input (c : Call) buf buf' :
  c <> CallFlush -> perform c buf = Ok buf' -> NoEmptyKeys buf -> NoEmptyKeys buf'.
Proof.
  intros Hc Hp Hinv. destruct c; simpl in Hp; try done.
  - unfold OnIPSetAdded in Hp. solve_nonempty.
  - unfold OnIPSetRemoved in Hp. solve_nonempty.
  - unfold OnIPAdded in Hp. solve_nonempty.
  - unfold OnIPRemoved in Hp. solve_nonempty.
  - unfold OnDatastoreNotReady in Hp. solve_nonempty.
  - unfold OnConfigUpdate in Hp. solve_nonempty.
  - unfold OnPolicyActive in Hp. solve_nonempty.
  - unfold OnPolicyInactive in Hp. solve_nonempty.
  - unfold OnProfileActive in Hp. solve_nonempty.
  - unfold OnProfileInactive in Hp. solve_nonempty.
  - unfold OnEndpointTierUpdate in Hp. solve_nonempty.
  - unfold OnHostIPUpdate in Hp. solve_nonempty.
  - unfold OnHostIPRemove in Hp. solve_nonempty.
  - unfold OnIPPoolUpdate in Hp. solve_nonempty.
  - unfold OnIPPoolRemove in Hp. solve_nonempty.
Qed.

Lemma flushSteps_nonempty (s : EventSequencer -> FlushRun) buf :
  s ∈ flushSteps -> NoEmptyKeys buf -> NoEmptyKeys (run_state (s buf)).
Proof.
  unfold flushSteps. intros Hs Hinv.
  repeat (apply elem_of_cons in Hs; destruct Hs as [->|Hs]);
    [..|by apply elem_of_nil in Hs].
  - unfold flushReadyFlag. solve_nonempty.
  - unfold flushConfigUpdate. solve_nonempty.
  - unfold flushAddedIPSets. loop_inv. unfold flushAddedIPSet. solve_nonempty.
  - unfold flushIPSetDeltas. apply andThen_state_ind; [|clear; intros buf Hinv];
      loop_inv; unfold flushAddsOrRemoves; solve_nonempty.
  - unfold flushPolicyUpdates. loop_inv. unfold flushPolicyUpdate. solve_nonempty.
  - unfold flushProfileUpdates. loop_inv. unfold flushProfileUpdate. solve_nonempty.
  - unfold flushEndpointTierUpdates. loop_inv.
    unfold flushEndpointTierUpdate, recordEndpointSent. solve_nonempty.
  - unfold flushEndpointTierDeletes. loop_inv. unfold flushEndpointTierDelete. solve_nonempty.
  - unfold flushProfileDeletes. loop_inv. unfold flushProfileDelete. solve_nonempty.
  - unfold flushPolicyDeletes. loop_inv. unfold flushPolicyDelete. solve_nonempty.
  - unfold flushRemovedIPSets. loop_inv. unfold flushRemovedIPSet. solve_nonempty.
  - unfold flushHostIPDeletes. loop_inv. unfold flushHostIPDelete. solve_nonempty.
  - unfold flushHostIPUpdates. loop_inv. unfold flushHostIPUpdate. solve_nonempty.
  - unfold flushIPPoolDeletes. loop_inv. unfold flushIPPoolDelete. solve_nonempty.
  - unfold flushIPPoolUpdates. loop_inv. unfold flushIPPoolUpdate. solve_nonempty.
Qed.

Lemma reachable_nonempty buf : reachable buf -> NoEmptyKeys buf.
Proof.
  apply reachable_ind_steps.
  - intros conf. split; intros k s; simpl; by rewrite lookup_empty.
  - apply perform_nonempty_input.
  - apply flushSteps_nonempty.
Qed.

Ltac solve_tiers :=
  unfold TiersTracked in *;
  repeat case_bool_decide; repeat case_match; simplify_eq; simpl;
  rewrite ?dom_insert_L, ?dom_delete_L;
  first [ assumption | congruence | set_solver ].

Lemma perform_tiers_input (c : Call) buf buf' :
  c <> CallFlush -> perform c buf = Ok buf' -> TiersTracked buf -> TiersTracked buf'.
Proof.
  intros Hc Hp Hinv. destruct c; simpl in Hp; try done.
  - unfold OnIPSetAdded in Hp. solve_tiers.
  - unfold OnIPSetRemoved in Hp. solve_tiers.
  - unfold OnIPAdded in Hp. solve_tiers.
  - unfold OnIPRemoved in Hp. solve_tiers.
  - unfold OnDatastoreNotReady in Hp. solve_tiers.
  - unfold OnConfigUpdate in Hp. solve_tiers.
  - unfold OnPolicyActive in Hp. solve_tiers.
  - unfold OnPolicyInactive in Hp. solve_tiers.
  - unfold OnProfileActive in Hp. solve_tiers.
  - unfold OnProfileInactive in Hp. solve_tiers.
  - unfold OnEndpointTierUpdate in Hp. solve_tiers.
  - unfold OnHostIPUpdate in Hp. solve_tiers.
  - unfold OnHostIPRemove in Hp. solve_tiers.
  - unfold OnIPPoolUpdate in Hp. solve_tiers.
  - unfold OnIPPoolRemove in Hp. solve_tiers.
Qed.

Lemma flushSteps_tiers (s : EventSequencer -> FlushRun) buf :
  s ∈ flushSteps -> TiersTracked buf -> TiersTracked (run_state (s buf)).
Proof.
  unfold flushSteps. intros Hs Hinv.
  repeat (apply elem_of_cons in Hs; destruct Hs as [->|Hs]);
    [..|by apply elem_of_nil in Hs].
  - unfold flushReadyFlag. solve_tiers.
  - unfold flushConfigUpdate. solve_tiers.
  - unfold flushAddedIPSets. loop_inv. unfold flushAddedIPSet. solve_tiers.
  - unfold flushIPSetDeltas. apply andThen_state_ind; [|clear; intros buf Hinv];
      loop_inv; unfold flushAddsOrRemoves; solve_tiers.
  - unfold flushPolicyUpdates. loop_inv. unfold flushPolicyUpdate. solve_tiers.
  - unfold flushProfileUpdates. loop_inv. unfold flushProfileUpdate. solve_tiers.
  - unfold flushEndpointTierUpdates. loop_inv.
    unfold flushEndpointTierUpdate, recordEndpointSent. solve_tiers.
  - unfold flushEndpointTierDeletes. loop_inv. unfold flushEndpointTierDelete. solve_tiers.
  - unfold flushProfileDeletes. loop_inv. unfold flushProfileDelete. solve_tiers.
  - unfold flushPolicyDeletes. loop_inv. unfold flushPolicyDelete. solve_tiers.
  - unfold flushRemovedIPSets. loop_inv. unfold flushRemovedIPSet. solve_tiers.
  - unfold flushHostIPDeletes. loop_inv. unfold flushHostIPDelete. solve_tiers.
  - unfold flushHostIPUpdates. loop_inv. unfold flushHostIPUpdate. solve_tiers.
  - unfold flushIPPoolDeletes. loop_inv. unfold flushIPPoolDelete. solve_tiers.
  - unfold flushIPPoolUpdates. loop_inv. unfold flushIPPoolUpdate. solve_tiers.
Qed.

Lemma reachable_tiers buf : reachable buf -> TiersTracked buf.
Proof.
  apply reachable_ind_steps.
  - intros conf. unfold TiersTracked. simpl. by rewrite !dom_empty_L.
  - apply perform_tiers_input.
  - apply flushSteps_tiers.
Qed.

(** *** Calls that undo each other *)

(** Two states with the same fields are the same state. *)
Lemma EventSequencer_ext (b1 b2 : EventSequencer) :
  config b1 = config b2 ->
  pendingAddedIPSets b1 = pendingAddedIPSets b2 ->
  pendingRemovedIPSets b1 = pendingRemovedIPSets b2 ->
  pendingAddedIPs b1 = pendingAddedIPs b2 ->
  pendingRemovedIPs b1 = pendingRemovedIPs b2 ->
  pendingPolicyUpdates b1 = pendingPolicyUpdates b2 ->
  pendingPolicyDeletes b1 = pendingPolicyDeletes b2 ->
  pendingProfileUpdates b1 = pendingProfileUpdates b2 ->
  pendingProfileDeletes b1 = pendingProfileDeletes b2 ->
  pendingEndpointUpdates b1 = pendingEndpointUpdates b2 ->
  pendingEndpointTierUpdates b1 = pendingEndpointTierUpdates b2 ->
  pendingEndpointDeletes b1 = pendingEndpointDeletes b2 ->
  pendingHostIPUpdates b1 = pendingHostIPUpdates b2 ->
  pendingHostIPDeletes b1 = pendingHostIPDeletes b2 ->
  pendingIPPoolUpdates b1 = pendingIPPoolUpdates b2 ->
  pendingIPPoolDeletes b1 = pendingIPPoolDeletes b2 ->
  pendingNotReady b1 = pendingNotReady b2 ->
  pendingGlobalConfig b1 = pendingGlobalConfig b2 ->
  pendingHostConfig b1 = pendingHostConfig b2 ->
  sentIPSets b1 = sentIPSets b2 ->
  sentPolicies b1 = sentPolicies b2 ->
  sentProfiles b1 = sentProfiles b2 ->
  sentEndpoints b1 = sentEndpoints b2 ->
  sentHostIPs b1 = sentHostIPs b2 ->
  sentIPPools b1 = sentIPPools b2 ->
  b1 = b2.
Proof. destruct b1, b2; simpl; intros; subst; reflexivity. Qed.

Ltac ext_fields :=
  apply EventSequencer_ext; simpl; repeat case_bool_decide; simpl in *; try reflexivity.

Lemma multidict_Discard_Put k v (m : gmap string (gset Addr)) :
  nonempty_values m -> multidict_Contains k v m = false ->
  multidict_Discard k v (multidict_Put k v m) = m.
Proof.
  intros Hne Hc. unfold multidict_Discard, multidict_Put, multidict_Contains in *.
  rewrite lookup_insert_eq.
  destruct (m !! k) as [s|] eqn:E; simpl.
  - apply bool_decide_eq_false in Hc.
    assert (({[v]} ∪ s) ∖ {[v]} = s) as -> by set_solver.
    destruct (decide (s = ∅)) as [->|_]; [by destruct (Hne k ∅)|].
    rewrite insert_insert_eq. by apply insert_id.
  - assert (({[v]} ∪ (∅ : gset Addr)) ∖ {[v]} = ∅) as -> by set_solver.
    rewrite decide_True by done. by apply delete_insert_id.
Qed.

(** An update after a delete of the same key, before any flush, leaves
    what the update alone leaves: for policies, profiles, endpoints and
    host IPs. *)
Theorem update_after_delete buf (key : PolicyKey) (rules : option ParsedRules)
    (pkey : ProfileRulesKey) (prules : option ParsedRules)
    (ekey : Key) (ep : EndpointValue) (tiers tiers' : list tierInfo)
    (host : string) (ip : option NetIP) :
  OnPolicyActive key rules (OnPolicyInactive key buf) = OnPolicyActive key rules buf /\
  OnProfileActive pkey prules (OnProfileInactive pkey buf)
    = OnProfileActive pkey prules buf /\
  OnEndpointTierUpdate ekey (Some ep) tiers (OnEndpointTierUpdate ekey None tiers' buf)
    = OnEndpointTierUpdate ekey (Some ep) tiers buf /\
  OnHostIPUpdate host ip (OnHostIPRemove host buf) = OnHostIPUpdate host ip buf.
Proof.
  unfold OnPolicyActive, OnPolicyInactive, OnProfileActive, OnProfileInactive,
    OnEndpointTierUpdate, OnHostIPUpdate, OnHostIPRemove.
  repeat split; ext_fields; first [ apply insert_delete_eq | set_solver ].
Qed.

(** A delete after an update of the same key, before any flush, leaves
    what the delete alone leaves, in every state between two calls: for
    policies, profiles, endpoints and host IPs. *)
Theorem delete_after_update buf (key : PolicyKey) (rules : option ParsedRules)
    (pkey : ProfileRulesKey) (prules : option ParsedRules)
    (ekey : Key) (ep : EndpointValue) (tiers tiers' : list tierInfo)
    (host : string) (ip : option NetIP) :
  reachable buf ->
  OnPolicyInactive key (OnPolicyActive key rules buf) = OnPolicyInactive key buf /\
  OnProfileInactive pkey (OnProfileActive pkey prules buf) = OnProfileInactive pkey buf /\
  OnEndpointTierUpdate ekey None tiers' (OnEndpointTierUpdate ekey (Some ep) tiers buf)
    = OnEndpointTierUpdate ekey None tiers' buf /\
  OnHostIPRemove host (OnHostIPUpdate host ip buf) = OnHostIPRemove host buf.
Proof.
  intros [_ [_ Hpol Hprof Hep Hhost _]]%reachable_invariant.
  unfold OnPolicyActive, OnPolicyInactive, OnProfileActive, OnProfileInactive,
    OnEndpointTierUpdate, OnHostIPUpdate, OnHostIPRemove.
  repeat split; ext_fields;
    first [ apply delete_insert_eq
          | apply set_eq; intros x;
            match goal with
            | |- context [ {[ ?k ]} ] => destruct (decide (x = k)); set_solver
            end ].
Qed.

(** An IP added to a known set and removed again, or removed and added
    again, before any flush, leaves the state between two calls as it
    was, when the IP was pending neither way. *)
Theorem OnIPAdded_OnIPRemoved_round_trip buf (setID : string) (ip : Addr) :
  reachable buf ->
  setID ∈ sentIPSets buf ∪ pendingAddedIPSets buf ->
  multidict_Contains setID ip (pendingAddedIPs buf) = false ->
  multidict_Contains setID ip (pendingRemovedIPs buf) = false ->
  (exists buf1, OnIPAdded setID ip buf = Ok buf1 /\ OnIPRemoved setID ip buf1 = Ok buf) /\
  (exists buf1, OnIPRemoved setID ip buf = Ok buf1 /\ OnIPAdded setID ip buf1 = Ok buf).
Proof.
  intros [Hna Hnr]%reachable_nonempty Hk Ha Hr.
  assert (Hchk : (negb (bool_decide (setID ∈ sentIPSets buf))
                  && negb (bool_decide (setID ∈ pendingAddedIPSets buf)))%bool = false).
  { apply elem_of_union in Hk as [H|H]; rewrite (bool_decide_eq_true_2 _ H); simpl;
      [done|by rewrite andb_false_r]. }
  assert (Hput : forall d : gmap string (gset Addr),
             multidict_Contains setID ip (multidict_Put setID ip d) = true).
  { intros d. apply multidict_Contains_Put. by left. }
  split; eexists; (split; [unfold OnIPAdded, OnIPRemoved; rewrite Hchk, ?Ha, ?Hr; reflexivity|]).
  - unfold OnIPRemoved. simpl. rewrite Hchk, Hput. f_equal.
    clear Hchk. ext_fields; by apply multidict_Discard_Put.
  - unfold OnIPAdded. simpl. rewrite Hchk, Hput. f_equal.
    clear Hchk. ext_fields; by apply multidict_Discard_Put.
Qed.

(** *** The pending IPs between two calls *)

(** Between two calls, every set with pending IPs has at least one, and
    [OnIPAdded] and [OnIPRemoved] do not panic on a set with pending
    IPs. *)
Theorem reachable_pending_IPs buf :
  reachable buf ->
  NoEmptyKeys buf /\
  forall setID ip, setID ∈ dom (pendingAddedIPs buf) ∪ dom (pendingRemovedIPs buf) ->
    (exists buf', OnIPAdded setID ip buf = Ok buf') /\
    (exists buf', OnIPRemoved setID ip buf = Ok buf').
Proof.
  intros Hr. pose proof (reachable_known buf Hr) as Hk.
  split; [by apply reachable_nonempty|].
  intros setID ip Hs. apply Hk in Hs.
  assert (Hchk : (negb (bool_decide (setID ∈ sentIPSets buf))
                  && negb (bool_decide (setID ∈ pendingAddedIPSets buf)))%bool = false).
  { apply elem_of_union in Hs as [H|H]; rewrite (bool_decide_eq_true_2 _ H); simpl;
      [done|by rewrite andb_false_r]. }
  unfold OnIPAdded, OnIPRemoved. rewrite Hchk. split; case_match; eauto.
Qed.

(** *** What a flush hands out *)

(** [Flush] as what runs before its [i]-th step, that step, and what
    runs after it. *)
Lemma Flush_split (i : nat) (s : EventSequencer -> FlushRun) buf :
  flushSteps !! i = Some s ->
  Flush buf = andThen (forEach (fun s => s) (take i flushSteps) buf)
                (fun b => andThen (s b) (forEach (fun s => s) (drop (S i) flushSteps))).
Proof.
  intros Hi. rewrite Flush_forEach.
  rewrite <- (take_drop_middle flushSteps i s Hi) at 1.
  rewrite forEach_app. apply andThen_ext. intros b. apply forEach_cons.
Qed.

Lemma Flush_step_returns (i : nat) (s : EventSequencer -> FlushRun) buf :
  flushSteps !! i = Some s -> run_fault (Flush buf) = None ->
  run_fault (forEach (fun s => s) (take i flushSteps) buf) = None /\
  run_fault (s (run_state (forEach (fun s => s) (take i flushSteps) buf))) = None.
Proof.
  intros Hi. rewrite (Flush_split i s buf Hi).
  intros [H1 H2]%andThen_fault_None. apply andThen_fault_None in H2 as [H2 _]. done.
Qed.

(** The messages of one stage of a flush that returns are those of the
    step of that stage, in the state the steps before it leave. *)
Lemma Flush_stage_iff (i : nat) (s : EventSequencer -> FlushRun) buf m :
  flushSteps !! i = Some s -> stage m = S i -> run_fault (Flush buf) = None ->
  m ∈ run_out (Flush buf) <->
  m ∈ run_out (s (run_state (forEach (fun s => s) (take i flushSteps) buf))).
Proof.
  intros Hi Hst Hf. destruct (Flush_step_returns i s buf Hi Hf) as [H1 H2]. split.
  - intros (i' & s' & Hi' & Hst' & _ & Hm)%Flush_out_at.
    assert (i' = i) as -> by lia. by assert (s' = s) as -> by congruence.
  - intros Hm. rewrite (Flush_split i s buf Hi).
    rewrite andThen_out by done. apply elem_of_app. right.
    rewrite andThen_out by done. apply elem_of_app. by left.
Qed.

Lemma prefix_field {A : Type} (field : EventSequencer -> A) (i : nat) buf :
  (forall j s b, j < i -> flushSteps !! j = Some s -> field (run_state (s b)) = field b) ->
  field (run_state (forEach (fun s => s) (take i flushSteps) buf)) = field buf.
Proof.
  intros H. apply prefix_frame. intros s b Hs.
  apply list_elem_of_lookup in Hs as [j Hj]. apply lookup_take_Some in Hj as [Hj Hlt].
  by eapply H.
Qed.

(** A loop that returns hands out the message of an item it visits, when
    the visit hands it out in any state. *)
Lemma forEach_emits {X : Type} (body : X -> EventSequencer -> FlushRun) items buf x m :
  x ∈ items -> (forall b, m ∈ run_out (body x b)) ->
  run_fault (forEach body items buf) = None ->
  m ∈ run_out (forEach body items buf).
Proof.
  intros Hx Hm. revert buf. induction items as [|y items IH]; intros buf;
    [by apply elem_of_nil in Hx|].
  rewrite forEach_cons. intros [H1 H2]%andThen_fault_None.
  rewrite andThen_out by done. apply elem_of_app.
  apply elem_of_cons in Hx as [->|Hx]; [left; apply Hm|right; by apply IH].
Qed.

(** The messages of a loop whose visits hand out the same in every state. *)
Lemma forEach_out_iff {X : Type} (body : X -> EventSequencer -> FlushRun) items b b0 m :
  (forall x b1 b2, run_out (body x b1) = run_out (body x b2)) ->
  run_fault (forEach body items b) = None ->
  m ∈ run_out (forEach body items b) <-> exists x, x ∈ items /\ m ∈ run_out (body x b0).
Proof.
  intros Hind Hf. split.
  - intros (x & b' & Hx & Hm)%forEach_out_item. exists x. split; [done|].
    by rewrite (Hind x b0 b').
  - intros (x & Hx & Hm). apply (forEach_emits body items b x m); [done| |done].
    intros b'. by rewrite (Hind x b' b0).
Qed.

Lemma step_frame_pools (i : nat) (s : EventSequencer -> FlushRun) b :
  flushSteps !! i = Some s ->
  (i <> 13 -> i <> 14 -> sentIPPools (run_state (s b)) = sentIPPools b) /\
  (i <> 14 -> pendingIPPoolUpdates (run_state (s b)) = pendingIPPoolUpdates b) /\
  (i <> 13 -> pendingIPPoolDeletes (run_state (s b)) = pendingIPPoolDeletes b).
Proof.
  intros Hi. pick_step i Hi; (split; [|split]); frame_or_skip.
Qed.

Ltac state_free := intros; unfold_steps; simpl; repeat case_match; reflexivity.

Ltac at_start frame :=
  apply prefix_field;
  let j := fresh "j" in let s := fresh "s" in let b := fresh "b" in
  let Hlt := fresh "Hlt" in let Hs := fresh "Hs" in
  let F1 := fresh "F" in let F2 := fresh "F" in let F3 := fresh "F" in
  intros j s b Hlt Hs; destruct (frame j s b Hs) as (F1 & F2 & F3);
  first [ apply F1; lia | apply F2; lia | apply F3; lia ].

Lemma Flush_endpoint_removes buf m :
  run_fault (Flush buf) = None -> stage m = 8 ->
  m ∈ run_out (Flush buf) <->
  exists key, key ∈ pendingEndpointDeletes buf /\ m ∈ run_out (flushEndpointTierDelete key buf).
Proof.
  intros Hf Hst.
  etrans; [apply (Flush_stage_iff 7 flushEndpointTierDeletes buf m eq_refl Hst Hf)|].
  destruct (Flush_step_returns 7 flushEndpointTierDeletes buf eq_refl Hf) as [_ Hs].
  unfold flushEndpointTierDeletes in *.
  assert (E : pendingEndpointDeletes (run_state (forEach (fun s => s) (take 7 flushSteps) buf))
              = pendingEndpointDeletes buf) by at_start step_frame_endpoints.
  rewrite E in *.
  etrans; [apply (forEach_out_iff _ _ _ buf); [state_free|exact Hs]|].
  split; intros (x & Hx & Hm); exists x; (split; [|done]);
    [by apply elem_of_elements in Hx|by apply elem_of_elements].
Qed.

Lemma Flush_profile_removes buf m :
  run_fault (Flush buf) = None -> stage m = 9 ->
  m ∈ run_out (Flush buf) <->
  exists key, key ∈ pendingProfileDeletes buf /\ m ∈ run_out (flushProfileDelete key buf).
Proof.
  intros Hf Hst.
  etrans; [apply (Flush_stage_iff 8 flushProfileDeletes buf m eq_refl Hst Hf)|].
  destruct (Flush_step_returns 8 flushProfileDeletes buf eq_refl Hf) as [_ Hs].
  unfold flushProfileDeletes in *.
  assert (E : pendingProfileDeletes (run_state (forEach (fun s => s) (take 8 flushSteps) buf))
              = pendingProfileDeletes buf) by at_start step_frame_profiles.
  rewrite E in *.
  etrans; [apply (forEach_out_iff _ _ _ buf); [state_free|exact Hs]|].
  split; intros (x & Hx & Hm); exists x; (split; [|done]);
    [by apply elem_of_elements in Hx|by apply elem_of_elements].
Qed.

Lemma Flush_policy_removes buf m :
  run_fault (Flush buf) = None -> stage m = 10 ->
  m ∈ run_out (Flush buf) <->
  exists key, key ∈ pendingPolicyDeletes buf /\ m ∈ run_out (flushPolicyDelete key buf).
Proof.
  intros Hf Hst.
  etrans; [apply (Flush_stage_iff 9 flushPolicyDeletes buf m eq_refl Hst Hf)|].
  destruct (Flush_step_returns 9 flushPolicyDeletes buf eq_refl Hf) as [_ Hs].
  unfold flushPolicyDeletes in *.
  assert (E : pendingPolicyDeletes (run_state (forEach (fun s => s) (take 9 flushSteps) buf))
              = pendingPolicyDeletes buf) by at_start step_frame_policies.
  rewrite E in *.
  etrans; [apply (forEach_out_iff _ _ _ buf); [state_free|exact Hs]|].
  split; intros (x & Hx & Hm); exists x; (split; [|done]);
    [by apply elem_of_elements in Hx|by apply elem_of_elements].
Qed.

Lemma Flush_ipset_removes buf m :
  run_fault (Flush buf) = None -> stage m = 11 ->
  m ∈ run_out (Flush buf) <->
  exists setID, setID ∈ pendingRemovedIPSets buf /\ m ∈ run_out (flushRemovedIPSet setID buf).
Proof.
  intros Hf Hst.
  etrans; [apply (Flush_stage_iff 10 flushRemovedIPSets buf m eq_refl Hst Hf)|].
  destruct (Flush_step_returns 10 flushRemovedIPSets buf eq_refl Hf) as [_ Hs].
  unfold flushRemovedIPSets in *.
  assert (E : pendingRemovedIPSets (run_state (forEach (fun s => s) (take 10 flushSteps) buf))
              = pendingRemovedIPSets buf) by at_start step_frame_ipsets.
  rewrite E in *.
  etrans; [apply (forEach_out_iff _ _ _ buf); [state_free|exact Hs]|].
  split; intros (x & Hx & Hm); exists x; (split; [|done]);
    [by apply elem_of_elements in Hx|by apply elem_of_elements].
Qed.

Lemma Flush_hostip_removes buf m :
  run_fault (Flush buf) = None -> stage m = 12 ->
  m ∈ run_out (Flush buf) <->
  exists host, host ∈ pendingHostIPDeletes buf /\ m ∈ run_out (flushHostIPDelete host buf).
Proof.
  intros Hf Hst.
  etrans; [apply (Flush_stage_iff 11 flushHostIPDeletes buf m eq_refl Hst Hf)|].
  destruct (Flush_step_returns 11 flushHostIPDeletes buf eq_refl Hf) as [_ Hs].
  unfold flushHostIPDeletes in *.
  assert (E : pendingHostIPDeletes (run_state (forEach (fun s => s) (take 11 flushSteps) buf))
              = pendingHostIPDeletes buf) by at_start step_frame_hostips.
  rewrite E in *.
  etrans; [apply (forEach_out_iff _ _ _ buf); [state_free|exact Hs]|].
  split; intros (x & Hx & Hm); exists x; (split; [|done]);
    [by apply elem_of_elements in Hx|by apply elem_of_elements].
Qed.

Lemma Flush_pool_removes buf m :
  run_fault (Flush buf) = None -> stage m = 14 ->
  m ∈ run_out (Flush buf) <->
  exists item, item ∈ pendingIPPoolDeletes buf /\ m ∈ run_out (flushIPPoolDelete item buf).
Proof.
  intros Hf Hst.
  etrans; [apply (Flush_stage_iff 13 flushIPPoolDeletes buf m eq_refl Hst Hf)|].
  destruct (Flush_step_returns 13 flushIPPoolDeletes buf eq_refl Hf) as [_ Hs].
  unfold flushIPPoolDeletes in *.
  assert (E : pendingIPPoolDeletes (run_state (forEach (fun s => s) (take 13 flushSteps) buf))
              = pendingIPPoolDeletes buf) by at_start step_frame_pools.
  rewrite E in *.
  etrans; [apply (forEach_out_iff _ _ _ buf); [state_free|exact Hs]|].
  split; intros (x & Hx & Hm); exists x; (split; [|done]);
    [by apply elem_of_elements in Hx|by apply elem_of_elements].
Qed.

Lemma Flush_policy_updates buf m :
  run_fault (Flush buf) = None -> stage m = 5 ->
  m ∈ run_out (Flush buf) <->
  exists key rules, pendingPolicyUpdates buf !! key = Some rules /\
    m ∈ run_out (flushPolicyUpdate (key, rules) buf).
Proof.
  intros Hf Hst.
  etrans; [apply (Flush_stage_iff 4 flushPolicyUpdates buf m eq_refl Hst Hf)|].
  destruct (Flush_step_returns 4 flushPolicyUpdates buf eq_refl Hf) as [_ Hs].
  unfold flushPolicyUpdates in *.
  assert (E : pendingPolicyUpdates (run_state (forEach (fun s => s) (take 4 flushSteps) buf))
              = pendingPolicyUpdates buf) by at_start step_frame_policies.
  rewrite E in *.
  etrans; [apply (forEach_out_iff _ _ _ buf); [state_free|exact Hs]|].
  split.
  - intros ([k v] & Hx & Hm). exists k, v. split; [|done].
    by apply elem_of_map_to_list in Hx.
  - intros (k & v & Hx & Hm). exists (k, v). split; [|done].
    by apply elem_of_map_to_list.
Qed.

Lemma Flush_profile_updates buf m :
  run_fault (Flush buf) = None -> stage m = 6 ->
  m ∈ run_out (Flush buf) <->
  exists key rules, pendingProfileUpdates buf !! key = Some rules /\
    m ∈ run_out (flushProfileUpdate (key, rules) buf).
Proof.
  intros Hf Hst.
  etrans; [apply (Flush_stage_iff 5 flushProfileUpdates buf m eq_refl Hst Hf)|].
  destruct (Flush_step_returns 5 flushProfileUpdates buf eq_refl Hf) as [_ Hs].
  unfold flushProfileUpdates in *.
  assert (E : pendingProfileUpdates (run_state (forEach (fun s => s) (take 5 flushSteps) buf))
              = pendingProfileUpdates buf) by at_start step_frame_profiles.
  rewrite E in *.
  etrans; [apply (forEach_out_iff _ _ _ buf); [state_free|exact Hs]|].
  split.
  - intros ([k v] & Hx & Hm). exists k, v. split; [|done].
    by apply elem_of_map_to_list in Hx.
  - intros (k & v & Hx & Hm). exists (k, v). split; [|done].
    by apply elem_of_map_to_list.
Qed.

Lemma Flush_hostip_updates buf m :
  run_fault (Flush buf) = None -> stage m = 13 ->
  m ∈ run_out (Flush buf) <->
  exists key ip, pendingHostIPUpdates buf !! key = Some ip /\
    m ∈ run_out (flushHostIPUpdate (key, ip) buf).
Proof.
  intros Hf Hst.
  etrans; [apply (Flush_stage_iff 12 flushHostIPUpdates buf m eq_refl Hst Hf)|].
  destruct (Flush_step_returns 12 flushHostIPUpdates buf eq_refl Hf) as [_ Hs].
  unfold flushHostIPUpdates in *.
  assert (E : pendingHostIPUpdates (run_state (forEach (fun s => s) (take 12 flushSteps) buf))
              = pendingHostIPUpdates buf) by at_start step_frame_hostips.
  rewrite E in *.
  etrans; [apply (forEach_out_iff _ _ _ buf); [state_free|exact Hs]|].
  split.
  - intros ([k v] & Hx & Hm). exists k, v. split; [|done].
    by apply elem_of_map_to_list in Hx.
  - intros (k & v & Hx & Hm). exists (k, v). split; [|done].
    by apply elem_of_map_to_list.
Qed.

Lemma Flush_pool_updates buf m :
  run_fault (Flush buf) = None -> stage m = 15 ->
  m ∈ run_out (Flush buf) <->
  exists key pool, pendingIPPoolUpdates buf !! key = Some pool /\
    m ∈ run_out (flushIPPoolUpdate (key, pool) buf).
Proof.
  intros Hf Hst.
  etrans; [apply (Flush_stage_iff 14 flushIPPoolUpdates buf m eq_refl Hst Hf)|].
  destruct (Flush_step_returns 14 flushIPPoolUpdates buf eq_refl Hf) as [_ Hs].
  unfold flushIPPoolUpdates in *.
  assert (E : pendingIPPoolUpdates (run_state (forEach (fun s => s) (take 14 flushSteps) buf))
              = pendingIPPoolUpdates buf) by at_start step_frame_pools.
  rewrite E in *.
  etrans; [apply (forEach_out_iff _ _ _ buf); [state_free|exact Hs]|].
  split.
  - intros ([k v] & Hx & Hm). exists k, v. split; [|done].
    by apply elem_of_map_to_list in Hx.
  - intros (k & v & Hx & Hm). exists (k, v). split; [|done].
    by apply elem_of_map_to_list.
Qed.

Lemma Flush_ipset_updates buf m :
  run_fault (Flush buf) = None -> stage m = 3 ->
  m ∈ run_out (Flush buf) <->
  exists setID, setID ∈ pendingAddedIPSets buf /\ m ∈ run_out (flushAddedIPSet setID buf).
Proof.
  intros Hf Hst.
  etrans; [apply (Flush_stage_iff 2 flushAddedIPSets buf m eq_refl Hst Hf)|].
  rewrite flushAddedIPSets_out.
  destruct (before_flushAddedIPSets buf) as (E1 & E2 & _). cbv zeta in E1, E2.
  rewrite E1, E2. rewrite list_elem_of_fmap.
  split; intros (x & Hx & Hm); exists x.
  - split; [by apply elem_of_elements in Hm|]. subst m. simpl. by left.
  - simpl in Hm. apply list_elem_of_singleton in Hm. split; [done|].
    by apply elem_of_elements.
Qed.

(** A loop that returns hands out the message of the item with a given
    key, when the visits of the other keys keep what the message depends
    on. *)
Lemma forEach_emits_at {X K : Type} `{EqDecision K} (key : X -> K)
    (Inv : EventSequencer -> Prop)
    (body : X -> EventSequencer -> FlushRun) items buf (k : K) m :
  (exists x, x ∈ items /\ key x = k) -> Inv buf ->
  (forall y b, y ∈ items -> key y <> k -> Inv b -> Inv (run_state (body y b))) ->
  (forall y b, y ∈ items -> key y = k -> Inv b -> m ∈ run_out (body y b)) ->
  run_fault (forEach body items buf) = None ->
  m ∈ run_out (forEach body items buf).
Proof.
  revert buf. induction items as [|y items IH]; intros buf (x & Hx & Hk) HI Hkeep Hm.
  { by apply elem_of_nil in Hx. }
  rewrite forEach_cons. intros [H1 H2]%andThen_fault_None.
  rewrite andThen_out by done. apply elem_of_app.
  destruct (decide (key y = k)) as [Hy|Hy].
  - left. apply Hm; [left|done..].
  - right. apply IH; [| | | |done].
    + exists x. split; [|done].
      apply elem_of_cons in Hx as [->|Hx]; [by destruct Hy|done].
    + apply Hkeep; [left|done..].
    + intros z b Hz. apply Hkeep. by right.
    + intros z b Hz. apply Hm. by right.
Qed.

Lemma Flush_endpoint_updates buf m :
  run_fault (Flush buf) = None -> stage m = 7 ->
  m ∈ run_out (Flush buf) <->
  exists key ep, pendingEndpointUpdates buf !! key = Some ep /\
    m ∈ run_out (flushEndpointTierUpdate (key, ep) buf).
Proof.
  intros Hf Hst. split.
  - intros Hm. pose proof (Flush_endpoint_origin buf m Hm) as Ho.
    destruct m; try discriminate Hst; exact Ho.
  - intros (key & ep & Hk & Hm).
    apply (Flush_stage_iff 6 flushEndpointTierUpdates buf m eq_refl Hst Hf).
    destruct (Flush_step_returns 6 flushEndpointTierUpdates buf eq_refl Hf) as [_ Hs].
    destruct (before_flushEndpointTierUpdates buf) as (E1 & E2). cbv zeta in E1, E2.
    unfold flushEndpointTierUpdates in *. rewrite E1 in *.
    apply (forEach_emits_at fst
             (fun b => pendingEndpointTierUpdates b !! key
                       = pendingEndpointTierUpdates buf !! key) _ _ _ key);
      [| |clear; intros [k e] b _ Hne Hb|intros [k e] b Hy Hke Hb|done].
    + exists (key, ep). split; [by apply elem_of_map_to_list|done].
    + by rewrite E2.
    + simpl in Hne. rewrite <- Hb. unfold flushEndpointTierUpdate, recordEndpointSent.
      repeat case_match; simpl; rewrite ?lookup_delete_ne; done.
    + simpl in Hke. subst k. apply elem_of_map_to_list in Hy.
      assert (e = ep) as -> by congruence.
      by rewrite (flushEndpointTierUpdate_out_ext (key, ep) buf b).
Qed.

(** The removes of a flush that returns are exactly those of the deletes
    pending when it starts, one visit each: for endpoints, profiles,
    policies, IP sets, host IPs and IP pools. *)
Theorem Flush_hands_out_removes buf m :
  run_fault (Flush buf) = None ->
  match stage m with
  | 8 => m ∈ run_out (Flush buf) <->
         exists key, key ∈ pendingEndpointDeletes buf /\
           m ∈ run_out (flushEndpointTierDelete key buf)
  | 9 => m ∈ run_out (Flush buf) <->
         exists key, key ∈ pendingProfileDeletes buf /\
           m ∈ run_out (flushProfileDelete key buf)
  | 10 => m ∈ run_out (Flush buf) <->
          exists key, key ∈ pendingPolicyDeletes buf /\
            m ∈ run_out (flushPolicyDelete key buf)
  | 11 => m ∈ run_out (Flush buf) <->
          exists setID, setID ∈ pendingRemovedIPSets buf /\
            m ∈ run_out (flushRemovedIPSet setID buf)
  | 12 => m ∈ run_out (Flush buf) <->
          exists host, host ∈ pendingHostIPDeletes buf /\
            m ∈ run_out (flushHostIPDelete host buf)
  | 14 => m ∈ run_out (Flush buf) <->
          exists item, item ∈ pendingIPPoolDeletes buf /\
            m ∈ run_out (flushIPPoolDelete item buf)
  | _ => True
  end.
Proof.
  intros Hf.
  destruct (stage m) as [|[|[|[|[|[|[|[|[|[|[|[|[|[|[|[|n]]]]]]]]]]]]]]]] eqn:Hst; try done.
  - by apply Flush_endpoint_removes.
  - by apply Flush_profile_removes.
  - by apply Flush_policy_removes.
  - by apply Flush_ipset_removes.
  - by apply Flush_hostip_removes.
  - by apply Flush_pool_removes.
Qed.

(** The adds and updates of a flush that returns are exactly those of
    the adds and updates pending when it starts, one visit each: for IP
    sets, policies, profiles, endpoints, host IPs and IP pools. *)
Theorem Flush_hands_out_updates buf m :
  run_fault (Flush buf) = None ->
  match stage m with
  | 3 => m ∈ run_out (Flush buf) <->
         exists setID, setID ∈ pendingAddedIPSets buf /\
           m ∈ run_out (flushAddedIPSet setID buf)
  | 5 => m ∈ run_out (Flush buf) <->
         exists key rules, pendingPolicyUpdates buf !! key = Some rules /\
           m ∈ run_out (flushPolicyUpdate (key, rules) buf)
  | 6 => m ∈ run_out (Flush buf) <->
         exists key rules, pendingProfileUpdates buf !! key = Some rules /\
           m ∈ run_out (flushProfileUpdate (key, rules) buf)
  | 7 => m ∈ run_out (Flush buf) <->
         exists key ep, pendingEndpointUpdates buf !! key = Some ep /\
           m ∈ run_out (flushEndpointTierUpdate (key, ep) buf)
  | 13 => m ∈ run_out (Flush buf) <->
          exists host ip, pendingHostIPUpdates buf !! host = Some ip /\
            m ∈ run_out (flushHostIPUpdate (host, ip) buf)
  | 15 => m ∈ run_out (Flush buf) <->
          exists cidr pool, pendingIPPoolUpdates buf !! cidr = Some pool /\
            m ∈ run_out (flushIPPoolUpdate (cidr, pool) buf)
  | _ => True
  end.
Proof.
  intros Hf.
  destruct (stage m) as [|[|[|[|[|[|[|[|[|[|[|[|[|[|[|[|n]]]]]]]]]]]]]]]] eqn:Hst; try done.
  - by apply Flush_ipset_updates.
  - by apply Flush_policy_updates.
  - by apply Flush_profile_updates.
  - by apply Flush_endpoint_updates.
  - by apply Flush_hostip_updates.
  - by apply Flush_pool_updates.
Qed.

(** *** The delta updates of a flush *)

Lemma multidict_Iter_ext k (m1 m2 : gmap string (gset Addr)) :
  m1 !! k = m2 !! k -> multidict_Iter k m1 = multidict_Iter k m2.
Proof. unfold multidict_Iter. by intros ->. Qed.

Lemma flushAddsOrRemoves_loop (items : list string) b :
  NoDup items ->
  run_out (forEach flushAddsOrRemoves items b) =
  (fun s => IPSetDeltaUpdate s (Addr_String <$> multidict_Iter s (pendingAddedIPs b))
              (Addr_String <$> multidict_Iter s (pendingRemovedIPs b))) <$> items.
Proof.
  revert b. induction items as [|x items IH]; intros b Hnd; [done|].
  apply NoDup_cons in Hnd as [Hx Hnd].
  rewrite forEach_cons, andThen_out by done. rewrite fmap_cons. simpl run_out at 1.
  simpl. f_equal.
  rewrite IH by done. apply list_fmap_ext. intros i s Hs. simpl.
  rewrite !multidict_Iter_DiscardKey_ne; [done|..];
    intros ->; apply Hx; by eapply list_elem_of_lookup_2.
Qed.

(** The pending IPs that a loop over set ids leaves. *)
Lemma flushAddsOrRemoves_loop_state (items : list string) b k :
  pendingAddedIPs (run_state (forEach flushAddsOrRemoves items b)) !! k
    = (if decide (k ∈ items) then None else pendingAddedIPs b !! k) /\
  pendingRemovedIPs (run_state (forEach flushAddsOrRemoves items b)) !! k
    = (if decide (k ∈ items) then None else pendingRemovedIPs b !! k).
Proof.
  revert b. induction items as [|x items IH]; intros b.
  { split; (destruct (decide (k ∈ [])) as [H|_]; [by apply elem_of_nil in H|reflexivity]). }
  rewrite forEach_cons, andThen_state by done.
  destruct (IH (run_state (flushAddsOrRemoves x b))) as [-> ->]. simpl.
  unfold multidict_DiscardKey.
  destruct (decide (k ∈ items)) as [Hk|Hk].
  - rewrite !decide_True by (by right). done.
  - destruct (decide (k = x)) as [->|Hne].
    + rewrite !decide_True by (by left). by rewrite !lookup_delete_eq.
    + rewrite !decide_False by (by intros [?|?]%elem_of_cons).
      by rewrite !lookup_delete_ne.
Qed.

Lemma flushAddedIPSet_loop_state (items : list string) b k :
  pendingAddedIPs (run_state (forEach flushAddedIPSet items b)) !! k
    = (if decide (k ∈ items) then None else pendingAddedIPs b !! k) /\
  pendingRemovedIPs (run_state (forEach flushAddedIPSet items b))
    = pendingRemovedIPs b.
Proof.
  revert b. induction items as [|x items IH]; intros b.
  { split; [|reflexivity].
    destruct (decide (k ∈ [])) as [H|_]; [by apply elem_of_nil in H|reflexivity]. }
  rewrite forEach_cons, andThen_state by done.
  destruct (IH (run_state (flushAddedIPSet x b))) as [-> ->]. simpl.
  split; [|done]. unfold multidict_DiscardKey.
  destruct (decide (k ∈ items)) as [Hk|Hk].
  - rewrite decide_True by (by right). done.
  - destruct (decide (k = x)) as [->|Hne].
    + rewrite decide_True by (by left). by rewrite lookup_delete_eq.
    + rewrite decide_False by (by intros [?|?]%elem_of_cons).
      by rewrite lookup_delete_ne.
Qed.

(** The messages of [flushIPSetDeltas]: one for every set with pending
    IPs, with the pending adds and removes of the set. *)
Lemma flushIPSetDeltas_out_iff b m :
  m ∈ run_out (flushIPSetDeltas b) <->
  exists s, (s ∈ dom (pendingRemovedIPs b) \/ s ∈ dom (pendingAddedIPs b)) /\
    m = IPSetDeltaUpdate s (Addr_String <$> multidict_Iter s (pendingAddedIPs b))
          (Addr_String <$> multidict_Iter s (pendingRemovedIPs b)).
Proof.
  unfold flushIPSetDeltas, multidict_IterKeys.
  rewrite andThen_out by (by apply forEach_never_faults).
  rewrite !flushAddsOrRemoves_loop by apply NoDup_elements.
  set (b1 := run_state (forEach flushAddsOrRemoves (elements (dom (pendingRemovedIPs b))) b)).
  assert (Hst : forall k,
    pendingAddedIPs b1 !! k
      = (if decide (k ∈ dom (pendingRemovedIPs b)) then None else pendingAddedIPs b !! k) /\
    pendingRemovedIPs b1 !! k
      = (if decide (k ∈ dom (pendingRemovedIPs b)) then None else pendingRemovedIPs b !! k)).
  { intros k.
    destruct (flushAddsOrRemoves_loop_state (elements (dom (pendingRemovedIPs b))) b k)
      as [E1 E2].
    fold b1 in E1, E2. rewrite E1, E2.
    destruct (decide (k ∈ dom (pendingRemovedIPs b))) as [Hk|Hk].
    - rewrite !decide_True by (by apply elem_of_elements). done.
    - rewrite !decide_False by (by rewrite elem_of_elements). done. }
  rewrite elem_of_app, !list_elem_of_fmap. split.
  - intros [(s & -> & Hs)|(s & -> & Hs)]; exists s.
    + apply elem_of_elements in Hs. split; [by left|done].
    + apply elem_of_elements, elem_of_dom in Hs. destruct (Hst s) as [E1 E2].
      destruct (decide (s ∈ dom (pendingRemovedIPs b))) as [Hk|Hk].
      { rewrite E1 in Hs. by destruct Hs. }
      split.
      * right. apply elem_of_dom. by rewrite <- E1.
      * by rewrite (multidict_Iter_ext s _ _ E1), (multidict_Iter_ext s _ _ E2).
  - intros (s & Hs & ->).
    destruct (decide (s ∈ dom (pendingRemovedIPs b))) as [Hk|Hk].
    + left. exists s. split; [done|]. by apply elem_of_elements.
    + right. exists s. destruct Hs as [Hs|Hs]; [done|].
      destruct (Hst s) as [E1 E2]. rewrite decide_False in E1, E2 by done. split.
      * by rewrite (multidict_Iter_ext s _ _ E1), (multidict_Iter_ext s _ _ E2).
      * apply elem_of_elements, elem_of_dom. rewrite E1. by apply elem_of_dom.
Qed.

(** The pending IPs when [flushIPSetDeltas] starts: the adds of the sets
    whose add went out are gone. *)
Lemma before_flushIPSetDeltas buf k :
  let b := run_state (forEach (fun s => s) (take 3 flushSteps) buf) in
  run_fault (forEach (fun s => s) (take 3 flushSteps) buf) = None ->
  pendingAddedIPs b !! k
    = (if decide (k ∈ pendingAddedIPSets buf) then None else pendingAddedIPs buf !! k) /\
  pendingRemovedIPs b = pendingRemovedIPs buf.
Proof.
  cbv zeta. intros Hf.
  destruct (prefix_S 2 flushAddedIPSets buf eq_refl Hf) as [_ ->].
  destruct (before_flushAddedIPSets buf) as (E1 & E2 & E3 & _). cbv zeta in E1, E2, E3.
  unfold flushAddedIPSets.
  destruct (flushAddedIPSet_loop_state
    (elements (pendingAddedIPSets (run_state (forEach (fun s => s) (take 2 flushSteps) buf))))
    (run_state (forEach (fun s => s) (take 2 flushSteps) buf)) k) as [-> ->].
  rewrite E1, E2, E3. split; [|done].
  destruct (decide (k ∈ pendingAddedIPSets buf)) as [Hk|Hk].
  - by rewrite decide_True by (by apply elem_of_elements).
  - by rewrite decide_False by (by rewrite elem_of_elements).
Qed.

(** The delta updates of a flush that returns: one for every set with
    pending IP removes, or with pending IP adds and no pending add of the
    set itself; the IP adds of a set whose add is pending go out with the
    add of the set and not with the delta.  Between two calls, no delta
    update goes out empty. *)
Theorem Flush_hands_out_deltas buf m :
  run_fault (Flush buf) = None -> stage m = 4 ->
  (m ∈ run_out (Flush buf) <->
   exists s,
     (s ∈ dom (pendingRemovedIPs buf) \/
      (s ∈ dom (pendingAddedIPs buf) /\ s ∉ pendingAddedIPSets buf)) /\
     m = IPSetDeltaUpdate s
           (Addr_String <$> (if decide (s ∈ pendingAddedIPSets buf) then []
                             else multidict_Iter s (pendingAddedIPs buf)))
           (Addr_String <$> multidict_Iter s (pendingRemovedIPs buf))) /\
  (reachable buf -> m ∈ run_out (Flush buf) ->
   exists s added removed,
     m = IPSetDeltaUpdate s added removed /\ (added <> [] \/ removed <> [])).
Proof.
  intros Hf Hst.
  assert (Hiff : m ∈ run_out (Flush buf) <->
   exists s,
     (s ∈ dom (pendingRemovedIPs buf) \/
      (s ∈ dom (pendingAddedIPs buf) /\ s ∉ pendingAddedIPSets buf)) /\
     m = IPSetDeltaUpdate s
           (Addr_String <$> (if decide (s ∈ pendingAddedIPSets buf) then []
                             else multidict_Iter s (pendingAddedIPs buf)))
           (Addr_String <$> multidict_Iter s (pendingRemovedIPs buf))).
  { etrans; [apply (Flush_stage_iff 3 flushIPSetDeltas buf m eq_refl Hst Hf)|].
    destruct (Flush_step_returns 3 flushIPSetDeltas buf eq_refl Hf) as [Hp _].
    rewrite flushIPSetDeltas_out_iff.
    assert (HA : forall k,
      pendingAddedIPs (run_state (forEach (fun s => s) (take 3 flushSteps) buf)) !! k
      = (if decide (k ∈ pendingAddedIPSets buf) then None else pendingAddedIPs buf !! k)).
    { intros k. by destruct (before_flushIPSetDeltas buf k Hp). }
    destruct (before_flushIPSetDeltas buf "" Hp) as [_ ->].
    assert (HI : forall s,
      multidict_Iter s (pendingAddedIPs
          (run_state (forEach (fun s => s) (take 3 flushSteps) buf)))
      = (if decide (s ∈ pendingAddedIPSets buf) then []
         else multidict_Iter s (pendingAddedIPs buf))).
    { intros s. unfold multidict_Iter at 1. rewrite HA.
      destruct (decide (s ∈ pendingAddedIPSets buf)); [|done].
      simpl. apply elements_empty. }
    split; intros (s & Hs & ->); exists s; rewrite HI || rewrite <- HI; (split; [|done]).
    - destruct Hs as [Hs|Hs]; [by left|right].
      apply elem_of_dom in Hs. rewrite HA in Hs.
      destruct (decide (s ∈ pendingAddedIPSets buf)); [by destruct Hs|].
      split; [by apply elem_of_dom|done].
    - destruct Hs as [Hs|[Hs Hn]]; [by left|right].
      apply elem_of_dom. rewrite HA, decide_False by done. by apply elem_of_dom. }
  split; [exact Hiff|].
  intros [Hna Hnr]%reachable_nonempty Hm. apply Hiff in Hm as (s & Hs & ->).
  eexists _, _, _. split; [done|].
  assert (Hne : forall (d : gmap string (gset Addr)), nonempty_values d -> s ∈ dom d ->
            Addr_String <$> multidict_Iter s d <> []).
  { intros d Hd [x Hx]%elem_of_dom. unfold multidict_Iter. rewrite Hx. simpl.
    intros Hnil%fmap_nil_inv. apply elements_empty_inv in Hnil.
    apply (Hd s x Hx). by apply leibniz_equiv. }
  destruct Hs as [Hs|[Hs Hn]]; [right; by apply Hne|left].
  rewrite decide_False by done. by apply Hne.
Qed.

(** *** When a flush returns *)



Lemma flushConfigUpdate_fault_ext b b' :
  config b' = config b -> pendingGlobalConfig b' = pendingGlobalConfig b ->
  pendingHostConfig b' = pendingHostConfig b ->
  run_fault (flushConfigUpdate b') = run_fault (flushConfigUpdate b).
Proof.
  intros E1 E2 E3. unfold flushConfigUpdate. simpl. rewrite E1, E2, E3.
  repeat case_match; simplify_eq; reflexivity.
Qed.





Lemma flushReadyFlag_config buf :
  config (run_state (flushReadyFlag buf)) = config buf /\
  pendingGlobalConfig (run_state (flushReadyFlag buf)) = pendingGlobalConfig buf /\
  pendingHostConfig (run_state (flushReadyFlag buf)) = pendingHostConfig buf /\
  run_fault (flushReadyFlag buf) = None.
Proof. unfold flushReadyFlag. by case_match. Qed.

Lemma flushConfigUpdate_after_flag buf :
  run_fault (flushConfigUpdate (run_state (flushReadyFlag buf)))
    = run_fault (flushConfigUpdate buf) /\
  run_out (flushConfigUpdate (run_state (flushReadyFlag buf)))
    = run_out (flushConfigUpdate buf).
Proof.
  destruct (flushReadyFlag_config buf) as (E1 & E2 & E3 & _).
  split; [by apply flushConfigUpdate_fault_ext|].
  unfold flushConfigUpdate. simpl. rewrite E1, E2, E3.
  repeat case_match; simplify_eq; reflexivity.
Qed.


(** *** How a flush stops *)

Lemma forEach_fault_at {X : Type} (body : X -> EventSequencer -> FlushRun) items buf f :
  run_fault (forEach body items buf) = Some f ->
  exists i x, items !! i = Some x /\
    run_fault (forEach body (take i items) buf) = None /\
    run_out (forEach body items buf)
      = run_out (forEach body (take i items) buf)
        ++ run_out (body x (run_state (forEach body (take i items) buf))) /\
    run_fault (body x (run_state (forEach body (take i items) buf))) = Some f.
Proof.
  revert buf. induction items as [|x items IH]; intros buf; [done|].
  rewrite forEach_cons.
  destruct (run_fault (body x buf)) as [f'|] eqn:E.
  - rewrite (andThen_faulted _ _ _ E). intros Hf. exists 0, x. simpl.
    split; [done|]. split; [done|]. split; [done|]. congruence.
  - rewrite andThen_fault by done. intros Hf.
    destruct (IH _ Hf) as (i & y & Hi & H1 & H2 & H3).
    exists (S i), y. simpl. rewrite !andThen_fault, !andThen_state, !andThen_out by done.
    rewrite H2, app_assoc. done.
Qed.

Lemma flushSteps_fault (i : nat) (s : EventSequencer -> FlushRun) b f :
  flushSteps !! i = Some s -> run_fault (s b) = Some f ->
  (i = 1 /\ f = LogFatal "Failed to parse config update") \/
  (i <> 1 /\ (f = NilDereference \/ f = TypeAssertion)).
Proof.
  intros Hi. pick_step i Hi; unfold_steps; intros Hf;
    try (left; split; [done|]; repeat case_match; simpl in Hf; by simplify_eq);
    right; (split; [done|]);
    try (unfold andThen in Hf; case_match);
    try (apply forEach_fault_at in Hf as (j & x & _ & _ & _ & Hf));
    simpl in Hf; repeat case_match; simpl in Hf; simplify_eq; auto.
Qed.

(** A flush that stops stops either at the config update, on a config
    that does not parse, having handed out at most the not-ready signal;
    or after it, on a nil pointer or a value of the wrong type.  It never
    stops in [log.Panic]. *)
Theorem Flush_faults buf f :
  run_fault (Flush buf) = Some f ->
  (f = LogFatal "Failed to parse config update" /\
   run_fault (flushConfigUpdate buf) = Some f /\
   run_out (Flush buf) = (if pendingNotReady buf then [DatastoreNotReady] else [])) \/
  ((f = NilDereference \/ f = TypeAssertion) /\
   run_fault (flushConfigUpdate buf) = None).
Proof.
  intros Hf. rewrite Flush_forEach in *.
  apply forEach_fault_at in Hf as (i & s & Hi & Hp & Hout & Hs).
  destruct (flushSteps_fault i s _ f Hi Hs) as [[-> ->]|[Hne Hk]].
  - left. split; [done|]. injection Hi as <-.
    remember (run_out (forEach (fun s => s) flushSteps buf)) as out eqn:Eout. clear Eout.
    change (take 1 flushSteps) with [flushReadyFlag] in *.
    rewrite forEach_cons in Hs, Hout.
    rewrite andThen_state in Hs, Hout by apply flushReadyFlag_config.
    rewrite andThen_out in Hout by apply flushReadyFlag_config.
    simpl in Hs, Hout.
    destruct (flushConfigUpdate_after_flag buf) as [E1 E2]. rewrite E1 in Hs.
    split; [done|]. rewrite Hout, E2.
    assert (run_out (flushConfigUpdate buf) = []) as ->.
    { unfold flushConfigUpdate in *. repeat case_match; simpl in *; simplify_eq; done. }
    unfold flushReadyFlag. by destruct (pendingNotReady buf).
  - right. split; [done|].
    destruct i as [|[|i]]; [by injection Hi as <-; destruct (flushReadyFlag_config
        (run_state (forEach (fun s => s) (take 0 flushSteps) buf))) as (_ & _ & _ & E);
        simpl in *; congruence|done|].
    assert (Hp1 : run_fault (forEach (fun s => s) (take 2 flushSteps) buf) = None).
    { clear -Hp Hi. apply lookup_lt_Some in Hi.
      rewrite <- (take_drop 2 (take (S (S i)) flushSteps)) in Hp.
      rewrite take_take, Nat.min_l in Hp by lia.
      rewrite forEach_app in Hp. by apply andThen_fault_None in Hp as [? _]. }
    destruct (prefix_S 1 flushConfigUpdate buf eq_refl Hp1) as [_ _].
    change (take 2 flushSteps) with [flushReadyFlag; flushConfigUpdate] in Hp1.
    rewrite !forEach_cons in Hp1.
    rewrite andThen_fault in Hp1 by apply flushReadyFlag_config.
    apply andThen_fault_None in Hp1 as [Hp1 _].
    by rewrite (proj1 (flushConfigUpdate_after_flag buf)) in Hp1.
Qed.

(** *** The not-ready signal and the config update *)

(** [Flush] as its first two steps and the rest. *)
Lemma Flush_head buf :
  Flush buf = andThen (flushReadyFlag buf)
                (fun b => andThen (flushConfigUpdate b)
                            (forEach (fun s => s) (drop 2 flushSteps))).
Proof.
  rewrite Flush_forEach. unfold flushSteps at 1. rewrite forEach_cons.
  apply andThen_ext. intros b. by rewrite forEach_cons.
Qed.

Lemma step_frame_config (i : nat) (s : EventSequencer -> FlushRun) b :
  flushSteps !! i = Some s ->
  (i <> 1 -> config (run_state (s b)) = config b) /\
  (i <> 1 -> pendingHostConfig (run_state (s b)) = pendingHostConfig b) /\
  (i <> 0 -> pendingNotReady (run_state (s b)) = pendingNotReady b).
Proof.
  intros Hi. pick_step i Hi; (split; [|split]); frame_or_skip.
Qed.

Lemma suffix_field {A : Type} (field : EventSequencer -> A) (i : nat) b :
  (forall j s b, i <= j -> flushSteps !! j = Some s -> field (run_state (s b)) = field b) ->
  field (run_state (forEach (fun s => s) (drop i flushSteps) b)) = field b.
Proof.
  intros H. apply (forEach_state_ind (fun b' => field b' = field b)); [|done].
  intros s b' Hs <-. apply list_elem_of_lookup in Hs as [j Hj].
  rewrite lookup_drop in Hj. eapply H; [|exact Hj]. lia.
Qed.

Lemma suffix_stage (i : nat) b m :
  m ∈ run_out (forEach (fun s => s) (drop i flushSteps) b) -> i < stage m.
Proof.
  intros (j & s & Hj & _ & Hm)%forEach_out_at. rewrite lookup_drop in Hj.
  rewrite (flushSteps_stage _ _ _ _ Hj Hm). lia.
Qed.

(** The not-ready signal, when pending, is the first message of a flush
    and goes out once; whether the flush returns or not, the signal is
    not pending after it. *)
Theorem Flush_not_ready_first buf :
  exists rest,
    run_out (Flush buf) = (if pendingNotReady buf then [DatastoreNotReady] else []) ++ rest /\
    (forall m, m ∈ rest -> m <> DatastoreNotReady) /\
    pendingNotReady (run_state (Flush buf)) = false.
Proof.
  rewrite Flush_head.
  destruct (flushReadyFlag_config buf) as (_ & _ & _ & Hf).
  rewrite andThen_out, andThen_state by done.
  set (b1 := run_state (flushReadyFlag buf)).
  assert (Hb1 : pendingNotReady b1 = false).
  { unfold b1, flushReadyFlag. by destruct (pendingNotReady buf) eqn:E. }
  eexists. split; [|split].
  - f_equal. unfold flushReadyFlag. by destruct (pendingNotReady buf).
  - intros m Hm ->. change (andThen (flushConfigUpdate b1)
        (forEach (fun s => s) (drop 2 flushSteps)))
      with (forEach (fun s => s) (drop 1 flushSteps) b1) in Hm.
    apply suffix_stage in Hm. simpl in Hm. lia.
  - change (andThen (flushConfigUpdate b1) (forEach (fun s => s) (drop 2 flushSteps)))
      with (forEach (fun s => s) (drop 1 flushSteps) b1).
    rewrite <- Hb1. apply suffix_field. intros j s b Hj Hs.
    apply (step_frame_config j s b Hs). lia.
Qed.

Lemma flushConfigUpdate_out b c :
  ConfigUpdate c ∈ run_out (flushConfigUpdate b) ->
  c = Config_RawValues (config (run_state (flushConfigUpdate b))).
Proof.
  unfold flushConfigUpdate.
  destruct (pendingGlobalConfig b); [|by intros ?%elem_of_nil].
  destruct (Config_UpdateFrom (config b) _ DatastoreGlobal) as [[conf1 ch1] [e1|]];
    simpl; [by intros ?%elem_of_nil|].
  destruct (Config_UpdateFrom conf1 _ DatastorePerHost) as [[conf2 ch2] [e2|]];
    simpl; [by intros ?%elem_of_nil|].
  destruct (ch1 || ch2)%bool; [|by intros ?%elem_of_nil].
  intros Hm%list_elem_of_singleton. by injection Hm as ->.
Qed.

(** The config update of a flush is that of [flushConfigUpdate] on the
    state the flush starts in, whether a later step stops the flush or
    not; the config it carries is the one the flush leaves.  With no
    global config pending, a flush leaves the config and a pending host
    config as they are and hands out no config update. *)
Theorem Flush_config_update buf :
  (forall m, stage m = 2 ->
     m ∈ run_out (Flush buf) <-> m ∈ run_out (flushConfigUpdate buf)) /\
  (forall c, ConfigUpdate c ∈ run_out (Flush buf) ->
     c = Config_RawValues (config (run_state (Flush buf)))) /\
  (pendingGlobalConfig buf = None ->
     config (run_state (Flush buf)) = config buf /\
     pendingHostConfig (run_state (Flush buf)) = pendingHostConfig buf /\
     forall c, ConfigUpdate c ∉ run_out (Flush buf)).
Proof.
  destruct (flushReadyFlag_config buf) as (E1 & E2 & E3 & Hf).
  destruct (flushConfigUpdate_after_flag buf) as [F1 F2].
  set (b1 := run_state (flushReadyFlag buf)) in *.
  assert (Hout : forall m, stage m = 2 ->
            m ∈ run_out (Flush buf) <-> m ∈ run_out (flushConfigUpdate buf)).
  { intros m Hst. rewrite Flush_head, andThen_out by done. fold b1.
    rewrite elem_of_app, <- F2. split.
    - intros [Hm|Hm].
      + unfold flushReadyFlag in Hm. case_match; simpl in Hm.
        * by apply elem_of_nil in Hm.
        * apply list_elem_of_singleton in Hm. by subst m.
      + apply andThen_out_elem in Hm as [Hm|[_ Hm]]; [done|].
        apply suffix_stage in Hm. lia.
    - intros Hm. right. unfold andThen. case_match; [done|]. simpl.
      apply elem_of_app. by left. }
  assert (Hconf : forall A (field : EventSequencer -> A),
            (forall j s b, 2 <= j -> flushSteps !! j = Some s ->
               field (run_state (s b)) = field b) ->
            field (run_state (Flush buf)) = field (run_state (flushConfigUpdate b1))).
  { intros A field Hfr. rewrite Flush_head, andThen_state by done. fold b1.
    destruct (run_fault (flushConfigUpdate b1)) as [f|] eqn:Hfc.
    - by rewrite (andThen_faulted _ _ _ Hfc).
    - rewrite andThen_state by done. by apply suffix_field. }
  assert (Hc : config (run_state (Flush buf)) = config (run_state (flushConfigUpdate b1))).
  { apply Hconf. intros j s b Hj Hs. apply (step_frame_config j s b Hs). lia. }
  assert (Hh : pendingHostConfig (run_state (Flush buf))
               = pendingHostConfig (run_state (flushConfigUpdate b1))).
  { apply Hconf. intros j s b Hj Hs. apply (step_frame_config j s b Hs). lia. }
  split; [exact Hout|]. split.
  - intros c Hm. apply (Hout (ConfigUpdate c) eq_refl) in Hm. rewrite <- F2 in Hm. rewrite Hc.
    by apply flushConfigUpdate_out.
  - intros Hn. rewrite Hc, Hh.
    assert (Hd : flushConfigUpdate b1 = done b1).
    { unfold flushConfigUpdate. by rewrite E2, Hn. }
    rewrite Hd. simpl. split; [done|]. split; [done|].
    intros c Hm. apply (Hout (ConfigUpdate c) eq_refl) in Hm. rewrite <- F2, Hd in Hm.
    by apply elem_of_nil in Hm.
Qed.

(** *** IP pool ids *)

Lemma replace_first_slash_length (s : string) :
  String.length (replace_first_slash s) = String.length s.
Proof.
  induction s as [|c s IH]; [done|]. simpl.
  destruct (Ascii.eqb c "/"); simpl; by rewrite ?IH.
Qed.

Lemma replace_first_slash_inj (s t : string) :
  ~ In "-"%char (list_ascii_of_string s) -> ~ In "-"%char (list_ascii_of_string t) ->
  replace_first_slash s = replace_first_slash t -> s = t.
Proof.
  revert t. induction s as [|c s IH]; intros [|d t] Hs Ht; simpl in *.
  - done.
  - destruct (Ascii.eqb d "/"); discriminate.
  - destruct (Ascii.eqb c "/"); discriminate.
  - destruct (Ascii.eqb_spec c "/") as [->|Hc], (Ascii.eqb_spec d "/") as [->|Hd].
    + by intros [= ->].
    + intros [= <- _]. tauto.
    + intros [= -> _]. tauto.
    + intros [= -> Heq]. f_equal. apply IH; tauto.
Qed.

(** [cidrToIPPoolID] keeps the length of the CIDR's string, and two CIDRs
    whose strings hold no dash have the same id only when they print the
    same. *)
Theorem cidrToIPPoolID_injective (c1 c2 : CIDR) :
  ~ In "-"%char (list_ascii_of_string (CIDR_String c1)) ->
  ~ In "-"%char (list_ascii_of_string (CIDR_String c2)) ->
  String.length (cidrToIPPoolID c1) = String.length (CIDR_String c1) /\
  (cidrToIPPoolID c1 = cidrToIPPoolID c2 -> CIDR_String c1 = CIDR_String c2).
Proof.
  intros H1 H2. split; [apply replace_first_slash_length|].
  by apply replace_first_slash_inj.
Qed.

(** *** The output of a flush that returns *)

(** The output of a loop whose visits hand out at most one message each. *)
Lemma forEach_out_omap {X : Type} (Inv : list X -> EventSequencer -> Prop)
    (body : X -> EventSequencer -> FlushRun) (msg : X -> option Message) items buf :
  Inv items buf ->
  (forall x rest b, Inv (x :: rest) b -> run_fault (body x b) = None ->
     run_out (body x b) = option_list (msg x) /\ Inv rest (run_state (body x b))) ->
  run_fault (forEach body items buf) = None ->
  run_out (forEach body items buf) = omap msg items.
Proof.
  intros HI Hbody. revert buf HI. induction items as [|x items IH]; intros buf HI; [done|].
  rewrite forEach_cons. intros [H1 H2]%andThen_fault_None.
  rewrite andThen_out by done. destruct (Hbody x items buf HI H1) as [-> HI'].
  rewrite (IH _ HI' H2). simpl. by destruct (msg x).
Qed.

(** The output of a loop whose visits hand out one message each. *)
Lemma forEach_out_fmap {X : Type}
    (body : X -> EventSequencer -> FlushRun) (msg : X -> Message) items buf :
  (forall x b, run_fault (body x b) = None -> run_out (body x b) = [msg x]) ->
  run_fault (forEach body items buf) = None ->
  run_out (forEach body items buf) = msg <$> items.
Proof.
  intros Hbody. revert buf. induction items as [|x items IH]; intros buf; [done|].
  rewrite forEach_cons. intros [H1 H2]%andThen_fault_None.
  rewrite andThen_out by done. rewrite (Hbody x buf H1), (IH _ H2). done.
Qed.

Lemma prefix_returns (i : nat) buf :
  run_fault (Flush buf) = None ->
  run_fault (forEach (fun s => s) (take i flushSteps) buf) = None.
Proof.
  rewrite Flush_forEach. rewrite <- (take_drop i flushSteps) at 1.
  rewrite forEach_app. by intros [? _]%andThen_fault_None.
Qed.

Lemma prefix_out_S (i : nat) (s : EventSequencer -> FlushRun) buf :
  flushSteps !! i = Some s ->
  run_fault (forEach (fun s => s) (take i flushSteps) buf) = None ->
  run_out (forEach (fun s => s) (take (S i) flushSteps) buf)
  = run_out (forEach (fun s => s) (take i flushSteps) buf)
    ++ run_out (s (run_state (forEach (fun s => s) (take i flushSteps) buf))).
Proof.
  intros Hi Hf. rewrite (take_S_r _ _ _ Hi), forEach_app.
  rewrite andThen_out by done. f_equal.
  set (b := run_state (forEach (fun s => s) (take i flushSteps) buf)).
  rewrite forEach_cons. destruct (run_fault (s b)) eqn:E.
  - by rewrite (andThen_faulted _ _ _ E).
  - rewrite andThen_out by done. simpl. by rewrite app_nil_r.
Qed.

(** The output of [flushIPSetDeltas]: a delta for every set with pending
    IP removes, then one for every other set with pending IP adds. *)
Lemma flushIPSetDeltas_exact b :
  run_out (flushIPSetDeltas b) =
  (fun s => IPSetDeltaUpdate s (Addr_String <$> multidict_Iter s (pendingAddedIPs b))
              (Addr_String <$> multidict_Iter s (pendingRemovedIPs b)))
    <$> (elements (dom (pendingRemovedIPs b))
         ++ elements (dom (pendingAddedIPs b) ∖ dom (pendingRemovedIPs b))).
Proof.
  unfold flushIPSetDeltas, multidict_IterKeys.
  rewrite andThen_out by (by apply forEach_never_faults).
  rewrite !flushAddsOrRemoves_loop by apply NoDup_elements.
  set (b1 := run_state (forEach flushAddsOrRemoves (elements (dom (pendingRemovedIPs b))) b)).
  assert (Hst : forall k,
    pendingAddedIPs b1 !! k
      = (if decide (k ∈ dom (pendingRemovedIPs b)) then None else pendingAddedIPs b !! k) /\
    pendingRemovedIPs b1 !! k
      = (if decide (k ∈ dom (pendingRemovedIPs b)) then None else pendingRemovedIPs b !! k)).
  { intros k.
    destruct (flushAddsOrRemoves_loop_state (elements (dom (pendingRemovedIPs b))) b k)
      as [E1 E2].
    fold b1 in E1, E2. rewrite E1, E2.
    destruct (decide (k ∈ dom (pendingRemovedIPs b))) as [Hk|Hk].
    - rewrite !decide_True by (by apply elem_of_elements). done.
    - rewrite !decide_False by (by rewrite elem_of_elements). done. }
  assert (Hdom : dom (pendingAddedIPs b1)
                 = dom (pendingAddedIPs b) ∖ dom (pendingRemovedIPs b)).
  { apply set_eq. intros k. rewrite elem_of_difference, !elem_of_dom.
    destruct (Hst k) as [-> _].
    destruct (decide (k ∈ dom (pendingRemovedIPs b))) as [Hk|Hk].
    - split; [by intros [? ?]|]. intros [_ Hn]. destruct Hn. by apply elem_of_dom.
    - split; [|by intros [? _]]. intros H. split; [done|]. by rewrite <- elem_of_dom. }
  rewrite Hdom, fmap_app. f_equal.
  apply list_fmap_ext. intros i s Hs. apply list_elem_of_lookup_2 in Hs.
  apply elem_of_elements, elem_of_difference in Hs as [_ Hs].
  destruct (Hst s) as [E1 E2]. rewrite decide_False in E1, E2 by done.
  by rewrite (multidict_Iter_ext s _ _ E1), (multidict_Iter_ext s _ _ E2).
Qed.

Lemma flushConfigUpdate_exact b :
  run_fault (flushConfigUpdate b) = None ->
  run_out (flushConfigUpdate b) = configMessages b.
Proof.
  unfold flushConfigUpdate, configMessages.
  destruct (pendingGlobalConfig b); [|done].
  destruct (Config_UpdateFrom (config b) _ DatastoreGlobal) as [[conf1 ch1] [e1|]];
    simpl; [discriminate|].
  destruct (Config_UpdateFrom conf1 _ DatastorePerHost) as [[conf2 ch2] [e2|]];
    simpl; [discriminate|].
  by destruct (ch1 || ch2)%bool.
Qed.

(** The output of each step of a flush that returns, read off the state
    the flush starts in. *)
Lemma Flush_step0_out buf :
  run_out (flushReadyFlag (run_state (forEach (fun s => s) (take 0 flushSteps) buf))) = notReadyMessages buf.
Proof.
  unfold notReadyMessages, flushReadyFlag. simpl. by destruct (pendingNotReady buf).
Qed.

Lemma Flush_step1_out buf :
  run_fault (Flush buf) = None ->
  run_out (flushConfigUpdate (run_state (forEach (fun s => s) (take 1 flushSteps) buf))) = configMessages buf.
Proof.
  intros Hf.
  destruct (Flush_step_returns 1 flushConfigUpdate buf eq_refl Hf) as [Hp Hs].
  rewrite flushConfigUpdate_exact by done.
  unfold configMessages.
  assert (E1 : config (run_state (forEach (fun s => s) (take 1 flushSteps) buf)) = config buf).
  { apply prefix_field. intros j s b Hj Hi. apply (step_frame_config j s b Hi). lia. }
  assert (E3 : pendingHostConfig (run_state (forEach (fun s => s) (take 1 flushSteps) buf)) = pendingHostConfig buf).
  { apply prefix_field. intros j s b Hj Hi. apply (step_frame_config j s b Hi). lia. }
  assert (E2 : pendingGlobalConfig (run_state (forEach (fun s => s) (take 1 flushSteps) buf)) = pendingGlobalConfig buf).
  { apply prefix_field. intros j s b Hj Hi. assert (j = 0) as -> by lia.
    injection Hi as <-. apply flushReadyFlag_config. }
  by rewrite E1, E2, E3.
Qed.

Lemma Flush_step2_out buf :
  run_out (flushAddedIPSets (run_state (forEach (fun s => s) (take 2 flushSteps) buf))) = ipSetAddMessages buf.
Proof.
  rewrite flushAddedIPSets_out.
  destruct (before_flushAddedIPSets buf) as (E1 & E2 & _). cbv zeta in E1, E2.
  by rewrite E1, E2.
Qed.

Lemma Flush_step3_out buf :
  run_fault (Flush buf) = None ->
  run_out (flushIPSetDeltas (run_state (forEach (fun s => s) (take 3 flushSteps) buf))) = ipSetDeltaMessages buf.
Proof.
  intros Hf. pose proof (prefix_returns 3 buf Hf) as Hp.
  rewrite flushIPSetDeltas_exact. unfold ipSetDeltaMessages.
  assert (HA : forall k,
    pendingAddedIPs (run_state (forEach (fun s => s) (take 3 flushSteps) buf)) !! k
    = (if decide (k ∈ pendingAddedIPSets buf) then None else pendingAddedIPs buf !! k)).
  { intros k. by destruct (before_flushIPSetDeltas buf k Hp). }
  destruct (before_flushIPSetDeltas buf "" Hp) as [_ ->].
  assert (Hdom : dom (pendingAddedIPs (run_state (forEach (fun s => s) (take 3 flushSteps) buf)))
                 = dom (pendingAddedIPs buf) ∖ pendingAddedIPSets buf).
  { apply set_eq. intros k. rewrite elem_of_difference, !elem_of_dom, HA.
    destruct (decide (k ∈ pendingAddedIPSets buf)) as [Hk|Hk].
    - split; [by intros [? ?]|by intros [_ ?]].
    - split; [by intros ?|by intros [? _]]. }
  rewrite Hdom. apply list_fmap_ext. intros i s _. f_equal. f_equal.
  unfold multidict_Iter at 1. rewrite HA.
  destruct (decide (s ∈ pendingAddedIPSets buf)); [|done].
  simpl. apply elements_empty.
Qed.

Lemma Flush_step4_out buf :
  run_fault (Flush buf) = None ->
  run_out (flushPolicyUpdates (run_state (forEach (fun s => s) (take 4 flushSteps) buf))) = policyUpdateMessages buf.
Proof.
  intros Hf.
  destruct (Flush_step_returns 4 flushPolicyUpdates buf eq_refl Hf) as [_ Hs].
  unfold flushPolicyUpdates, policyUpdateMessages in *.
  assert (E : pendingPolicyUpdates (run_state (forEach (fun s => s) (take 4 flushSteps) buf)) = pendingPolicyUpdates buf) by at_start step_frame_policies.
  rewrite E in *.
  apply (forEach_out_omap (fun _ _ => True)); [done| |done].
  intros [k [v|]] rest b _; unfold flushPolicyUpdate; simpl; [done|discriminate].
Qed.

Lemma Flush_step5_out buf :
  run_fault (Flush buf) = None ->
  run_out (flushProfileUpdates (run_state (forEach (fun s => s) (take 5 flushSteps) buf))) = profileUpdateMessages buf.
Proof.
  intros Hf.
  destruct (Flush_step_returns 5 flushProfileUpdates buf eq_refl Hf) as [_ Hs].
  unfold flushProfileUpdates, profileUpdateMessages in *.
  assert (E : pendingProfileUpdates (run_state (forEach (fun s => s) (take 5 flushSteps) buf)) = pendingProfileUpdates buf) by at_start step_frame_profiles.
  rewrite E in *.
  apply (forEach_out_omap (fun _ _ => True)); [done| |done].
  intros [k [v|]] rest b _; unfold flushProfileUpdate; simpl; [done|discriminate].
Qed.

Lemma Flush_step12_out buf :
  run_fault (Flush buf) = None ->
  run_out (flushHostIPUpdates (run_state (forEach (fun s => s) (take 12 flushSteps) buf))) = hostIPUpdateMessages buf.
Proof.
  intros Hf.
  destruct (Flush_step_returns 12 flushHostIPUpdates buf eq_refl Hf) as [_ Hs].
  unfold flushHostIPUpdates, hostIPUpdateMessages in *.
  assert (E : pendingHostIPUpdates (run_state (forEach (fun s => s) (take 12 flushSteps) buf)) = pendingHostIPUpdates buf) by at_start step_frame_hostips.
  rewrite E in *.
  apply (forEach_out_omap (fun _ _ => True)); [done| |done].
  intros [k [v|]] rest b _; unfold flushHostIPUpdate; simpl; [done|discriminate].
Qed.

Lemma Flush_step14_out buf :
  run_fault (Flush buf) = None ->
  run_out (flushIPPoolUpdates (run_state (forEach (fun s => s) (take 14 flushSteps) buf))) = ipPoolUpdateMessages buf.
Proof.
  intros Hf.
  destruct (Flush_step_returns 14 flushIPPoolUpdates buf eq_refl Hf) as [_ Hs].
  unfold flushIPPoolUpdates, ipPoolUpdateMessages in *.
  assert (E : pendingIPPoolUpdates (run_state (forEach (fun s => s) (take 14 flushSteps) buf)) = pendingIPPoolUpdates buf) by at_start step_frame_pools.
  rewrite E in *.
  apply (forEach_out_omap (fun _ _ => True)); [done| |done].
  intros [k [v|]] rest b _; unfold flushIPPoolUpdate; simpl; [done|discriminate].
Qed.

Lemma Flush_step8_out buf :
  run_fault (Flush buf) = None ->
  run_out (flushProfileDeletes (run_state (forEach (fun s => s) (take 8 flushSteps) buf))) = profileRemoveMessages buf.
Proof.
  intros Hf.
  destruct (Flush_step_returns 8 flushProfileDeletes buf eq_refl Hf) as [_ Hs].
  unfold flushProfileDeletes, profileRemoveMessages in *.
  assert (E : pendingProfileDeletes (run_state (forEach (fun s => s) (take 8 flushSteps) buf)) = pendingProfileDeletes buf) by at_start step_frame_profiles.
  rewrite E in *.
  apply forEach_out_fmap; [|done]. intros x b _. reflexivity.
Qed.

Lemma Flush_step9_out buf :
  run_fault (Flush buf) = None ->
  run_out (flushPolicyDeletes (run_state (forEach (fun s => s) (take 9 flushSteps) buf))) = policyRemoveMessages buf.
Proof.
  intros Hf.
  destruct (Flush_step_returns 9 flushPolicyDeletes buf eq_refl Hf) as [_ Hs].
  unfold flushPolicyDeletes, policyRemoveMessages in *.
  assert (E : pendingPolicyDeletes (run_state (forEach (fun s => s) (take 9 flushSteps) buf)) = pendingPolicyDeletes buf) by at_start step_frame_policies.
  rewrite E in *.
  apply forEach_out_fmap; [|done]. intros x b _. reflexivity.
Qed.

Lemma Flush_step10_out buf :
  run_fault (Flush buf) = None ->
  run_out (flushRemovedIPSets (run_state (forEach (fun s => s) (take 10 flushSteps) buf))) = ipSetRemoveMessages buf.
Proof.
  intros Hf.
  destruct (Flush_step_returns 10 flushRemovedIPSets buf eq_refl Hf) as [_ Hs].
  unfold flushRemovedIPSets, ipSetRemoveMessages in *.
  assert (E : pendingRemovedIPSets (run_state (forEach (fun s => s) (take 10 flushSteps) buf)) = pendingRemovedIPSets buf) by at_start step_frame_ipsets.
  rewrite E in *.
  apply forEach_out_fmap; [|done]. intros x b _. reflexivity.
Qed.

Lemma Flush_step11_out buf :
  run_fault (Flush buf) = None ->
  run_out (flushHostIPDeletes (run_state (forEach (fun s => s) (take 11 flushSteps) buf))) = hostIPRemoveMessages buf.
Proof.
  intros Hf.
  destruct (Flush_step_returns 11 flushHostIPDeletes buf eq_refl Hf) as [_ Hs].
  unfold flushHostIPDeletes, hostIPRemoveMessages in *.
  assert (E : pendingHostIPDeletes (run_state (forEach (fun s => s) (take 11 flushSteps) buf)) = pendingHostIPDeletes buf) by at_start step_frame_hostips.
  rewrite E in *.
  apply forEach_out_fmap; [|done]. intros x b _. reflexivity.
Qed.

Lemma Flush_step7_out buf :
  run_fault (Flush buf) = None ->
  run_out (flushEndpointTierDeletes (run_state (forEach (fun s => s) (take 7 flushSteps) buf))) = endpointRemoveMessages buf.
Proof.
  intros Hf.
  destruct (Flush_step_returns 7 flushEndpointTierDeletes buf eq_refl Hf) as [_ Hs].
  unfold flushEndpointTierDeletes, endpointRemoveMessages in *.
  assert (E : pendingEndpointDeletes (run_state (forEach (fun s => s) (take 7 flushSteps) buf)) = pendingEndpointDeletes buf)
    by at_start step_frame_endpoints.
  rewrite E in *.
  apply (forEach_out_omap (fun _ _ => True)); [done| |done].
  intros x rest b _ _. unfold flushEndpointTierDelete. by destruct x.
Qed.

Lemma Flush_step13_out buf :
  run_fault (Flush buf) = None ->
  run_out (flushIPPoolDeletes (run_state (forEach (fun s => s) (take 13 flushSteps) buf))) = ipPoolRemoveMessages buf.
Proof.
  intros Hf.
  destruct (Flush_step_returns 13 flushIPPoolDeletes buf eq_refl Hf) as [_ Hs].
  unfold flushIPPoolDeletes, ipPoolRemoveMessages in *.
  assert (E : pendingIPPoolDeletes (run_state (forEach (fun s => s) (take 13 flushSteps) buf)) = pendingIPPoolDeletes buf)
    by at_start step_frame_pools.
  rewrite E in *.
  apply (forEach_out_omap (fun _ _ => True)); [done| |done].
  intros [key|cidr] rest b _; unfold flushIPPoolDelete; simpl; [discriminate|done].
Qed.

Lemma Flush_step6_out buf :
  run_fault (Flush buf) = None ->
  run_out (flushEndpointTierUpdates (run_state (forEach (fun s => s) (take 6 flushSteps) buf))) = endpointUpdateMessages buf.
Proof.
  intros Hf.
  destruct (Flush_step_returns 6 flushEndpointTierUpdates buf eq_refl Hf) as [_ Hs].
  destruct (before_flushEndpointTierUpdates buf) as (E1 & E2). cbv zeta in E1, E2.
  unfold flushEndpointTierUpdates, endpointUpdateMessages in *. rewrite E1 in *.
  apply (forEach_out_omap
    (fun rest b => NoDup rest.*1 /\
       forall kv, kv ∈ rest ->
         pendingEndpointTierUpdates b !! kv.1 = pendingEndpointTierUpdates buf !! kv.1));
    [| |done].
  - split; [apply NoDup_fst_map_to_list|]. intros kv _. by rewrite E2.
  - clear Hs. intros [k e] rest b (Hnd & Ht) Hfb. simpl in Hnd.
    apply NoDup_cons in Hnd as [Hk Hnd].
    pose proof (Ht (k, e) ltac:(left)) as Hke. simpl in Hke.
    unfold flushEndpointTierUpdate, recordEndpointSent in *.
    rewrite tierInfoToProtoTierInfo_spec in *. rewrite Hke in *. simpl.
    assert (Hrest : forall kv, kv ∈ rest ->
              delete k (pendingEndpointTierUpdates b) !! kv.1
              = pendingEndpointTierUpdates buf !! kv.1).
    { intros kv Hkv. rewrite lookup_delete_ne; [apply Ht; by right|].
      intros ->. apply Hk. apply list_elem_of_fmap. by exists kv. }
    destruct k, e as [[?|]|[?|]]; simpl in *; try discriminate; done.
Qed.

(** The output of a flush that returns: the messages of the pending
    buffers, item by item. *)
Lemma Flush_out_exact buf :
  run_fault (Flush buf) = None -> run_out (Flush buf) = concat (pendingMessages buf).
Proof.
  intros Hf. rewrite Flush_forEach.
  change (forEach (fun s => s) flushSteps buf)
    with (forEach (fun s => s) (take 15 flushSteps) buf).
  rewrite (prefix_out_S 14 flushIPPoolUpdates buf eq_refl (prefix_returns 14 buf Hf)).
  rewrite (prefix_out_S 13 flushIPPoolDeletes buf eq_refl (prefix_returns 13 buf Hf)).
  rewrite (prefix_out_S 12 flushHostIPUpdates buf eq_refl (prefix_returns 12 buf Hf)).
  rewrite (prefix_out_S 11 flushHostIPDeletes buf eq_refl (prefix_returns 11 buf Hf)).
  rewrite (prefix_out_S 10 flushRemovedIPSets buf eq_refl (prefix_returns 10 buf Hf)).
  rewrite (prefix_out_S 9 flushPolicyDeletes buf eq_refl (prefix_returns 9 buf Hf)).
  rewrite (prefix_out_S 8 flushProfileDeletes buf eq_refl (prefix_returns 8 buf Hf)).
  rewrite (prefix_out_S 7 flushEndpointTierDeletes buf eq_refl (prefix_returns 7 buf Hf)).
  rewrite (prefix_out_S 6 flushEndpointTierUpdates buf eq_refl (prefix_returns 6 buf Hf)).
  rewrite (prefix_out_S 5 flushProfileUpdates buf eq_refl (prefix_returns 5 buf Hf)).
  rewrite (prefix_out_S 4 flushPolicyUpdates buf eq_refl (prefix_returns 4 buf Hf)).
  rewrite (prefix_out_S 3 flushIPSetDeltas buf eq_refl (prefix_returns 3 buf Hf)).
  rewrite (prefix_out_S 2 flushAddedIPSets buf eq_refl (prefix_returns 2 buf Hf)).
  rewrite (prefix_out_S 1 flushConfigUpdate buf eq_refl (prefix_returns 1 buf Hf)).
  rewrite (prefix_out_S 0 flushReadyFlag buf eq_refl (prefix_returns 0 buf Hf)).
  change (run_out (forEach (fun s => s) (take 0 flushSteps) buf)) with (@nil Message).
  rewrite (Flush_step0_out buf).
  rewrite (Flush_step1_out buf Hf).
  rewrite (Flush_step2_out buf).
  rewrite (Flush_step3_out buf Hf).
  rewrite (Flush_step4_out buf Hf).
  rewrite (Flush_step5_out buf Hf).
  rewrite (Flush_step6_out buf Hf).
  rewrite (Flush_step7_out buf Hf).
  rewrite (Flush_step8_out buf Hf).
  rewrite (Flush_step9_out buf Hf).
  rewrite (Flush_step10_out buf Hf).
  rewrite (Flush_step11_out buf Hf).
  rewrite (Flush_step12_out buf Hf).
  rewrite (Flush_step13_out buf Hf).
  rewrite (Flush_step14_out buf Hf).
  unfold pendingMessages. cbn [concat]. rewrite app_nil_l, <- !app_assoc, ?app_nil_r.
  reflexivity.
Qed.

Lemma pendingMessages_item buf (i : nat) (l : list Message) m :
  pendingMessages buf !! i = Some l -> m ∈ l -> orderingItem m = S i.
Proof.
  intros Hi Hm. unfold pendingMessages in Hi.
  do 13 (try (destruct i as [|i]; [injection Hi as <-|])); [..|discriminate Hi].
  - unfold notReadyMessages in Hm. destruct (pendingNotReady buf).
    + by apply list_elem_of_singleton in Hm as ->.
    + by apply elem_of_nil in Hm.
  - unfold configMessages in Hm. repeat case_match;
      first [ by apply elem_of_nil in Hm | by apply list_elem_of_singleton in Hm as -> ].
  - by apply list_elem_of_fmap in Hm as (x & -> & _).
  - by apply list_elem_of_fmap in Hm as (x & -> & _).
  - apply list_elem_of_omap in Hm as ([k [v|]] & _ & Hx); simpl in Hx; by simplify_eq.
  - apply list_elem_of_omap in Hm as ([k [v|]] & _ & Hx); simpl in Hx; by simplify_eq.
  - apply list_elem_of_omap in Hm as ([k e] & _ & Hx). simpl in Hx.
    repeat case_match; by simplify_eq.
  - apply list_elem_of_omap in Hm as (k & _ & Hx). destruct k; by simplify_eq.
  - by apply list_elem_of_fmap in Hm as (x & -> & _).
  - by apply list_elem_of_fmap in Hm as (x & -> & _).
  - by apply list_elem_of_fmap in Hm as (x & -> & _).
  - apply elem_of_app in Hm as [Hm|Hm].
    + by apply list_elem_of_fmap in Hm as (x & -> & _).
    + apply list_elem_of_omap in Hm as ([k [v|]] & _ & Hx); simpl in Hx; by simplify_eq.
  - apply elem_of_app in Hm as [Hm|Hm].
    + apply list_elem_of_omap in Hm as (k & _ & Hx). destruct k; by simplify_eq.
    + apply list_elem_of_omap in Hm as ([k [v|]] & _ & Hx); simpl in Hx; by simplify_eq.
Qed.

(** C1.  The messages that one call of [Flush] hands out are in the order
    of the thirteen items of the specification: datastore-not-ready
    signal, config update, IP set adds, IP set delta updates, policy
    updates, profile updates, endpoint updates, endpoint removes, profile
    removes, policy removes, IP set removes, host-IP removes and updates,
    IP-pool removes and updates; this holds in every state, whether the
    flush returns or stops on the way.  A flush that returns hands out
    exactly the messages of what is pending when it starts: the not-ready
    signal if pending, the config update if the merged config changed,
    one add for every pending IP set with the full pending membership of
    the set, one delta for every other set with pending IP adds or
    removes, one update or remove for every pending policy, profile,
    endpoint, host IP and IP pool, item after item. *)
Theorem Flush_order (buf : EventSequencer) :
  StronglySorted le (stage <$> run_out (Flush buf)) /\
  StronglySorted le (orderingItem <$> run_out (Flush buf)) /\
  (run_fault (Flush buf) = None -> run_out (Flush buf) = concat (pendingMessages buf)) /\
  (forall i l m, pendingMessages buf !! i = Some l -> m ∈ l -> orderingItem m = S i).
Proof.
  destruct (Flush_stages_sorted buf) as [H1 H2].
  split; [exact H1|]. split; [exact H2|].
  split; [apply Flush_out_exact|apply pendingMessages_item].
Qed.

(** *** IP pools between two calls *)

Ltac solve_pooldisj :=
  unfold PoolsDisjoint in *;
  repeat case_bool_decide; repeat case_match; simplify_eq; simpl;
  rewrite ?dom_insert_L, ?dom_delete_L;
  first [ assumption | set_solver ].

Lemma perform_pools_input (c : Call) buf buf' :
  c <> CallFlush -> perform c buf = Ok buf' -> PoolsDisjoint buf -> PoolsDisjoint buf'.
Proof.
  intros Hc Hp Hinv. destruct c; simpl in Hp; try done.
  - unfold OnIPSetAdded in Hp. solve_pooldisj.
  - unfold OnIPSetRemoved in Hp. solve_pooldisj.
  - unfold OnIPAdded in Hp. solve_pooldisj.
  - unfold OnIPRemoved in Hp. solve_pooldisj.
  - unfold OnDatastoreNotReady in Hp. solve_pooldisj.
  - unfold OnConfigUpdate in Hp. solve_pooldisj.
  - unfold OnPolicyActive in Hp. solve_pooldisj.
  - unfold OnPolicyInactive in Hp. solve_pooldisj.
  - unfold OnProfileActive in Hp. solve_pooldisj.
  - unfold OnProfileInactive in Hp. solve_pooldisj.
  - unfold OnEndpointTierUpdate in Hp. solve_pooldisj.
  - unfold OnHostIPUpdate in Hp. solve_pooldisj.
  - unfold OnHostIPRemove in Hp. solve_pooldisj.
  - unfold OnIPPoolUpdate in Hp. destruct (decide _) as [E|]; [|done].
    simplify_eq. intros cidr _. simpl. rewrite E. set_solver.
  - unfold OnIPPoolRemove in Hp. solve_pooldisj.
Qed.

Lemma flushSteps_pools (s : EventSequencer -> FlushRun) buf :
  s ∈ flushSteps -> PoolsDisjoint buf -> PoolsDisjoint (run_state (s buf)).
Proof.
  unfold flushSteps. intros Hs Hinv.
  repeat (apply elem_of_cons in Hs; destruct Hs as [->|Hs]);
    [..|by apply elem_of_nil in Hs].
  - unfold flushReadyFlag. solve_pooldisj.
  - unfold flushConfigUpdate. solve_pooldisj.
  - unfold flushAddedIPSets. loop_inv. unfold flushAddedIPSet. solve_pooldisj.
  - unfold flushIPSetDeltas. apply andThen_state_ind; [|clear; intros buf Hinv];
      loop_inv; unfold flushAddsOrRemoves; solve_pooldisj.
  - unfold flushPolicyUpdates. loop_inv. unfold flushPolicyUpdate. solve_pooldisj.
  - unfold flushProfileUpdates. loop_inv. unfold flushProfileUpdate. solve_pooldisj.
  - unfold flushEndpointTierUpdates. loop_inv.
    unfold flushEndpointTierUpdate, recordEndpointSent. solve_pooldisj.
  - unfold flushEndpointTierDeletes. loop_inv. unfold flushEndpointTierDelete. solve_pooldisj.
  - unfold flushProfileDeletes. loop_inv. unfold flushProfileDelete. solve_pooldisj.
  - unfold flushPolicyDeletes. loop_inv. unfold flushPolicyDelete. solve_pooldisj.
  - unfold flushRemovedIPSets. loop_inv. unfold flushRemovedIPSet. solve_pooldisj.
  - unfold flushHostIPDeletes. loop_inv. unfold flushHostIPDelete. solve_pooldisj.
  - unfold flushHostIPUpdates. loop_inv. unfold flushHostIPUpdate. solve_pooldisj.
  - unfold flushIPPoolDeletes. loop_inv. unfold flushIPPoolDelete. solve_pooldisj.
  - unfold flushIPPoolUpdates. loop_inv. unfold flushIPPoolUpdate. solve_pooldisj.
Qed.

Lemma reachable_pools buf : reachable buf -> PoolsDisjoint buf.
Proof.
  apply reachable_ind_steps.
  - intros conf cidr. simpl. rewrite dom_empty_L. set_solver.
  - apply perform_pools_input.
  - apply flushSteps_pools.
Qed.

(** C10, as the code has it.  Between two calls, that is after every
    input callback and every [Flush] that returns, nothing is pending
    both as an add or update and as a delete: no IP set, no IP of a set,
    no policy, profile, endpoint, host IP or IP pool; every pending
    delete of an IP set, policy, profile, endpoint, host IP or IP pool
    is of something in the matching sent set; and every set with pending
    IP adds or removes is in the sent set or pending as an add. *)
Theorem pending_invariant (buf : EventSequencer) :
  reachable buf -> PendingInvariant buf /\ IPKeysKnown buf.
Proof.
  intros Hr. destruct (reachable_invariant buf Hr) as [H1 H2].
  split; [|by apply reachable_known].
  split; [done|]. split; [by apply reachable_pools|done].
Qed.

(** [OnIPPoolUpdate] panics when it follows the removal of a pool that
    was sent, whatever pool it updates, and returns when it follows a
    flush that returned. *)
Theorem OnIPPoolUpdate_after_remove (buf : EventSequencer) (key key' : IPPoolKey)
    (pool : option IPPool) :
  (CIDRFromCalicoNet (IPPoolKey_CIDR key) ∈ sentIPPools buf ->
   OnIPPoolUpdate key' pool (OnIPPoolRemove key buf) = Failed UnhashableKey) /\
  (run_fault (Flush buf) = None ->
   exists buf', OnIPPoolUpdate key' pool (run_state (Flush buf)) = Ok buf').
Proof.
  split.
  - intros Hs. unfold OnIPPoolUpdate, OnIPPoolRemove. simpl.
    rewrite (bool_decide_eq_true_2 _ Hs). simpl.
    rewrite decide_False; [done|]. set_solver.
  - intros Hf. unfold OnIPPoolUpdate.
    rewrite (dr_ipPoolDeletes _ (Flush_drained buf Hf)).
    rewrite decide_True by done. eauto.
Qed.

(** *** Two flushes in a row *)

Lemma Flush_hostConfig buf :
  run_fault (Flush buf) = None ->
  pendingHostConfig (run_state (Flush buf))
  = match pendingGlobalConfig buf with
    | Some _ => None
    | None => pendingHostConfig buf
    end.
Proof.
  rewrite Flush_head.
  destruct (flushReadyFlag_config buf) as (E1 & E2 & E3 & Hf0).
  rewrite andThen_fault, andThen_state by done.
  set (b1 := run_state (flushReadyFlag buf)) in *.
  intros [Hf1 _]%andThen_fault_None. rewrite andThen_state by done.
  rewrite (suffix_field pendingHostConfig 2).
  2: { intros j s b Hj Hs. apply (step_frame_config j s b Hs). lia. }
  rewrite <- E2, <- E3. clear E1 E2 E3 Hf0. revert Hf1. generalize b1. clear. intros b.
  unfold flushConfigUpdate.
  destruct (pendingGlobalConfig b); [|done].
  destruct (Config_UpdateFrom (config b) _ DatastoreGlobal) as [[conf1 ch1] [e1|]];
    simpl; [discriminate|].
  destruct (Config_UpdateFrom conf1 _ DatastorePerHost) as [[conf2 ch2] [e2|]];
    simpl; [discriminate|done].
Qed.

(** C6, as the code has it.  When a call of [Flush] returns, a second
    call right after it hands out no message: it returns as well and
    leaves the state as the first call left it.  The first call leaves
    every pending buffer of IP sets, IPs, policies, profiles, endpoints,
    host IPs and IP pools empty, the not-ready signal and the global
    config not pending, and, between two calls, the pending tiers empty;
    a pending host config is gone when a global config was pending with
    it, and stays pending when none was.  So a flush between two calls
    drains every pending buffer unless a host config is pending with no
    global config. *)
Theorem Flush_idempotent (buf : EventSequencer) :
  run_fault (Flush buf) = None ->
  (run_out (Flush (run_state (Flush buf))) = [] /\
   run_fault (Flush (run_state (Flush buf))) = None /\
   run_state (Flush (run_state (Flush buf))) = run_state (Flush buf)) /\
  Drained (run_state (Flush buf)) /\
  pendingHostConfig (run_state (Flush buf))
    = match pendingGlobalConfig buf with
      | Some _ => None
      | None => pendingHostConfig buf
      end /\
  (reachable buf -> pendingEndpointTierUpdates (run_state (Flush buf)) = ∅) /\
  (reachable buf ->
   (pendingGlobalConfig buf = None -> pendingHostConfig buf = None) ->
   AllDrained (run_state (Flush buf))).
Proof.
  intros Hf. pose proof (Flush_drained buf Hf) as Hd.
  assert (Ht : reachable buf -> pendingEndpointTierUpdates (run_state (Flush buf)) = ∅).
  { intros Hr.
    assert (Hr' : reachable (run_state (Flush buf))).
    { apply (reachable_call CallFlush buf); [done|]. simpl. by rewrite Hf. }
    apply reachable_tiers in Hr'. unfold TiersTracked in Hr'.
    rewrite (dr_endpointUpdates _ Hd), dom_empty_L in Hr'.
    by apply dom_empty_iff_L. }
  split; [by apply Flush_second_silent|]. split; [done|].
  split; [by apply Flush_hostConfig|]. split; [done|].
  intros Hr Hc. split; [done|]. split; [by apply Ht|].
  rewrite (Flush_hostConfig buf Hf). destruct (pendingGlobalConfig buf); [done|by apply Hc].
Qed.

End SequencerFacts.

(** ** The model at work *)

Lemma testNew_reachable : reachable testNew.
Proof. apply reachable_new. Qed.

Lemma Flush_idempotent_witness :
  (run_out (Flush (run_state (Flush testHostPending))) = [] /\
   run_fault (Flush (run_state (Flush testHostPending))) = None /\
   run_state (Flush (run_state (Flush testHostPending))) = run_state (Flush testHostPending)) /\
  Drained (run_state (Flush testHostPending)) /\
  pendingHostConfig (run_state (Flush testHostPending))
    = match pendingGlobalConfig testHostPending with
      | Some _ => None
      | None => pendingHostConfig testHostPending
      end /\
  pendingEndpointTierUpdates (run_state (Flush testHostPending)) = ∅ /\
  AllDrained (run_state (Flush testHostPending)).
Proof.
  destruct (@Flush_idempotent testExternals testHostPending) as (H1 & H2 & H3 & H4 & H5).
  - vm_compute. reflexivity.
  - split; [exact H1|]. split; [exact H2|]. split; [exact H3|]. split.
    + apply H4, reachable_runCalls, reachable_new.
    + apply H5; [apply reachable_runCalls, reachable_new|reflexivity].
Defined.

(** C6, as the claim states it, fails: a host config queued with no
    global config is still pending after a flush that returns, so that
    flush does not drain every pending buffer. *)
Lemma Flush_idempotent_counterexample :
  reachable testHostConfigPending /\
  run_fault (Flush testHostConfigPending) = None /\
  pendingHostConfig (run_state (Flush testHostConfigPending))
    = Some {["LogSeverityScreen" := "info"]} /\
  ~ AllDrained (run_state (Flush testHostConfigPending)).
Proof.
  assert (H : pendingHostConfig (run_state (Flush testHostConfigPending))
              = Some {["LogSeverityScreen" := "info"]}).
  { vm_compute. reflexivity. }
  split; [apply reachable_runCalls, reachable_new|].
  split; [vm_compute; reflexivity|]. split; [exact H|].
  intros (_ & _ & Hn). rewrite H in Hn. discriminate Hn.
Qed.

Lemma cancellation_before_flush_witness :
  let buf := @runCalls testExternals [CallOnIPSetAdded "s"] testNew in
  exists buf', OnIPSetRemoved "s" buf = Ok buf' /\
    ("s" ∉ pendingAddedIPSets buf') /\ ("s" ∉ pendingRemovedIPSets buf') /\
    forall m, m ∈ run_out (Flush buf') -> ipSetOf m <> Some "s".
Proof.
  destruct (@cancellation_before_flush testExternals) as (H & _ & _).
  apply (H (@runCalls testExternals [CallOnIPSetAdded "s"] testNew) "s").
  - apply reachable_runCalls, reachable_new.
  - apply (bool_decide_unpack _). vm_compute. exact I.
  - apply (bool_decide_unpack _). vm_compute. exact I.
Defined.

Lemma full_replacement_witness :
  exists buf1 buf2 buf3,
    OnIPSetRemoved "s" testSetSent = Ok buf1 /\
    OnIPSetAdded "s" buf1 = Ok buf2 /\
    @addMembers testExternals "s" ["10.0.0.3"] buf2 = Ok buf3 /\
    ((forall msg, run_fault (Flush buf3) <> Some (LogFatal msg)) ->
       filter (fun m => isIPSetUpdateFor "s" m = true) (run_out (Flush buf3))
       = [IPSetUpdate "s" (@Addr_String testExternals <$>
                             elements (list_to_set ["10.0.0.3"] : gset string))]) /\
    (forall m, m ∈ run_out (Flush buf3) ->
       isIPSetRemoveFor "s" m = false /\ isIPSetDeltaUpdateFor "s" m = false).
Proof.
  apply (@full_replacement testExternals testSetSent "s" ["10.0.0.3"]).
  apply (bool_decide_unpack _). vm_compute. exact I.
Defined.

Lemma testHostPending_out :
  run_out (Flush testHostPending) =
  [HostEndpointUpdate {| hid_EndpointId := "eth0" |}
     {| phep_Name := "eth0"; phep_ExpectedIpv4Addrs := ["10.0.0.1"];
        phep_ExpectedIpv6Addrs := []; phep_ProfileIds := ["prof"];
        phep_Tiers := [{| ProtoTierInfo_Name := "default"; ProtoTierInfo_Policies := ["a"] |}];
        phep_UntrackedTiers :=
          [{| ProtoTierInfo_Name := "default"; ProtoTierInfo_Policies := ["b"] |}] |}].
Proof. vm_compute. reflexivity. Qed.

Lemma testWorkloadPending_out :
  run_out (Flush testWorkloadPending) =
  [WorkloadEndpointUpdate
     {| wid_OrchestratorId := "k8s"; wid_WorkloadId := "pod"; wid_EndpointId := "eth0" |}
     {| pwep_State := "active"; pwep_Name := "cali1234"; pwep_Mac := "";
        pwep_ProfileIds := ["prof"]; pwep_Ipv4Nets := ["10.0.0.1/32"]; pwep_Ipv6Nets := [];
        pwep_Tiers := [{| ProtoTierInfo_Name := "default"; ProtoTierInfo_Policies := ["a"] |}];
        pwep_Ipv4Nat := []; pwep_Ipv6Nat := [] |}].
Proof. vm_compute. reflexivity. Qed.

Lemma endpoint_updates_split_witness :
  exists key, key ∈ dom (pendingEndpointUpdates testHostPending) /\
    endpointIDOfKey key = Some (HostID {| hid_EndpointId := "eth0" |}) /\
    [{| ProtoTierInfo_Name := "default"; ProtoTierInfo_Policies := ["a"] |}]
      = tiersWith trackedNames
          (default [] (pendingEndpointTierUpdates testHostPending !! key)) /\
    [{| ProtoTierInfo_Name := "default"; ProtoTierInfo_Policies := ["b"] |}]
      = tiersWith untrackedNames
          (default [] (pendingEndpointTierUpdates testHostPending !! key)).
Proof.
  destruct (@endpoint_updates_split testExternals) as (_ & _ & H).
  apply (H testHostPending
    (HostEndpointUpdate {| hid_EndpointId := "eth0" |}
       {| phep_Name := "eth0"; phep_ExpectedIpv4Addrs := ["10.0.0.1"];
          phep_ExpectedIpv6Addrs := []; phep_ProfileIds := ["prof"];
          phep_Tiers :=
            [{| ProtoTierInfo_Name := "default"; ProtoTierInfo_Policies := ["a"] |}];
          phep_UntrackedTiers :=
            [{| ProtoTierInfo_Name := "default"; ProtoTierInfo_Policies := ["b"] |}] |})).
  rewrite testHostPending_out. left.
Defined.

(** C8, as the claim states it, fails: the update of a workload endpoint
    whose tier has a do-not-track policy carries no untracked tiers. *)
Lemma endpoint_updates_split_counterexample :
  ~ CarriesTrackedAndUntracked testWorkloadPending.
Proof.
  intros H.
  assert (Hm : exists m, m ∈ run_out (Flush testWorkloadPending) /\
             stage m = 7 /\ untrackedTiersOf m = None).
  { rewrite testWorkloadPending_out. eexists. split; [left|]. split; reflexivity. }
  destruct Hm as (m & Hm & Hst & Hu).
  destruct (H m Hm Hst) as (key & _ & _ & _ & Hu'). rewrite Hu in Hu'. discriminate Hu'.
Qed.

Lemma pending_invariant_witness :
  PendingInvariant testPoolRemoved /\ IPKeysKnown testPoolRemoved.
Proof.
  apply (@pending_invariant testExternals testPoolRemoved).
  apply reachable_runCalls, reachable_new.
Defined.

(** C10, as the claim states it, fails: an IP removed from a set that is
    pending as an add and was never sent is in the pending removes, and
    its set is not in the sent set.  The next flush hands out the set
    and then the remove. *)
Lemma pending_invariant_counterexample :
  reachable testIPRemovedEarly /\
  "n" ∈ dom (pendingRemovedIPs testIPRemovedEarly) /\
  ("n" ∉ sentIPSets testIPRemovedEarly) /\
  ~ IPRemovesSent testIPRemovedEarly /\
  run_out (Flush testIPRemovedEarly)
    = [IPSetUpdate "n" []; IPSetDeltaUpdate "n" [] ["10.0.0.5"]].
Proof.
  assert (H1 : "n" ∈ dom (pendingRemovedIPs testIPRemovedEarly)).
  { apply (bool_decide_unpack _). vm_compute. exact I. }
  assert (H2 : "n" ∉ sentIPSets testIPRemovedEarly).
  { apply (bool_decide_unpack _). vm_compute. exact I. }
  split; [apply reachable_runCalls, reachable_new|].
  split; [exact H1|]. split; [exact H2|]. split.
  - intros Hs. exact (H2 (Hs _ H1)).
  - vm_compute. reflexivity.
Qed.

(** The pool of [testPoolRemoved] is pending as a delete; updating it
    again panics. *)
Lemma testPoolRemoved_update_panics :
  @ItemCIDR testExternals "10.0.0.0/8" ∈ pendingIPPoolDeletes testPoolRemoved /\
  OnIPPoolUpdate testPoolKey (Some testPool) testPoolRemoved = Failed UnhashableKey.
Proof.
  split; [apply (bool_decide_unpack _); vm_compute; exact I|].
  vm_compute. reflexivity.
Qed.


Lemma delete_after_update_witness :
  OnPolicyInactive (mkPolicyKey "p") (OnPolicyActive (mkPolicyKey "p") None testSetSent)
    = OnPolicyInactive (mkPolicyKey "p") testSetSent /\
  OnProfileInactive (mkProfileRulesKey "q")
      (OnProfileActive (mkProfileRulesKey "q") None testSetSent)
    = OnProfileInactive (mkProfileRulesKey "q") testSetSent /\
  OnEndpointTierUpdate testHostKey None []
      (OnEndpointTierUpdate testHostKey (Some (HostEndpointPtr (Some testHost))) [testTier]
         testSetSent)
    = OnEndpointTierUpdate testHostKey None [] testSetSent /\
  OnHostIPRemove "host" (@OnHostIPUpdate testExternals "host" (Some "10.0.0.1") testSetSent)
    = OnHostIPRemove "host" testSetSent.
Proof.
  apply (@delete_after_update testExternals testSetSent).
  apply reachable_runCalls, reachable_runCalls, reachable_new.
Defined.

Lemma OnIPAdded_OnIPRemoved_round_trip_witness :
  (exists buf1, @OnIPAdded testExternals "s" "10.0.0.9" testSetSent = Ok buf1 /\
                @OnIPRemoved testExternals "s" "10.0.0.9" buf1 = Ok testSetSent) /\
  (exists buf1, @OnIPRemoved testExternals "s" "10.0.0.9" testSetSent = Ok buf1 /\
                @OnIPAdded testExternals "s" "10.0.0.9" buf1 = Ok testSetSent).
Proof.
  apply (@OnIPAdded_OnIPRemoved_round_trip testExternals testSetSent "s" "10.0.0.9").
  - apply reachable_runCalls, reachable_runCalls, reachable_new.
  - apply (bool_decide_unpack _). vm_compute. exact I.
  - vm_compute. reflexivity.
  - vm_compute. reflexivity.
Defined.

Lemma reachable_pending_IPs_witness :
  NoEmptyKeys testSetPending /\
  forall setID ip,
    setID ∈ dom (pendingAddedIPs testSetPending) ∪ dom (pendingRemovedIPs testSetPending) ->
    (exists buf', OnIPAdded setID ip testSetPending = Ok buf') /\
    (exists buf', OnIPRemoved setID ip testSetPending = Ok buf').
Proof.
  apply (@reachable_pending_IPs testExternals testSetPending).
  apply reachable_runCalls, reachable_new.
Defined.

Lemma Flush_hands_out_removes_witness :
  let buf := @runCalls testExternals [CallOnIPSetRemoved "s"] testSetSent in
  @IPSetRemove testExternals "s" ∈ run_out (Flush buf) <->
  exists setID, setID ∈ pendingRemovedIPSets buf /\
    @IPSetRemove testExternals "s" ∈ run_out (flushRemovedIPSet setID buf).
Proof.
  intros buf. apply (@Flush_hands_out_removes testExternals buf (IPSetRemove "s")).
  vm_compute. reflexivity.
Defined.

Lemma Flush_hands_out_updates_witness :
  @IPSetUpdate testExternals "s" ["10.0.0.1"; "10.0.0.2"] ∈ run_out (Flush testSetPending) <->
  exists setID, setID ∈ pendingAddedIPSets testSetPending /\
    @IPSetUpdate testExternals "s" ["10.0.0.1"; "10.0.0.2"]
      ∈ run_out (flushAddedIPSet setID testSetPending).
Proof.
  apply (@Flush_hands_out_updates testExternals testSetPending
           (IPSetUpdate "s" ["10.0.0.1"; "10.0.0.2"])).
  vm_compute. reflexivity.
Defined.

Lemma Flush_hands_out_deltas_witness :
  let buf := @runCalls testExternals [@CallOnIPAdded testExternals "s" "10.0.0.3"] testSetSent in
  let m := @IPSetDeltaUpdate testExternals "s" ["10.0.0.3"] [] in
  (m ∈ run_out (Flush buf) <->
   exists s,
     (s ∈ dom (pendingRemovedIPs buf) \/
      (s ∈ dom (pendingAddedIPs buf) /\ s ∉ pendingAddedIPSets buf)) /\
     m = IPSetDeltaUpdate s
           (Addr_String <$> (if decide (s ∈ pendingAddedIPSets buf) then []
                             else multidict_Iter s (pendingAddedIPs buf)))
           (Addr_String <$> multidict_Iter s (pendingRemovedIPs buf))) /\
  (reachable buf -> m ∈ run_out (Flush buf) ->
   exists s added removed,
     m = IPSetDeltaUpdate s added removed /\ (added <> [] \/ removed <> [])).
Proof.
  intros buf m. apply (@Flush_hands_out_deltas testExternals buf m).
  - vm_compute. reflexivity.
  - reflexivity.
Defined.

Lemma Flush_faults_witness :
  let buf := @OnConfigUpdate testExternals (Some {["bad" := "x"]}) None testNew in
  let f := LogFatal "Failed to parse config update" in
  (f = LogFatal "Failed to parse config update" /\
   run_fault (flushConfigUpdate buf) = Some f /\
   run_out (Flush buf) = (if pendingNotReady buf then [DatastoreNotReady] else [])) \/
  ((f = NilDereference \/ f = TypeAssertion) /\
   run_fault (flushConfigUpdate buf) = None).
Proof.
  intros buf f. apply (@Flush_faults testExternals buf f). vm_compute. reflexivity.
Defined.

Lemma Flush_config_update_witness :
  let buf := @OnConfigUpdate testExternals None (Some {["LogSeverityScreen" := "info"]})
               testNew in
  config (run_state (Flush buf)) = config buf /\
  pendingHostConfig (run_state (Flush buf)) = pendingHostConfig buf /\
  forall c, ConfigUpdate c ∉ run_out (Flush buf).
Proof.
  intros buf. destruct (@Flush_config_update testExternals buf) as (_ & _ & H).
  apply H. reflexivity.
Defined.

Lemma cidrToIPPoolID_injective_witness :
  String.length (@cidrToIPPoolID testExternals "10.0.0.0/8") = String.length "10.0.0.0/8" /\
  (@cidrToIPPoolID testExternals "10.0.0.0/8" = @cidrToIPPoolID testExternals "10.0.0.0/16" ->
   "10.0.0.0/8" = "10.0.0.0/16").
Proof.
  apply (@cidrToIPPoolID_injective testExternals "10.0.0.0/8" "10.0.0.0/16");
    vm_compute; intuition discriminate.
Defined.
